(** * Segmented transcript assembly: a shallow embedding

    This development embeds the caption pipeline of
    [process_video_with_captions.py] (class [VideoProcessor]) and of
    [caption_generator.py] (class [CaptionGenerator]) and proves the
    structural properties of the input stage, the chunker, the transcription
    client, the gap analyzer, the timing optimizer and the caption
    formatter.

    Conventions of the embedding.
    - Lengths of audio are integers of milliseconds ([Z]), as pydub has them.
    - A Python [float] holding a time in seconds is the exact rational ([Q])
      it denotes: rounding error of binary64 is not modelled, NaN and the
      infinities are not times.  Module [Binary64] runs the timestamp
      formatters on the kernel's binary64 floats as well.
    - A value that comes back from the inference service is a JSON value
      ([jval]); a Python exception is a value of [exn] in the error monad
      [exc].
    - [vertex_libs.gemini_client] is not part of the sources at hand: a call
      of [generate_content] followed by [extract_json] is an answer the
      environment gives ([response]).
    - File writes (diagnostic artefacts) are not modelled.
    - [urlparse], the file system, yt-dlp and moviepy are what the host
      provides ([Host]); the caption file that [process_input] writes is the
      pair of its path and its text. *)

From Stdlib Require Import ZArith QArith Qround Qminmax List Bool Lia Lqa.
From Stdlib Require Import String Ascii DecimalString.
From Stdlib Require Import Floats Uint63.
From Stdlib Require Import Sorting.Sorted Sorting.Permutation.
Import ListNotations.

Local Open Scope Z_scope.

(** ** Exceptions *)

Inductive exn : Type :=
| ValueError
| TypeError
| AttributeError
| ServiceError.

Inductive exc (A : Type) : Type :=
| Ok (a : A)
| Raise (e : exn).

Arguments Ok {A} a.
Arguments Raise {A} e.

Definition bind {A B : Type} (m : exc A) (k : A -> exc B) : exc B :=
  match m with
  | Ok a => k a
  | Raise e => Raise e
  end.

Declare Scope exc_scope.
Delimit Scope exc_scope with exc.
Notation "x <- m ;; k" := (bind m (fun x => k))
  (at level 100, m at next level, right associativity) : exc_scope.

(** ** Chunker: the loop head of [_process_audio_chunks] *)

(** [len(range(start, stop, step))], as CPython computes it. *)
Definition range_len (start stop step : Z) : Z :=
  let '(lo, hi, st) :=
    if 0 <? step then (start, stop, step) else (stop, start, - step) in
  if hi <=? lo then 0 else (hi - lo - 1) / st + 1.

(** [range(start, stop, step)]; a zero step raises [ValueError]. *)
Definition py_range (start stop step : Z) : exc (list Z) :=
  if step =? 0 then Raise ValueError
  else Ok (map (fun i => start + Z.of_nat i * step)
               (seq 0 (Z.to_nat (range_len start stop step)))).

Record Window : Type := mkWindow { start_ms : Z; end_ms : Z }.

(** The windows visited by
    [for start_ms in range(0, duration_ms, chunk_size_ms):
         end_ms = min(start_ms + chunk_size_ms, duration_ms)]
    with [chunk_size_ms = self.chunk_size_seconds * 1000]. *)
Definition chunk_windows (duration_ms chunk_size_seconds : Z) : exc (list Window) :=
  let chunk_size_ms := chunk_size_seconds * 1000 in
  (starts <- py_range 0 duration_ms chunk_size_ms ;;
   Ok (map (fun s => mkWindow s (Z.min (s + chunk_size_ms) duration_ms)) starts))%exc.

(** [start_sec = start_ms / 1000.0] *)
Definition ms_to_sec (ms : Z) : Q := inject_Z ms / 1000.

Definition start_sec (w : Window) : Q := ms_to_sec (start_ms w).
Definition end_sec (w : Window) : Q := ms_to_sec (end_ms w).

(** ** Python numbers and strings *)

(** [x < y] on floats. *)
Definition Qltb (x y : Q) : bool := negb (Qle_bool y x).

(** [int(x)] of a float: truncation toward zero. *)
Definition py_int (x : Q) : Z := Z.quot (Qnum x) (Z.pos (Qden x)).

(** [divmod(x, y)] and [x % y] for a positive divisor (the source divides by
    the constants 3600, 60 and 1 only): floor division and its remainder. *)
Definition py_divmod (x y : Q) : Q * Q :=
  let d := inject_Z (Qfloor (x / y)) in (d, (x - d * y)%Q).

Definition py_mod (x y : Q) : Q := snd (py_divmod x y).

(** Rounding to the nearest integer, ties to even, as the [.2f] conversion
    rounds. *)
Definition round_half_even (x : Q) : Z :=
  let f := Qfloor x in
  let r := (x - inject_Z f)%Q in
  if Qltb r (1 # 2) then f
  else if Qltb (1 # 2) r then f + 1
  else if Z.even f then f else f + 1.

Local Open Scope string_scope.

Definition nl : string := String (ascii_of_nat 10) "".

(** [str(n)] of an integer. *)
Definition dec (n : Z) : string := NilZero.string_of_int (Z.to_int n).

Fixpoint zeros (n : nat) : string :=
  match n with
  | O => ""
  | S n' => "0" ++ zeros n'
  end.

(** [f"{n:0<width>d}"]: sign-aware zero padding to a minimum width. *)
Definition fmt_d (width : nat) (n : Z) : string :=
  let digits := dec (Z.abs n) in
  let sign := if (n <? 0)%Z then "-" else "" in
  sign ++ zeros (width - String.length sign - String.length digits) ++ digits.

(** [f"{x:.2f}"] *)
Definition fmt_2f (x : Q) : string :=
  let n := Z.abs (round_half_even (x * 100)) in
  (if Qltb x 0 then "-" else "") ++ dec (n / 100)%Z ++ "." ++ fmt_d 2 (n mod 100)%Z.

(** [sep.join(parts)] *)
Fixpoint join (sep : string) (parts : list string) : string :=
  match parts with
  | [] => ""
  | [p] => p
  | p :: rest => p ++ sep ++ join sep rest
  end.

(** [k in s] for two strings: [k] occurs in [s]. *)
Fixpoint contains (s k : string) : bool :=
  String.prefix k s ||
  match s with
  | "" => false
  | String _ s' => contains s' k
  end.

(** The ASCII characters that [str.isspace] accepts; whitespace outside ASCII
    is not modelled. *)
Definition is_space (c : ascii) : bool :=
  let n := nat_of_ascii c in
  ((9 <=? n) && (n <=? 13) || (28 <=? n) && (n <=? 32))%nat.

Fixpoint lstrip (s : string) : string :=
  match s with
  | "" => ""
  | String c s' => if is_space c then lstrip s' else s
  end.

Fixpoint rstrip (s : string) : string :=
  match s with
  | "" => ""
  | String c s' =>
      let t := rstrip s' in
      if is_space c && (t =? "") then "" else String c t
  end.

(** [s.strip()] *)
Definition py_strip (s : string) : string := rstrip (lstrip s).

(** ** Values returned by the inference service *)

#[local] Set Warnings "-register-all".

Inductive jval : Type :=
| JNull
| JBool (b : bool)
| JNum (x : Q)
| JStr (s : string)
| JArr (items : list jval)
| JObj (fields : list (string * jval)).

(** Truth value of a Python object. *)
Definition truthy (v : jval) : bool :=
  match v with
  | JNull => false
  | JBool b => b
  | JNum x => negb (Qeq_bool x 0)
  | JStr s => negb (s =? "")
  | JArr items => match items with [] => false | _ => true end
  | JObj fields => match fields with [] => false | _ => true end
  end.

Definition is_list (v : jval) : bool :=
  match v with JArr _ => true | _ => false end.

Fixpoint lookup (k : string) (fields : list (string * jval)) : option jval :=
  match fields with
  | [] => None
  | (k', v) :: rest => if k' =? k then Some v else lookup k rest
  end.

Definition has_key (k : string) (fields : list (string * jval)) : bool :=
  match lookup k fields with Some _ => true | None => false end.

(** [segment.get(k, default)]; only a dict has [get]. *)
Definition py_get (segment : jval) (k : string) (default : jval) : exc jval :=
  match segment with
  | JObj fields =>
      Ok (match lookup k fields with Some v => v | None => default end)
  | _ => Raise AttributeError
  end.

Definition is_str (k : string) (v : jval) : bool :=
  match v with JStr s => s =? k | _ => false end.

(** [k in container] for a string [k]: key of a dict, substring of a string,
    element of a list; the other values are not containers. *)
Definition py_in (k : string) (container : jval) : exc bool :=
  match container with
  | JObj fields => Ok (has_key k fields)
  | JStr s => Ok (contains s k)
  | JArr items => Ok (existsb (is_str k) items)
  | _ => Raise TypeError
  end.

(** The builtins whose full behaviour lies outside this development:
    [float] applied to a string ([None] for [ValueError]) and [str] applied to
    a value that is not a string.  [float_of_str] gives a finite number: the
    strings that [float] reads as an infinity or as nan have no image here,
    and the statements that depend on it leave them out ([plain_times]). *)
Class PyBuiltins : Type := {
  float_of_str : string -> option Q;
  py_repr : jval -> string
}.

Section Conversions.
Context `{PyBuiltins}.

(** [float(v)] *)
Definition py_float (v : jval) : exc Q :=
  match v with
  | JNum x => Ok x
  | JBool b => Ok (if b then 1%Q else 0%Q)
  | JStr s =>
      match float_of_str s with Some x => Ok x | None => Raise ValueError end
  | _ => Raise TypeError
  end.

(** [f"{v}"] *)
Definition py_str (v : jval) : string :=
  match v with
  | JStr s => s
  | _ => py_repr v
  end.
End Conversions.

(** [text.startswith(prefix)]; only a string has [startswith]. *)
Definition starts_with (text : jval) (prefix : string) : exc bool :=
  match text with
  | JStr s => Ok (String.prefix prefix s)
  | _ => Raise AttributeError
  end.

(** [a and not b], where [b] is evaluated only when [a] holds. *)
Definition and_not (a : bool) (b : exc bool) : exc bool :=
  if a then (x <- b ;; Ok (negb x))%exc else Ok false.

(** ** Audio (pydub) *)

(** Loudness in dBFS; digital silence is minus infinity. *)
Inductive dB : Type :=
| NegInf
| Finite (x : Q).

Definition dB_ltb (d : dB) (threshold : Q) : bool :=
  match d with
  | NegInf => true
  | Finite x => Qltb x threshold
  end.

(** pydub's [AudioSegment], seen through what the pipeline uses of it:
    [len(a)] in milliseconds, the slice [a[i:j]] and [a.dBFS]. *)
Class Pydub : Type := {
  AudioSegment : Type;
  len : AudioSegment -> Z;
  slice : AudioSegment -> Z -> Z -> AudioSegment;
  dBFS : AudioSegment -> dB
}.

(** ** Segments *)

(** A caption segment: the dict with keys ["text"], ["start"], ["end"] and,
    in [VideoProcessor], ["type"] ([None] when the key is absent), as
    [_transcribe_audio_chunk] and gap filling build it, with finite numbers
    for times.  A list that the service gave for the timing and that
    [_finalize_timing] returns in place of the segments is a raw value
    ([Optimized]), not a list of segments: what the formatters do with it is
    outside this development. *)
Record Segment : Type := mkSegment {
  text : jval;
  start : Q;
  end_ : Q;
  type : option jval
}.

(** [sorted(l, key=key)]: a stable sort that compares keys with [<]. *)
Fixpoint insert_by {A : Type} (key : A -> Q) (x : A) (l : list A) : list A :=
  match l with
  | [] => [x]
  | y :: rest =>
      if Qltb (key y) (key x) then y :: insert_by key x rest else x :: l
  end.

Fixpoint py_sorted {A : Type} (key : A -> Q) (l : list A) : list A :=
  match l with
  | [] => []
  | x :: rest => insert_by key x (py_sorted key rest)
  end.

(** ** The inference service *)

(** What one call of [self.client.generate_content] followed by
    [self.client.extract_json] amounts to: an exception, or the response text
    with the value extracted from it ([JNull] when nothing is found). *)
Inductive response : Type :=
| Raised (e : exn)
| Returned (response_text : string) (json_data : jval).

(** Computations that call the service: the state is the number of calls made
    so far, and the [n]-th call is answered by [client n]. *)
Definition M (A : Type) : Type := nat -> A * nat.

Definition ret {A : Type} (a : A) : M A := fun n => (a, n).

Definition bindM {A B : Type} (m : M A) (k : A -> M B) : M B :=
  fun n => let '(a, n') := m n in k a n'.

Definition generate_content (client : nat -> response) : M response :=
  fun n => (client n, S n).

Declare Scope svc_scope.
Delimit Scope svc_scope with svc.
Notation "x <- m ;; k" := (bindM m (fun x => k))
  (at level 100, m at next level, right associativity) : svc_scope.

(** ** Timestamps

    [_format_srt_timestamp] and [_format_vtt_timestamp] have the same text in
    both classes.  They are embedded twice: here on exact numbers, for a
    finite time read as the rational it denotes, and in [Binary64] below on
    binary64 floats, bit for bit.  The milliseconds of the two differ where
    the rounding of the product [(seconds % 1) * 1000] reaches the next
    whole number ([timestamp_rounding]). *)

(** The body the two formatters share up to the separator [sep]:
    [hours, remainder = divmod(seconds, 3600)]
    [minutes, seconds = divmod(remainder, 60)]
    [f"{int(hours):02d}:{int(minutes):02d}:{int(seconds):02d}<sep>{int((seconds % 1) * 1000):03d}"] *)
Definition format_timestamp (sep : string) (seconds : Q) : string :=
  let '(hours, remainder) := py_divmod seconds 3600 in
  let '(minutes, seconds) := py_divmod remainder 60 in
  fmt_d 2 (py_int hours) ++ ":" ++ fmt_d 2 (py_int minutes) ++ ":" ++
  fmt_d 2 (py_int seconds) ++ sep ++ fmt_d 3 (py_int (py_mod seconds 1 * 1000)).

Definition _format_srt_timestamp (seconds : Q) : string :=
  format_timestamp "," seconds.

Definition _format_vtt_timestamp (seconds : Q) : string :=
  format_timestamp "." seconds.

(** ** Timestamps on binary64

    The same two formatters run on the kernel's binary64 floats, with
    [divmod] and [%] as CPython computes them on floats.  The structural
    model above reads a float as the rational it denotes; this module is what
    the digits of a timestamp are checked against. *)

Module Binary64.

Local Open Scope Z_scope.

(** Sign, magnitude and binary exponent of a finite float: its value is
    [(-1)^s * m * 2^e]. *)
Definition finite (f : float) : option (bool * Z * Z) :=
  match Prim2SF f with
  | S754_zero s => Some (s, 0, 0)
  | S754_finite s m e => Some (s, Z.pos m, e)
  | _ => None
  end.

(** Halving an even magnitude of more than 53 bits leaves its value with
    one more in the exponent. *)
Fixpoint reduce (m : positive) (e : Z) : positive * Z :=
  match m with
  | xO m' => if (2 ^ 53 <=? Z.pos m) then reduce m' (e + 1) else (m, e)
  | _ => (m, e)
  end.

(** The float [(-1)^s * m * 2^e], for a value that binary64 holds. *)
Definition of_finite (s : bool) (m e : Z) : float :=
  let f :=
    match m with
    | Z.pos p => let '(p', e') := reduce p e in
                 Z.ldexp (of_uint63 (Uint63.of_Z (Z.pos p'))) e'
    | _ => 0%float
    end in
  if s then (- f)%float else f.

(** C's [fmod]: the remainder of the magnitudes, with the sign of [x]; it is
    computed exactly. *)
Definition fmod (x y : float) : option float :=
  match finite x, finite y with
  | Some (sx, mx, ex), Some (_, my, ey) =>
      if my =? 0 then None
      else
        let e0 := Z.min ex ey in
        let X := mx * 2 ^ (ex - e0) in
        let Y := my * 2 ^ (ey - e0) in
        Some (of_finite sx (X mod Y) e0)
  | _, _ => None
  end.

(** C's [floor]. *)
Definition floor (f : float) : option float :=
  match finite f with
  | Some (s, m, e) =>
      if 0 <=? e then Some f
      else
        let q := m / 2 ^ (- e) in
        let exact := m mod 2 ^ (- e) =? 0 in
        Some (of_finite s (if s && negb exact then q + 1 else q) 0)
  | None => None
  end.

(** [int(f)]: truncation toward zero. *)
Definition py_int (f : float) : option Z :=
  match finite f with
  | Some (s, m, e) =>
      let n := if 0 <=? e then m * 2 ^ e else m / 2 ^ (- e) in
      Some (if s then - n else n)
  | None => None
  end.

Definition sign_bit (f : float) : bool :=
  match Prim2SF f with
  | S754_zero s | S754_infinity s | S754_finite s _ _ => s
  | S754_nan => false
  end.

(** [copysign(0.0, w)] *)
Definition zero_like (w : float) : float :=
  if sign_bit w then (- 0)%float else 0%float.

Definition obind {A B : Type} (o : option A) (k : A -> option B) : option B :=
  match o with Some a => k a | None => None end.

Notation "x <- o ;; k" := (obind o (fun x => k))
  (at level 100, o at next level, right associativity).

(** [divmod(vx, wx)] on floats, as CPython's [float_divmod] computes it;
    [None] stands for [ZeroDivisionError] and for operands that are not
    finite. *)
Definition py_divmod (vx wx : float) : option (float * float) :=
  if (wx =? 0)%float then None
  else
    m <- fmod vx wx ;;
    let div := ((vx - m) / wx)%float in
    let '(m, div) :=
      if negb (m =? 0)%float then
        if xorb (wx <? 0)%float (m <? 0)%float
        then ((m + wx)%float, (div - 1)%float) else (m, div)
      else (zero_like wx, div) in
    floordiv <-
      (if negb (div =? 0)%float then
         f <- floor div ;;
         Some (if (0.5 <? div - f)%float then (f + 1)%float else f)
       else Some (zero_like (vx / wx)%float)) ;;
    Some (floordiv, m).

(** [vx % wx] on floats, as CPython's [float_rem] computes it. *)
Definition py_mod (vx wx : float) : option float :=
  if (wx =? 0)%float then None
  else
    m <- fmod vx wx ;;
    Some (if negb (m =? 0)%float then
            if xorb (wx <? 0)%float (m <? 0)%float then (m + wx)%float else m
          else zero_like wx).

Definition format_timestamp (sep : string) (seconds : float) : option string :=
  hr <- py_divmod seconds 3600 ;;
  let '(hours, remainder) := hr in
  ms <- py_divmod remainder 60 ;;
  let '(minutes, seconds) := ms in
  h <- py_int hours ;;
  m <- py_int minutes ;;
  s <- py_int seconds ;;
  frac <- py_mod seconds 1 ;;
  millis <- py_int (frac * 1000)%float ;;
  Some (fmt_d 2 h ++ ":" ++ fmt_d 2 m ++ ":" ++ fmt_d 2 s ++ sep
        ++ fmt_d 3 millis)%string.

Definition _format_srt_timestamp (seconds : float) : option string :=
  format_timestamp "," seconds.

Definition _format_vtt_timestamp (seconds : float) : option string :=
  format_timestamp "." seconds.

End Binary64.

(** ** The transcription fallbacks shared by the two classes *)

(** [segment_duration = 5.0] *)
Definition segment_duration : Q := 5.

(** [num_segments = max(1, int(duration_sec / segment_duration))] *)
Definition num_segments (duration_sec : Q) : Z :=
  Z.max 1 (py_int (duration_sec / segment_duration)).

(** [range(n)] *)
Definition range_upto (n : Z) : list Z :=
  map Z.of_nat (seq 0 (Z.to_nat n)).

(** One turn of the loop of the [except] branch; [ty] is the ["type"] entry
    the class adds, if any. *)
Definition placeholder (ty : option jval) (start_time duration_sec : Q) (i : Z)
  : Segment :=
  let seg_start := (start_time + inject_Z i * segment_duration)%Q in
  let seg_end :=
    (start_time + Qmin (inject_Z (i + 1) * segment_duration) duration_sec)%Q in
  {| text := JStr ("[Transcription unavailable " ++ fmt_2f seg_start ++ "s - "
                   ++ fmt_2f seg_end ++ "s]");
     start := seg_start;
     end_ := seg_end;
     type := ty |}.

(** The [except] branch of [_transcribe_audio_chunk]: fallback segments with
    even timing. *)
Definition fallback_segments (ty : option jval) (start_time duration_sec : Q)
  : list Segment :=
  map (placeholder ty start_time duration_sec)
      (range_upto (num_segments duration_sec)).

(** The branch taken when no JSON list is extracted: the full response text
    as a single segment. *)
Definition whole_response (ty : option jval) (response_text : string)
  (start_time duration_sec : Q) : Segment :=
  {| text := JStr (py_strip response_text);
     start := start_time;
     end_ := (start_time + duration_sec)%Q;
     type := ty |}.

(** [for x in xs: ys.append(f(x))], where [f] may raise. *)
Fixpoint for_each {A B : Type} (f : A -> exc B) (xs : list A) : exc (list B) :=
  match xs with
  | [] => Ok []
  | x :: rest =>
      (y <- f x ;; ys <- for_each f rest ;; Ok (y :: ys))%exc
  end.

Definition opt_list {A : Type} (o : option A) : list A :=
  match o with Some a => [a] | None => [] end.

(** The outcome of [_finalize_timing]: the segments it was given, sorted, or
    the list the service returned in their place. *)
Inductive timing : Type :=
| Original (sorted_segments : list Segment)
| Optimized (json_data : jval).

(** ** The input source

    [_extract_youtube_id] and [_is_youtube_url] have the same text in the two
    classes, and [save_video_with_captions.py] has it a third time as
    [extract_youtube_id] and [is_youtube_url]. *)

(** [c in s] for a character. *)
Fixpoint has_char (c : ascii) (s : string) : bool :=
  match s with
  | "" => false
  | String c' s' => Ascii.eqb c' c || has_char c s'
  end.

(** [s.lstrip(c)] for a single character [c]. *)
Fixpoint lstrip_char (c : ascii) (s : string) : string :=
  match s with
  | "" => ""
  | String c' s' => if Ascii.eqb c' c then lstrip_char c s' else s
  end.

(** [s.split(sep)] for a separator that is not empty, read from left to
    right: [cur] is the piece being read, [skip] counts the characters of a
    separator just found that are still to be passed over. *)
Fixpoint split_aux (sep s : string) (skip : nat) (cur : string) : list string :=
  match s with
  | "" => [cur]
  | String c s' =>
      match skip with
      | S k => split_aux sep s' k cur
      | O =>
          if String.prefix sep s
          then cur :: split_aux sep s' (String.length sep - 1) ""
          else split_aux sep s' 0 (cur ++ String c "")
      end
  end.

Definition split_on (sep s : string) : list string := split_aux sep s 0 "".

(** [s in (a, b, ...)] for strings. *)
Definition in_tuple (s : string) (choices : list string) : bool :=
  existsb (String.eqb s) choices.

(** [s.lower()], on the letters of ASCII; a character outside ASCII is left
    as it is, and none of them lowers to a letter of ["srt"] or ["vtt"]. *)
Definition lower_char (c : ascii) : ascii :=
  let n := nat_of_ascii c in
  if ((65 <=? n) && (n <=? 90))%nat then ascii_of_nat (n + 32) else c.

Fixpoint py_lower (s : string) : string :=
  match s with
  | "" => ""
  | String c s' => String (lower_char c) (py_lower s')
  end.

(** [s.endswith(suffix)] *)
Fixpoint ends_with (s suffix : string) : bool :=
  (s =? suffix) ||
  match s with
  | "" => false
  | String _ s' => ends_with s' suffix
  end.

(** [os.path.basename(p)]: what follows the last slash. *)
Fixpoint basename (p : string) : string :=
  match p with
  | "" => ""
  | String c p' =>
      if has_char "/" p' then basename p'
      else if Ascii.eqb c "/" then p' else p
  end.

(** [s.rsplit(".", 1)[0]]: what precedes the last period, or all of [s]. *)
Fixpoint before_last_dot (s : string) : string :=
  match s with
  | "" => ""
  | String c s' =>
      if has_char "." s' then String c (before_last_dot s')
      else if Ascii.eqb c "." then "" else s
  end.

(** [os.path.join(a, b)] of [posixpath]. *)
Definition os_path_join (a b : string) : string :=
  if String.prefix "/" b then b
  else if (a =? "") || ends_with a "/" then a ++ b
  else a ++ "/" ++ b.

(** The exceptions of the input stage, next to those of [exn]. *)
Inductive py_exn : Type :=
| Builtin (e : exn)
| IndexError
| FileNotFoundError
| RuntimeError.

Inductive res (A : Type) : Type :=
| Done (a : A)
| Thrown (e : py_exn).

Arguments Done {A} a.
Arguments Thrown {A} e.

Definition bind_res {A B : Type} (m : res A) (k : A -> res B) : res B :=
  match m with
  | Done a => k a
  | Thrown e => Thrown e
  end.

Definition lift {A : Type} (m : exc A) : res A :=
  match m with
  | Ok a => Done a
  | Raise e => Thrown (Builtin e)
  end.

Declare Scope res_scope.
Delimit Scope res_scope with res.
Notation "x <- m ;; k" := (bind_res m (fun x => k))
  (at level 100, m at next level, right associativity) : res_scope.

(** [l[i]] *)
Definition py_item {A : Type} (l : list A) (i : nat) : res A :=
  match nth_error l i with
  | Some a => Done a
  | None => Thrown IndexError
  end.

(** The four fields of the result of [urlparse] that are read. *)
Record ParseResult : Type := {
  scheme : string;
  netloc : string;
  path : string;
  query : string
}.

(** What the input stage takes from outside: [urlparse], [os.path.exists],
    the download by yt-dlp ([_download_youtube_video] of [CaptionGenerator],
    which returns the path of the video) and the extraction of the audio
    track by moviepy followed by its loading ([_extract_audio], then
    [AudioSegment.from_file] at the head of [_process_audio_chunks]). *)
Class Host `{Pydub} : Type := {
  urlparse : string -> ParseResult;
  path_exists : string -> bool;
  _download_youtube_video : string -> res string;
  _extract_audio : string -> res AudioSegment
}.

Section InputSource.
Context `{Host}.

Definition _extract_youtube_id (url : string) : res string :=
  let parsed := urlparse url in
  if netloc parsed =? "youtu.be" then Done (lstrip_char "/" (path parsed))
  else if in_tuple (netloc parsed) ["youtube.com"; "www.youtube.com"] then
    if contains (query parsed) "v=" then
      (rest <- py_item (split_on "v=" (query parsed)) 1 ;;
       py_item (split_on "&" rest) 0)%res
    else Done "video"
  else Done "video".

Definition _is_youtube_url (url : string) : bool :=
  let parsed := urlparse url in
  in_tuple (netloc parsed) ["youtube.com"; "www.youtube.com"; "youtu.be"]
  && in_tuple (scheme parsed) ["http"; "https"].

End InputSource.

(** [self.output_formats], set by [__init__] in both classes. *)
Definition output_formats : list string := ["srt"; "vtt"].

(** ** [VideoProcessor] (process_video_with_captions.py) *)

Module VideoProcessor.

Record t : Type := {
  chunk_size_seconds : Z;
  client : nat -> response
}.

Section Methods.
Context `{PyBuiltins} `{Pydub}.
Variable self : t.

(** The [try] block of [_analyze_audio_gap] once the service has
    answered: [Some] when it returns a segment, [None] when control
    leaves it for the default fallback.  The match on [JObj] is
    [isinstance(json_data, dict)]. *)
Definition classify_gap (start_time end_time : Q) (r : response)
  : option Segment :=
  match r with
  | Raised _ => None
  | Returned _ json_data =>
      match json_data with
      | JObj fields =>
          if truthy json_data && has_key "type" fields
             && has_key "text" fields then
            match lookup "text" fields, lookup "type" fields with
            | Some tx, Some ty =>
                Some {| text := tx; start := start_time;
                        end_ := end_time; type := Some ty |}
            | _, _ => None
            end
          else None
      | _ => None
      end
  end.

Definition _analyze_audio_gap (gap_audio : AudioSegment)
  (start_time end_time : Q) : M (option Segment) :=
  let silence_threshold := (-50)%Q in
  let is_silence := dB_ltb (dBFS gap_audio) silence_threshold in
  if negb is_silence || Qltb 3 (end_time - start_time) then
    (r <- generate_content (client self) ;;
     match classify_gap start_time end_time r with
     | Some segment => ret (Some segment)
     | None =>
         let gap_type := if is_silence then "silence" else "sound" in
         let gap_text :=
           if is_silence then "[Silence]" else "[Background sounds]" in
         ret (Some {| text := JStr gap_text; start := start_time;
                      end_ := end_time; type := Some (JStr gap_type) |})
     end)%svc
  else ret None.

(** The block that [_detect_and_fill_gaps] repeats at the beginning of
    the chunk, between segments and at the end of the chunk: when the
    gap from [gap_from] to [gap_to] exceeds one second, analyze its audio
    and append the segment that comes back, if any. *)
Definition check_gap (audio : AudioSegment) (start_time gap_from gap_to : Q)
  (filled_segments : list Segment) : M (list Segment) :=
  if Qltb 1 (gap_to - gap_from) then
    let gap_start_ms := py_int (gap_from * 1000) in
    let gap_end_ms := py_int (gap_to * 1000) in
    let gap_audio :=
      slice audio (gap_start_ms - py_int (start_time * 1000))
                  (gap_end_ms - py_int (start_time * 1000)) in
    (gap_segment <- _analyze_audio_gap gap_audio gap_from gap_to ;;
     ret (filled_segments ++ opt_list gap_segment)%list)%svc
  else ret filled_segments.

(** [for i in range(1, len(sorted_segments))] *)
Fixpoint fill_loop (audio : AudioSegment) (start_time : Q)
  (remaining filled_segments : list Segment) (current_time : Q)
  : M (list Segment * Q) :=
  match remaining with
  | [] => ret (filled_segments, current_time)
  | current_segment :: rest =>
      (filled <- check_gap audio start_time current_time
                   (start current_segment) filled_segments ;;
       fill_loop audio start_time rest (filled ++ [current_segment])%list
                 (end_ current_segment))%svc
  end.

Definition _detect_and_fill_gaps (audio : AudioSegment)
  (segments : list Segment) (start_time end_time : Q) : M (list Segment) :=
  let sorted_segments := py_sorted start segments in
  match sorted_segments with
  | [] => ret []
  | first :: rest =>
      (filled <- check_gap audio start_time start_time (start first) [] ;;
       r <- fill_loop audio start_time rest (filled ++ [first])%list (end_ first) ;;
       let '(filled_segments, current_time) := r in
       check_gap audio start_time current_time end_time filled_segments)%svc
  end.

(** [all(k in segment for k in keys)] *)
Fixpoint all_in (keys : list string) (segment : jval) : exc bool :=
  match keys with
  | [] => Ok true
  | k :: rest =>
      (b <- py_in k segment ;;
       if b then all_in rest segment else Ok false)%exc
  end.

Definition required_fields : list string := ["text"; "start"; "end"; "type"].

(** The validating loop of [_finalize_timing]: [Ok false] when it returns
    the original segments, [Ok true] when it runs to its end. *)
Fixpoint all_valid (items : list jval) : exc bool :=
  match items with
  | [] => Ok true
  | segment :: rest =>
      (b <- all_in required_fields segment ;;
       if b then all_valid rest else Ok false)%exc
  end.

(** The match on [JArr] is [isinstance(json_data, list)]; an exception in
    the [try] block, from the call or from the validating loop, ends in the
    [except] branch. *)
Definition _finalize_timing (transcript_segments : list Segment) : M timing :=
  match transcript_segments with
  | [] => ret (Original [])
  | _ =>
      let sorted_segments := py_sorted start transcript_segments in
      (r <- generate_content (client self) ;;
       ret match r with
           | Raised _ => Original sorted_segments
           | Returned _ json_data =>
               match json_data with
               | JArr items =>
                   if truthy json_data && (0 <? Z.of_nat (List.length items))%Z
                   then
                     match all_valid items with
                     | Ok true => Optimized json_data
                     | Ok false => Original sorted_segments
                     | Raise _ => Original sorted_segments
                     end
                   else Original sorted_segments
               | _ => Original sorted_segments
               end
           end)%svc
  end.

(** One turn of [for segment in json_data] in [_transcribe_audio_chunk]. *)
Definition parse_entry (start_time : Q) (segment : jval) : exc Segment :=
  (s <- py_get segment "start" (JNum 0) ;;
   s <- py_float s ;;
   let segment_start := (start_time + s)%Q in
   e <- py_get segment "end" (JNum (segment_start + 5)) ;;
   e <- py_float e ;;
   let segment_end := (start_time + e)%Q in
   segment_type <- py_get segment "type" (JStr "speech") ;;
   tx <- py_get segment "text" (JStr "[Transcription error]") ;;
   Ok {| text := tx; start := segment_start; end_ := segment_end;
         type := Some segment_type |})%exc.

(** The [try] block of [_transcribe_audio_chunk] once the service has
    answered. *)
Definition parse_response (start_time duration_sec : Q) (r : response)
  : exc (list Segment) :=
  match r with
  | Raised e => Raise e
  | Returned response_text json_data =>
      match json_data with
      | JArr items =>
          if negb (truthy json_data) then
            Ok [whole_response (Some (JStr "speech")) response_text
                               start_time duration_sec]
          else for_each (parse_entry start_time) items
      | _ =>
          Ok [whole_response (Some (JStr "speech")) response_text
                             start_time duration_sec]
      end
  end.

Definition _transcribe_audio_chunk (audio_chunk : AudioSegment)
  (start_time : Q) : M (list Segment) :=
  let duration_sec := ms_to_sec (len audio_chunk) in
  (r <- generate_content (client self) ;;
   ret match parse_response start_time duration_sec r with
       | Ok segments => segments
       | Raise _ =>
           fallback_segments (Some (JStr "speech")) start_time duration_sec
       end)%svc.

(** The body of the chunking loop, over the windows yet to visit. *)
Fixpoint process_windows (audio : AudioSegment) (windows : list Window)
  (transcript_segments : list Segment) : M (list Segment) :=
  match windows with
  | [] => ret transcript_segments
  | w :: rest =>
      let chunk := slice audio (start_ms w) (end_ms w) in
      (segment_transcript <- _transcribe_audio_chunk chunk (start_sec w) ;;
       filled_transcript <-
         _detect_and_fill_gaps chunk segment_transcript
                               (start_sec w) (end_sec w) ;;
       process_windows audio rest
                       (transcript_segments ++ filled_transcript)%list)%svc
  end.

Definition _process_audio_chunks (audio : AudioSegment) : exc (M timing) :=
  (windows <- chunk_windows (len audio) (chunk_size_seconds self) ;;
   Ok (transcript_segments <- process_windows audio windows [] ;;
       _finalize_timing transcript_segments)%svc)%exc.

(** The styling of [_format_as_srt]. *)
Definition srt_text (segment_type tx : jval) : exc string :=
  (c <- and_not (is_str "music" segment_type) (starts_with tx "[♪") ;;
   if c then Ok ("[♪ " ++ py_str tx ++ " ♪]") else
   c <- and_not (is_str "sound" segment_type) (starts_with tx "[Sound:") ;;
   if c then Ok ("[Sound: " ++ py_str tx ++ "]") else
   c <- and_not (is_str "silence" segment_type) (starts_with tx "[") ;;
   if c then Ok ("[" ++ py_str tx ++ "]") else Ok (py_str tx))%exc.

(** The styling of [_format_as_vtt]. *)
Definition vtt_text (segment_type tx : jval) : exc string :=
  (c <- and_not (is_str "music" segment_type) (starts_with tx "[♪") ;;
   if c then Ok ("<i>[♪ " ++ py_str tx ++ " ♪]</i>") else
   c <- and_not (is_str "sound" segment_type) (starts_with tx "[Sound:") ;;
   if c then Ok ("<b>[Sound: " ++ py_str tx ++ "]</b>") else
   c <- and_not (is_str "silence" segment_type) (starts_with tx "[") ;;
   if c then Ok ("[" ++ py_str tx ++ "]") else Ok (py_str tx))%exc.

(** [segment.get('type', 'speech')] *)
Definition type_or_speech (segment : Segment) : jval :=
  match type segment with Some ty => ty | None => JStr "speech" end.

(** [for i, segment in enumerate(sorted_segments, 1)] of [_format_as_srt],
    from index [i] on. *)
Fixpoint srt_loop (i : Z) (segments : list Segment)
  (srt_content : list string) : exc (list string) :=
  match segments with
  | [] => Ok srt_content
  | segment :: rest =>
      let start_time := _format_srt_timestamp (start segment) in
      let end_time := _format_srt_timestamp (end_ segment) in
      (tx <- srt_text (type_or_speech segment) (text segment) ;;
       srt_loop (i + 1) rest
         (srt_content ++
            [dec i; (start_time ++ " --> " ++ end_time)%string; tx; ""])%list)%exc
  end.

(** What [_format_as_srt] emits for segments taken in the given order. *)
Definition emit_srt (sorted_segments : list Segment) : exc string :=
  (srt_content <- srt_loop 1 sorted_segments [] ;;
   Ok (join nl srt_content))%exc.

Definition _format_as_srt (segments : list Segment) : exc string :=
  let sorted_segments := py_sorted start segments in
  emit_srt sorted_segments.

Fixpoint vtt_loop (i : Z) (segments : list Segment)
  (vtt_content : list string) : exc (list string) :=
  match segments with
  | [] => Ok vtt_content
  | segment :: rest =>
      let start_time := _format_vtt_timestamp (start segment) in
      let end_time := _format_vtt_timestamp (end_ segment) in
      (tx <- vtt_text (type_or_speech segment) (text segment) ;;
       vtt_loop (i + 1) rest
         (vtt_content ++
            [("cue-" ++ dec i)%string;
             (start_time ++ " --> " ++ end_time)%string; tx; ""])%list)%exc
  end.

(** What [_format_as_vtt] emits for segments taken in the given order. *)
Definition emit_vtt (sorted_segments : list Segment) : exc string :=
  (vtt_content <- vtt_loop 1 sorted_segments ["WEBVTT"; ""] ;;
   Ok (join nl vtt_content))%exc.

Definition _format_as_vtt (segments : list Segment) : exc string :=
  let sorted_segments := py_sorted start segments in
  emit_vtt sorted_segments.

Definition _format_captions (transcript_segments : list Segment)
  (format_type : string) : exc string :=
  if py_lower format_type =? "srt" then _format_as_srt transcript_segments
  else if py_lower format_type =? "vtt" then _format_as_vtt transcript_segments
  else Raise ValueError.

End Methods.
End VideoProcessor.

(** ** [CaptionGenerator] (caption_generator.py) *)

Module CaptionGenerator.

Record t : Type := {
  chunk_size_seconds : Z;
  client : nat -> response
}.

Section Methods.
Context `{PyBuiltins} `{Pydub}.
Variable self : t.

(** One turn of [for segment in json_data] in [_transcribe_audio_chunk]. *)
Definition parse_entry (start_time : Q) (segment : jval) : exc Segment :=
  (s <- py_get segment "start" (JNum 0) ;;
   s <- py_float s ;;
   let segment_start := (start_time + s)%Q in
   e <- py_get segment "end" (JNum (segment_start + 5)) ;;
   e <- py_float e ;;
   let segment_end := (start_time + e)%Q in
   tx <- py_get segment "text" (JStr "[Transcription error]") ;;
   Ok {| text := tx; start := segment_start; end_ := segment_end;
         type := None |})%exc.

(** The [try] block of [_transcribe_audio_chunk] once the service has
    answered. *)
Definition parse_response (start_time duration_sec : Q) (r : response)
  : exc (list Segment) :=
  match r with
  | Raised e => Raise e
  | Returned response_text json_data =>
      match json_data with
      | JArr items =>
          if negb (truthy json_data) then
            Ok [whole_response None response_text start_time duration_sec]
          else for_each (parse_entry start_time) items
      | _ =>
          Ok [whole_response None response_text start_time duration_sec]
      end
  end.

Definition _transcribe_audio_chunk (audio_chunk : AudioSegment)
  (start_time : Q) : M (list Segment) :=
  let duration_sec := ms_to_sec (len audio_chunk) in
  (r <- generate_content (client self) ;;
   ret match parse_response start_time duration_sec r with
       | Ok segments => segments
       | Raise _ => fallback_segments None start_time duration_sec
       end)%svc.

(** The body of the chunking loop, over the windows yet to visit. *)
Fixpoint process_windows (audio : AudioSegment) (windows : list Window)
  (transcript_segments : list Segment) : M (list Segment) :=
  match windows with
  | [] => ret transcript_segments
  | w :: rest =>
      let chunk := slice audio (start_ms w) (end_ms w) in
      (segment_transcript <- _transcribe_audio_chunk chunk (start_sec w) ;;
       process_windows audio rest
                       (transcript_segments ++ segment_transcript)%list)%svc
  end.

Definition _process_audio_chunks (audio : AudioSegment)
  : exc (M (list Segment)) :=
  (windows <- chunk_windows (len audio) (chunk_size_seconds self) ;;
   Ok (process_windows audio windows []))%exc.

(** [for i, segment in enumerate(segments, 1)] of [_format_as_srt], from
    index [i] on. *)
Fixpoint srt_loop (i : Z) (segments : list Segment)
  (srt_content : list string) : list string :=
  match segments with
  | [] => srt_content
  | segment :: rest =>
      let start_time := _format_srt_timestamp (start segment) in
      let end_time := _format_srt_timestamp (end_ segment) in
      srt_loop (i + 1) rest
        (srt_content ++
           [dec i; (start_time ++ " --> " ++ end_time)%string;
            py_str (text segment); ""])%list
  end.

Definition _format_as_srt (segments : list Segment) : string :=
  join nl (srt_loop 1 segments []).

Fixpoint vtt_loop (segments : list Segment) (vtt_content : list string)
  : list string :=
  match segments with
  | [] => vtt_content
  | segment :: rest =>
      let start_time := _format_vtt_timestamp (start segment) in
      let end_time := _format_vtt_timestamp (end_ segment) in
      vtt_loop rest
        (vtt_content ++
           [(start_time ++ " --> " ++ end_time)%string;
            py_str (text segment); ""])%list
  end.

Definition _format_as_vtt (segments : list Segment) : string :=
  join nl (vtt_loop segments ["WEBVTT"; ""]).

Definition _format_captions (transcript_segments : list Segment)
  (format_type : string) : exc string :=
  if py_lower format_type =? "srt" then Ok (_format_as_srt transcript_segments)
  else if py_lower format_type =? "vtt"
       then Ok (_format_as_vtt transcript_segments)
  else Raise ValueError.

Context `{!Host}.

(** [process_input], with the path of the caption file and the text written
    to it for result.  The calls of the service come after the checks of the
    input, the download and the extraction of the audio, and before the
    formatting. *)
Definition process_input (input_source : string) (output_path : option string)
  (output_format : string) : res (M (res (string * string))) :=
  if negb (in_tuple (py_lower output_format) output_formats)
  then Thrown (Builtin ValueError)
  else
    (source <-
       (if _is_youtube_url input_source then
          (video_path <- _download_youtube_video input_source ;;
           video_id <- _extract_youtube_id input_source ;;
           Done (video_path, "youtube_" ++ video_id))
        else
          let video_path := input_source in
          if negb (path_exists video_path) then Thrown FileNotFoundError
          else Done (video_path, before_last_dot (basename video_path))) ;;
     let '(video_path, filename_base) := source in
     let output_path :=
       match output_path with
       | None =>
           os_path_join "output" (filename_base ++ "." ++ output_format)
       | Some p =>
           if negb (String.prefix "output/" p)
           then os_path_join "output" (basename p)
           else p
       end in
     audio <- _extract_audio video_path ;;
     run <- lift (_process_audio_chunks audio) ;;
     Done (transcript_segments <- run ;;
           ret (caption_text <-
                  lift (_format_captions transcript_segments output_format) ;;
                let output_file :=
                  if negb (ends_with output_path ("." ++ output_format))
                  then output_path ++ "." ++ output_format
                  else output_path in
                Done (output_file, caption_text))%res)%svc)%res.

End Methods.
End CaptionGenerator.

(** ** An environment to run the model in

    Builtins that reject every string as a number and print every value that
    is not a string as ["?"], and audio clips of uniform loudness: a clip is
    its length in milliseconds with its loudness, and a slice keeps the
    loudness. *)

#[export] Instance plain_builtins : PyBuiltins := {|
  float_of_str := fun _ => None;
  py_repr := fun _ => "?"
|}.

#[export] Instance uniform_audio : Pydub := {|
  AudioSegment := Z * dB;
  len := fst;
  slice := fun a i j => (Z.max 0 (Z.min j (fst a) - Z.max 0 i), snd a);
  dBFS := snd
|}.

(** A client whose every call raises, and one that always gives the same
    answer. *)
Definition failing_client : nat -> response := fun _ => Raised ServiceError.

Definition constant_client (r : response) : nat -> response := fun _ => r.

(** A client for a track of three windows: it answers the first two
    transcription requests with one speech segment over 30 seconds and fails
    from the third call on. *)
Definition two_then_failing : nat -> response :=
  fun n =>
    match n with
    | 0%nat | 1%nat =>
        Returned "[...]"
          (JArr [JObj [("text", JStr "hello"); ("start", JNum 0);
                       ("end", JNum 30); ("type", JStr "speech")]])
    | _ => Raised ServiceError
    end.

Definition speech (tx : string) (a b : Q) : Segment :=
  {| text := JStr tx; start := a; end_ := b; type := Some (JStr "speech") |}.

(** A host for the input stage: it knows one watch page, takes every other
    input for a plain path, finds every file, and its tools succeed, with a
    clip of 65 seconds for audio track. *)
Definition watch_url : string :=
  "https://www.youtube.com/watch?v=dQw4w9WgXcQ&t=5".

#[export] Instance plain_host : @Host uniform_audio := {|
  urlparse := fun url =>
    if url =? watch_url
    then {| scheme := "https"; netloc := "www.youtube.com";
            path := "/watch"; query := "v=dQw4w9WgXcQ&t=5" |}
    else {| scheme := ""; netloc := ""; path := url; query := "" |};
  path_exists := fun _ => true;
  _download_youtube_video := fun _ => Done "/tmp/video.mp4";
  _extract_audio := fun _ => Done (65000%Z, Finite (-20)%Q)
|}.

(** ** Vocabulary of the properties *)

Local Close Scope string_scope.
Local Open Scope Q_scope.

(** [tiles a ws b]: the windows [ws], in milliseconds, are non-empty, the
    first starts at [a], each next one starts where the one before it ends,
    and the last ends at [b]. *)
Inductive tiles : Z -> list Window -> Z -> Prop :=
| tiles_nil (a : Z) : tiles a [] a
| tiles_cons (a m b : Z) (ws : list Window) :
    (a < m)%Z -> tiles m ws b -> tiles a (mkWindow a m :: ws) b.

(** The half-open interval of seconds of a window and of a segment. *)
Definition window_span (w : Window) : Q * Q := (start_sec w, end_sec w).

Definition span (s : Segment) : Q * Q := (start s, end_ s).

Definition within (t : Q) (iv : Q * Q) : Prop := fst iv <= t /\ t < snd iv.

(** [tiling a ivs b]: the same for intervals of seconds, with equality of
    rationals at the joints. *)
Inductive tiling : Q -> list (Q * Q) -> Q -> Prop :=
| tiling_nil (a b : Q) : a == b -> tiling a [] b
| tiling_cons (a b lo hi : Q) (ivs : list (Q * Q)) :
    lo == a -> lo < hi -> tiling hi ivs b -> tiling a ((lo, hi) :: ivs) b.

(** [covers ivs a b]: every instant of [[a, b)] lies in an interval of [ivs]
    and every interval of [ivs] lies in [[a, b)]. *)
Definition covers (ivs : list (Q * Q)) (a b : Q) : Prop :=
  forall t : Q, (a <= t /\ t < b) <-> exists iv, In iv ivs /\ within t iv.

(** [disjoint ivs]: no instant lies in the intervals at two positions. *)
Definition disjoint (ivs : list (Q * Q)) : Prop :=
  forall (i j : nat) (x y : Q * Q) (t : Q),
    nth_error ivs i = Some x -> nth_error ivs j = Some y ->
    within t x -> within t y -> i = j.

(** Order by a key, and segments in non-decreasing order of ["start"]. *)
Definition key_le {A : Type} (key : A -> Q) (a b : A) : Prop := key a <= key b.

Definition by_start : Segment -> Segment -> Prop := key_le start.

(** [tx] is the text that [_format_as_srt], or [_format_as_vtt], emits for
    [segment] once styled. *)
Definition srt_styled `{PyBuiltins} (segment : Segment) (tx : string) : Prop :=
  VideoProcessor.srt_text (VideoProcessor.type_or_speech segment) (text segment)
  = Ok tx.

Definition vtt_styled `{PyBuiltins} (segment : Segment) (tx : string) : Prop :=
  VideoProcessor.vtt_text (VideoProcessor.type_or_speech segment) (text segment)
  = Ok tx.

(** The lines of the cues of [_format_as_srt] and of [_format_as_vtt] for
    segments taken in order from index [i], given the styled text of each. *)
Fixpoint srt_blocks (i : Z) (segments : list Segment) (txs : list string)
  : list string :=
  match segments, txs with
  | segment :: rest, tx :: txs' =>
      [dec i;
       (_format_srt_timestamp (start segment) ++ " --> "
        ++ _format_srt_timestamp (end_ segment))%string;
       tx; ""%string] ++ srt_blocks (i + 1) rest txs'
  | _, _ => []
  end.

Fixpoint vtt_blocks (i : Z) (segments : list Segment) (txs : list string)
  : list string :=
  match segments, txs with
  | segment :: rest, tx :: txs' =>
      [("cue-" ++ dec i)%string;
       (_format_vtt_timestamp (start segment) ++ " --> "
        ++ _format_vtt_timestamp (end_ segment))%string;
       tx; ""%string] ++ vtt_blocks (i + 1) rest txs'
  | _, _ => []
  end.

(** The answers to the timing request that [_finalize_timing] does not
    take: the call raised, or what was extracted is not a list, or is an empty
    list, or has an element for which [k in segment] is not [True] for one of
    the four required keys [k] (for a dict: the key is missing). *)
Inductive rejected : response -> Prop :=
| rejected_raised (e : exn) : rejected (Raised e)
| rejected_not_list (tx : string) (json_data : jval) :
    is_list json_data = false -> rejected (Returned tx json_data)
| rejected_empty (tx : string) : rejected (Returned tx (JArr []))
| rejected_field (tx : string) (items : list jval) (item : jval) (k : string) :
    In item items -> In k VideoProcessor.required_fields ->
    py_in k item <> Ok true ->
    rejected (Returned tx (JArr items)).

(** An entry of the service's list that is a dict whose ["start"] is the
    number [a] and whose ["end"] is the number [b]. *)
Definition timed_entry (entry : jval) (a b : Q) : Prop :=
  exists fields,
    entry = JObj fields /\
    lookup "start" fields = Some (JNum a) /\
    lookup "end" fields = Some (JNum b).

(** [segments] are the entries of [entries], one for one and in order, with
    their times moved by [start_time]. *)
Definition shifted (start_time : Q) (entries : list jval)
  (segments : list Segment) : Prop :=
  Forall2 (fun entry segment =>
             exists a b, timed_entry entry a b /\
                         start segment = start_time + a /\
                         end_ segment = start_time + b)
          entries segments.

(** The text of a segment carries the marker of a failed transcription. *)
Definition unavailable (segment : Segment) : Prop :=
  exists rest,
    text segment = JStr ("[Transcription unavailable " ++ rest)%string.

(** The intervals [ivs] are, one for one and in order, the intervals
    [expected]. *)
Definition spans_are (ivs expected : list (Q * Q)) : Prop :=
  Forall2 (fun iv ex => fst iv == fst ex /\ snd iv == snd ex) ivs expected.

(** The answer [r] of the service to a gap request classifies the gap: a
    non-empty dict is extracted from it, with [tx] under ["text"] and [ty]
    under ["type"]. *)
Definition classified (r : response) (tx ty : jval) : Prop :=
  exists response_text fields,
    r = Returned response_text (JObj fields) /\
    lookup "text" fields = Some tx /\
    lookup "type" fields = Some ty.

(** What [_detect_and_fill_gaps] may put between [gap_from] and [gap_to]:
    nothing, or, when the gap is longer than one second, one segment that
    spans it. *)
Definition gap_slot (gap_from gap_to : Q) (g : list Segment) : Prop :=
  g = [] \/
  (1 < gap_to - gap_from /\
   exists segment, g = [segment] /\ start segment = gap_from /\
                   end_ segment = gap_to).

(** [gaps_filled t segments out t']: [out] is [segments] with a slot before
    each segment, the first slot starting at [t], each next one at the end of
    the segment before it; [t'] is the end of the last segment. *)
Inductive gaps_filled : Q -> list Segment -> list Segment -> Q -> Prop :=
| gaps_filled_nil (t : Q) : gaps_filled t [] [] t
| gaps_filled_cons (t t' : Q) (segment : Segment) (rest g out : list Segment) :
    gap_slot t (start segment) g ->
    gaps_filled (end_ segment) rest out t' ->
    gaps_filled t (segment :: rest) (g ++ segment :: out) t'.

(** The same with the slot between the last segment and the end of the
    chunk; with no segment at all there is no slot. *)
Definition interleaved (start_time : Q) (sorted_segments : list Segment)
  (end_time : Q) (out : list Segment) : Prop :=
  match sorted_segments with
  | [] => out = []
  | _ =>
      exists body t g,
        gaps_filled start_time sorted_segments body t /\
        gap_slot t end_time g /\
        out = body ++ g
  end.

(** The durations of the gaps that [_detect_and_fill_gaps] looks at: from
    [t] to the first segment, from the end of each segment to the start of
    the next, from the end of the last to [end_time]. *)
Fixpoint gaps (t : Q) (sorted_segments : list Segment) (end_time : Q) : list Q :=
  match sorted_segments with
  | [] => [end_time - t]
  | segment :: rest => (start segment - t) :: gaps (end_ segment) rest end_time
  end.

(** The law of pydub that the loop relies on: inside a clip, the slice
    [a[i:j]] is [j - i] milliseconds long. *)
Definition slices_have_length `{Pydub} (audio : AudioSegment) : Prop :=
  forall i j : Z,
    (0 <= i)%Z -> (i <= j)%Z -> (j <= len audio)%Z ->
    len (slice audio i j) = (j - i)%Z.

(** A length in milliseconds that the placeholders of a failed window cover
    in full: under five seconds, or a whole number of five seconds. *)
Definition placeholder_friendly (ms : Z) : Prop :=
  (ms < 5000)%Z \/ (ms mod 5000 = 0)%Z.

(** No part of the clip that is not empty is below the silence threshold of
    [_analyze_audio_gap]; an empty slice has no loudness to speak of (pydub
    gives it minus infinity) and is left out. *)
Definition never_silent `{Pydub} (audio : AudioSegment) : Prop :=
  forall i j : Z,
    (0 <= i)%Z -> (i < j)%Z -> (j <= len audio)%Z ->
    dB_ltb (dBFS (slice audio i j)) (-50) = false.

(** A segment that does not end before it starts. *)
Definition forward (segment : Segment) : Prop := start segment <= end_ segment.

(** An entry of the service's list that is a dict without ["end"], whose
    ["start"] is the number [a], or is absent, in which case [a] is 0. *)
Definition open_ended (entry : jval) (a : Q) : Prop :=
  exists fields,
    entry = JObj fields /\
    lookup "end" fields = None /\
    (lookup "start" fields = Some (JNum a) \/
     (lookup "start" fields = None /\ a = 0)).

(** An entry that [_transcribe_audio_chunk] cannot read: it is not a dict, or
    [float] raises on what it has under ["start"] or under ["end"]. *)
Inductive malformed `{PyBuiltins} : jval -> Prop :=
| malformed_not_dict (entry : jval) :
    (forall fields, entry <> JObj fields) -> malformed entry
| malformed_time (fields : list (string * jval)) (k : string) (v : jval)
    (e : exn) :
    k = "start"%string \/ k = "end"%string ->
    lookup k fields = Some v -> py_float v = Raise e ->
    malformed (JObj fields).

(** The answers to the timing request that [_finalize_timing] takes: a
    non-empty list is extracted, and [k in segment] is [True] for each of its
    elements and each of the four required keys. *)
Definition accepted (r : response) (json_data : jval) : Prop :=
  exists response_text items,
    r = Returned response_text (JArr items) /\
    json_data = JArr items /\
    items <> [] /\
    forall item k, In item items -> In k VideoProcessor.required_fields ->
                   py_in k item = Ok true.

(** The segment types that the formatter of [VideoProcessor] styles. *)
Definition effect_type (ty : jval) : bool :=
  is_str "music" ty || is_str "sound" ty || is_str "silence" ty.

Definition is_string (v : jval) : bool :=
  match v with JStr _ => true | _ => false end.

(** A segment of a styled type whose text is not a string. *)
Definition unstylable (segment : Segment) : Prop :=
  effect_type (VideoProcessor.type_or_speech segment) = true /\
  is_string (text segment) = false.

(** The mark that the formatter looks for at the start of the text of a
    segment of type [ty]. *)
Definition marker (ty : jval) : string :=
  if is_str "music" ty then "[♪"
  else if is_str "sound" ty then "[Sound:"
  else if is_str "silence" ty then "["
  else "".

Definition is_digit (c : ascii) : bool :=
  ((48 <=? nat_of_ascii c) && (nat_of_ascii c <=? 57))%nat.

(** [s] is two digits, and three digits. *)
Definition two_digits (s : string) : bool :=
  match s with
  | String a (String b EmptyString) => is_digit a && is_digit b
  | _ => false
  end.

Definition three_digits (s : string) : bool :=
  match s with
  | String a (String b (String c EmptyString)) =>
      is_digit a && is_digit b && is_digit c
  | _ => false
  end.

(** [s] reads [HH:MM:SS<sep>mmm], twelve characters in all. *)
Definition timestamp_shaped (sep : ascii) (s : string) : bool :=
  two_digits (substring 0 2 s) && (substring 2 1 s =? ":")%string &&
  two_digits (substring 3 2 s) && (substring 5 1 s =? ":")%string &&
  two_digits (substring 6 2 s) &&
  (substring 8 1 s =? String sep EmptyString)%string &&
  three_digits (substring 9 3 s) && (String.length s =? 12)%nat.

(** [segment] starts at [t]. *)
Definition starts_at (t : Q) (segment : Segment) : bool :=
  Qeq_bool (start segment) t.

(** The text that [CaptionGenerator] emits for a segment: [f"{segment['text']}"],
    with no styling. *)
Definition plain_text `{PyBuiltins} (segment : Segment) : string :=
  py_str (text segment).

(** The lines of the cues of [CaptionGenerator._format_as_vtt] for segments
    taken in order, given the text of each: no cue has an identifier. *)
Fixpoint plain_vtt_blocks (segments : list Segment) (txs : list string)
  : list string :=
  match segments, txs with
  | segment :: rest, tx :: txs' =>
      [(_format_vtt_timestamp (start segment) ++ " --> "
        ++ _format_vtt_timestamp (end_ segment))%string;
       tx; ""%string] ++ plain_vtt_blocks rest txs'
  | _, _ => []
  end.

(** The rational that a finite binary64 float denotes. *)
Definition float_value (f : float) : option Q :=
  match Binary64.finite f with
  | Some (s, m, e) =>
      let v := if (0 <=? e)%Z then inject_Z (m * 2 ^ e)
               else inject_Z m / inject_Z (2 ^ (- e)) in
      Some (if s then - v else v)
  | None => None
  end.

(** What an entry of an answer may hold under ["start"] or ["end"] for the
    code to compute with finite floats all along: anything but a string or
    a number of more than 10^9 seconds in absolute value.  A string is left
    out, since [float] reads some strings as an infinity or as nan, and so
    is a number that binary64 does not hold: on such a time [int] raises in
    gap filling and in the timestamps. *)
Definition plain_time (v : option jval) : Prop :=
  match v with
  | Some (JNum x) => - (1000000000) <= x /\ x <= 1000000000
  | Some (JStr _) => False
  | _ => True
  end.

(** The answer [r] holds plain times only, in every entry that is a dict. *)
Definition plain_times (r : response) : Prop :=
  match r with
  | Returned _ (JArr items) =>
      Forall (fun item =>
                match item with
                | JObj fields =>
                    plain_time (lookup "start" fields) /\
                    plain_time (lookup "end" fields)
                | _ => True
                end) items
  | _ => True
  end.

(** ** The chunker *)

Lemma ms_to_sec_scale (a : Z) : ms_to_sec a == inject_Z a * (1 # 1000).
Proof. unfold ms_to_sec. field. Qed.

Lemma ms_to_sec_le (a b : Z) : (a <= b)%Z <-> ms_to_sec a <= ms_to_sec b.
Proof.
  rewrite !ms_to_sec_scale, Zle_Qle. split; intro Hab; lra.
Qed.

Lemma ms_to_sec_lt (a b : Z) : (a < b)%Z <-> ms_to_sec a < ms_to_sec b.
Proof.
  rewrite !ms_to_sec_scale, Zlt_Qlt. split; intro Hab; lra.
Qed.

Lemma tiling_le (a b : Q) (ivs : list (Q * Q)) : tiling a ivs b -> a <= b.
Proof.
  induction 1 as [a b Hab | a b lo hi ivs Hlo Hlt _ IH].
  - rewrite Hab. apply Qle_refl.
  - rewrite <- Hlo. apply Qlt_le_weak. eapply Qlt_le_trans; eauto.
Qed.

Lemma tiling_ends (a a' b b' : Q) (ivs : list (Q * Q)) :
  a == a' -> b == b' -> tiling a ivs b -> tiling a' ivs b'.
Proof.
  intros Ha Hb Hivs. revert a' Ha.
  induction Hivs as [a b Hab | a b lo hi ivs Hlo Hlt Hivs IH]; intros a' Ha.
  - constructor. now rewrite <- Ha, <- Hb.
  - constructor; [now rewrite <- Ha | exact Hlt | apply IH; [exact Hb | reflexivity]].
Qed.

(** Tiling intervals cover exactly what they span. *)
Lemma tiling_covers (a b : Q) (ivs : list (Q * Q)) :
  tiling a ivs b -> covers ivs a b.
Proof.
  induction 1 as [a b Hab | a b lo hi ivs Hlo Hlt Hivs IH]; intro t.
  - split.
    + intros [H1 H2]. exfalso. rewrite <- Hab in H2.
      apply (Qlt_irrefl t). eapply Qlt_le_trans; eauto.
    + intros [iv [[] _]].
  - pose proof (tiling_le _ _ _ Hivs) as Hhb.
    split.
    + intros [H1 H2]. destruct (Qlt_le_dec t hi) as [Hthi | Hthi].
      * exists (lo, hi). split; [now left |].
        split; simpl; [rewrite Hlo; exact H1 | exact Hthi].
      * destruct (proj1 (IH t) (conj Hthi H2)) as [iv [Hin Hiv]].
        exists iv. split; [now right | exact Hiv].
    + intros [iv [[<- | Hin] Hiv]].
      * destruct Hiv as [H1 H2]; simpl in *. rewrite <- Hlo.
        split; [exact H1 | eapply Qlt_le_trans; eauto].
      * destruct (proj2 (IH t) (ex_intro _ iv (conj Hin Hiv))) as [H1 H2].
        split; [| exact H2]. rewrite <- Hlo.
        apply Qlt_le_weak. eapply Qlt_le_trans; eauto.
Qed.

(** Tiling intervals are pairwise disjoint. *)
Lemma tiling_disjoint (a b : Q) (ivs : list (Q * Q)) :
  tiling a ivs b -> disjoint ivs.
Proof.
  induction 1 as [a b Hab | a b lo hi ivs Hlo Hlt Hivs IH];
    intros i j x y t Hi Hj Hx Hy.
  - destruct i; discriminate.
  - assert (Hlater : forall k z, nth_error ivs k = Some z -> within t z -> hi <= t).
    { intros k z Hk Hz. apply (tiling_covers _ _ _ Hivs t).
      exists z. split; [eapply nth_error_In; eauto | exact Hz]. }
    destruct i as [| i], j as [| j]; simpl in *.
    + reflexivity.
    + injection Hi as <-. exfalso. destruct Hx as [_ Hx]; simpl in Hx.
      apply (Qlt_irrefl t). eapply Qlt_le_trans; eauto.
    + injection Hj as <-. exfalso. destruct Hy as [_ Hy]; simpl in Hy.
      apply (Qlt_irrefl t). eapply Qlt_le_trans; eauto.
    + f_equal. eapply IH; eauto.
Qed.

(** Windows that tile in milliseconds tile in seconds. *)
Lemma tiles_tiling (a b : Z) (ws : list Window) :
  tiles a ws b -> tiling (ms_to_sec a) (map window_span ws) (ms_to_sec b).
Proof.
  induction 1 as [a | a m b ws Ham Hws IH]; simpl.
  - constructor. reflexivity.
  - constructor; [reflexivity | | exact IH].
    exact (proj1 (ms_to_sec_lt a m) Ham).
Qed.

Lemma tiles_first (a a' m b : Z) (ws : list Window) :
  a' = a -> (a < m)%Z -> tiles m ws b -> tiles a (mkWindow a' m :: ws) b.
Proof. intros ->. apply tiles_cons. Qed.

Lemma tiles_nonempty (a b : Z) (ws : list Window) :
  tiles a ws b -> (a < b)%Z -> ws <> [].
Proof. intros Hws Hab ->. inversion Hws; subst. lia. Qed.

Lemma tiles_head (a b : Z) (w : Window) (ws : list Window) :
  tiles a (w :: ws) b -> start_ms w = a.
Proof. intro Hws. inversion Hws; subst. reflexivity. Qed.

Lemma tiles_last (a b : Z) (ws : list Window) (d : Window) :
  tiles a ws b -> ws <> [] -> end_ms (last ws d) = b.
Proof.
  induction 1 as [a | a m b ws Ham Hws IH]; intro Hne; [congruence |].
  destruct ws as [| w ws'].
  - inversion Hws; subst. reflexivity.
  - change (end_ms (last (w :: ws') d) = b). apply IH. discriminate.
Qed.

Lemma tiles_next (a b : Z) (ws : list Window) (i : nat) (w w' : Window) :
  tiles a ws b ->
  nth_error ws i = Some w -> nth_error ws (S i) = Some w' ->
  start_ms w' = end_ms w.
Proof.
  intro Hws. revert i. induction Hws as [a | a m b ws Ham Hws IH]; intros i Hi Hi'.
  - destruct i; discriminate.
  - destruct i as [| i]; simpl in Hi, Hi'.
    + injection Hi as <-. destruct ws as [| x ws']; [discriminate |].
      injection Hi' as <-. simpl. apply (tiles_head _ _ _ _ Hws).
    + eapply IH; eauto.
Qed.

Lemma tiles_width (c a b : Z) (ws : list Window) :
  tiles a ws b ->
  Forall (fun w => (end_ms w <= start_ms w + c)%Z) ws ->
  Forall (fun w => (0 < end_ms w - start_ms w <= c)%Z) ws.
Proof.
  induction 1 as [a | a m b ws Ham Hws IH]; intro Hall; constructor.
  - inversion Hall; subst. simpl in *. lia.
  - apply IH. now inversion Hall.
Qed.

(** The windows from index [k] on, when [n + 1] of them remain. *)
Lemma windows_from_tile (duration_ms chunk_size_ms : Z) (n k : nat) :
  (0 < chunk_size_ms)%Z ->
  ((Z.of_nat k + Z.of_nat n) * chunk_size_ms < duration_ms)%Z ->
  (duration_ms <= (Z.of_nat k + Z.of_nat n + 1) * chunk_size_ms)%Z ->
  tiles (Z.of_nat k * chunk_size_ms)
        (map (fun s => mkWindow s (Z.min (s + chunk_size_ms) duration_ms))
             (map (fun i => (0 + Z.of_nat i * chunk_size_ms)%Z) (seq k (S n))))
        duration_ms.
Proof.
  intro Hc. revert k. induction n as [| n IH]; intros k Hlo Hhi.
  - simpl. apply tiles_first; [reflexivity | | ].
    + rewrite Z.min_r by lia. lia.
    + rewrite Z.min_r by lia. apply tiles_nil.
  - change (seq k (S (S n))) with (k :: seq (S k) (S n)).
    cbn [map]. apply tiles_first; [reflexivity | | ].
    + rewrite Z.min_l by nia. lia.
    + rewrite Z.min_l by nia.
      replace (0 + Z.of_nat k * chunk_size_ms + chunk_size_ms)%Z
        with (Z.of_nat (S k) * chunk_size_ms)%Z by lia.
      apply IH; lia.
Qed.

Lemma chunk_windows_tile (duration_ms chunk_size_seconds : Z) :
  (0 < duration_ms)%Z -> (0 < chunk_size_seconds)%Z ->
  exists ws,
    chunk_windows duration_ms chunk_size_seconds = Ok ws /\
    tiles 0 ws duration_ms /\
    Forall (fun w => (end_ms w <= start_ms w + chunk_size_seconds * 1000)%Z) ws.
Proof.
  intros HD HC.
  set (c := (chunk_size_seconds * 1000)%Z).
  assert (Hc : (0 < c)%Z) by (unfold c; lia).
  unfold chunk_windows, py_range. fold c.
  destruct (Z.eqb_spec c 0) as [Hz | _]; [lia |].
  assert (Hlen : range_len 0 duration_ms c = ((duration_ms - 1) / c + 1)%Z).
  { unfold range_len. destruct (Z.ltb_spec 0 c) as [_ | Hbad]; [| lia].
    destruct (Z.leb_spec duration_ms 0) as [Hbad | _]; [lia |].
    now rewrite Z.sub_0_r. }
  rewrite Hlen.
  pose proof (Z.div_mod (duration_ms - 1) c ltac:(lia)) as Hdm.
  pose proof (Z.mod_pos_bound (duration_ms - 1) c Hc) as Hmod.
  assert (Hq : (0 <= (duration_ms - 1) / c)%Z) by (apply Z.div_pos; lia).
  set (q := ((duration_ms - 1) / c)%Z) in *.
  replace (Z.to_nat (q + 1)) with (S (Z.to_nat q)) by lia.
  eexists. split; [reflexivity |]. split.
  - change 0%Z with (Z.of_nat 0 * c)%Z.
    apply windows_from_tile; [exact Hc | |]; rewrite Z2Nat.id by lia; simpl; nia.
  - simpl bind. apply Forall_forall. intros w Hw.
    apply in_map_iff in Hw. destruct Hw as [s [<- _]]. simpl. lia.
Qed.

(** C2. For every track duration [duration_ms > 0] and chunk size
    [chunk_size_seconds > 0] the chunking loop of [_process_audio_chunks]
    visits a finite, non-empty list of windows: the first starts at 0, each
    next one starts where the one before it ends, the last ends at
    [duration_ms], every window is non-empty and at most one chunk long (so
    only the last can be shorter); in seconds, their half-open intervals
    cover exactly [[0, duration)] and no instant lies in two of them. *)
Theorem chunk_windows_partition (duration_ms chunk_size_seconds : Z) :
  (0 < duration_ms)%Z -> (0 < chunk_size_seconds)%Z ->
  exists (first : Window) (rest : list Window),
    let ws := first :: rest in
    chunk_windows duration_ms chunk_size_seconds = Ok ws /\
    start_ms first = 0%Z /\
    (forall i w w', nth_error ws i = Some w -> nth_error ws (S i) = Some w' ->
                    start_ms w' = end_ms w) /\
    end_ms (last ws first) = duration_ms /\
    Forall (fun w => (0 < end_ms w - start_ms w <= chunk_size_seconds * 1000)%Z) ws /\
    covers (map window_span ws) 0 (ms_to_sec duration_ms) /\
    disjoint (map window_span ws).
Proof.
  intros HD HC.
  destruct (chunk_windows_tile _ _ HD HC) as [ws [Hrun [Hws Hwidth]]].
  pose proof (tiles_nonempty _ _ _ Hws HD) as Hne.
  destruct ws as [| first rest]; [congruence |].
  exists first, rest. cbv zeta.
  assert (Htiling : tiling 0 (map window_span (first :: rest))
                           (ms_to_sec duration_ms)).
  { apply (tiling_ends (ms_to_sec 0) _ (ms_to_sec duration_ms));
      [reflexivity | reflexivity | apply (tiles_tiling _ _ _ Hws)]. }
  split; [exact Hrun |].
  split; [apply (tiles_head _ _ _ _ Hws) |].
  split; [intros i w w'; apply (tiles_next _ _ _ _ _ _ Hws) |].
  split; [apply (tiles_last _ _ _ _ Hws Hne) |].
  split; [apply (tiles_width _ _ _ _ Hws Hwidth) |].
  split; [apply (tiling_covers _ _ _ Htiling) |].
  apply (tiling_disjoint _ _ _ Htiling).
Qed.

Lemma chunk_windows_partition_65s :
  exists (first : Window) (rest : list Window),
    let ws := first :: rest in
    chunk_windows 65000 30 = Ok ws /\
    start_ms first = 0%Z /\
    (forall i w w', nth_error ws i = Some w -> nth_error ws (S i) = Some w' ->
                    start_ms w' = end_ms w) /\
    end_ms (last ws first) = 65000%Z /\
    Forall (fun w => (0 < end_ms w - start_ms w <= 30 * 1000)%Z) ws /\
    covers (map window_span ws) 0 (ms_to_sec 65000) /\
    disjoint (map window_span ws).
Proof.
  apply (chunk_windows_partition 65000 30); reflexivity.
Defined.

(** ** Sorting *)

Lemma Qltb_lt (x y : Q) : Qltb x y = true <-> x < y.
Proof.
  unfold Qltb. rewrite negb_true_iff, <- not_true_iff_false, Qle_bool_iff.
  split; [apply Qnot_le_lt | apply Qlt_not_le].
Qed.

Lemma Qltb_ge (x y : Q) : Qltb x y = false <-> y <= x.
Proof.
  unfold Qltb. rewrite negb_false_iff. apply Qle_bool_iff.
Qed.

Section Sorting.
Context {A : Type} (key : A -> Q).

Lemma insert_by_perm (x : A) (l : list A) :
  Permutation (x :: l) (insert_by key x l).
Proof.
  induction l as [| y l IH]; simpl; [reflexivity |].
  destruct (Qltb (key y) (key x)); [| reflexivity].
  rewrite perm_swap. now apply perm_skip.
Qed.

Lemma py_sorted_perm (l : list A) : Permutation l (py_sorted key l).
Proof.
  induction l as [| x l IH]; simpl; [reflexivity |].
  rewrite <- insert_by_perm. now apply perm_skip.
Qed.

Lemma insert_by_sorted (x : A) (l : list A) :
  StronglySorted (key_le key) l -> StronglySorted (key_le key) (insert_by key x l).
Proof.
  induction 1 as [| y l Hl IH Hy]; simpl.
  - repeat constructor.
  - destruct (Qltb (key y) (key x)) eqn:Hyx.
    + constructor; [exact IH |].
      apply Forall_forall. intros z Hz.
      apply (Permutation_in _ (Permutation_sym (insert_by_perm x l))) in Hz.
      destruct Hz as [<- | Hz].
      * apply Qltb_lt in Hyx. apply Qlt_le_weak. exact Hyx.
      * exact (proj1 (Forall_forall _ _) Hy z Hz).
    + apply Qltb_ge in Hyx.
      constructor; [constructor; assumption |].
      constructor; [exact Hyx |].
      apply Forall_forall. intros z Hz. unfold key_le.
      eapply Qle_trans; [exact Hyx |].
      exact (proj1 (Forall_forall _ _) Hy z Hz).
Qed.

Lemma py_sorted_sorted (l : list A) :
  StronglySorted (key_le key) (py_sorted key l).
Proof.
  induction l as [| x l IH]; simpl; [constructor | now apply insert_by_sorted].
Qed.

(** Sorting leaves a sorted list as it is. *)
Lemma py_sorted_fixed (l : list A) :
  StronglySorted (key_le key) l -> py_sorted key l = l.
Proof.
  induction 1 as [| x l Hl IH Hx]; simpl; [reflexivity |].
  rewrite IH. destruct l as [| y l']; [reflexivity |]. simpl.
  inversion Hx as [| ? ? Hxy _]; subst.
  apply Qltb_ge in Hxy. now rewrite Hxy.
Qed.

(** Two sorted arrangements of the same elements agree when elements that
    share a key are identical. *)
Lemma sorted_arrangement_unique (l1 l2 : list A) :
  StronglySorted (key_le key) l1 -> StronglySorted (key_le key) l2 ->
  Permutation l1 l2 ->
  (forall a b, In a l1 -> In b l1 -> key a == key b -> a = b) ->
  l1 = l2.
Proof.
  intro H1. revert l2.
  induction H1 as [| a l1 Hl1 IH Ha]; intros l2 H2 Hperm Hties.
  - apply Permutation_nil in Hperm. now subst.
  - destruct l2 as [| b l2].
    { apply Permutation_sym, Permutation_nil in Hperm. discriminate. }
    inversion H2 as [| ? ? Hl2 Hb]; subst.
    assert (Hab : a = b).
    { assert (Hin_b : In b (a :: l1)).
      { apply (Permutation_in _ (Permutation_sym Hperm)). now left. }
      assert (Hin_a : In a (b :: l2)).
      { apply (Permutation_in _ Hperm). now left. }
      apply Hties; [now left | exact Hin_b |].
      apply Qle_antisym.
      - destruct Hin_b as [<- | Hin_b]; [apply Qle_refl |].
        exact (proj1 (Forall_forall _ _) Ha b Hin_b).
      - destruct Hin_a as [<- | Hin_a]; [apply Qle_refl |].
        exact (proj1 (Forall_forall _ _) Hb a Hin_a). }
    subst b. f_equal.
    apply IH; [exact Hl2 | eapply Permutation_cons_inv; eauto |].
    intros x y Hx Hy. apply Hties; now right.
Qed.

(** Sorting does not depend on the order of the input when elements that
    share a key are identical. *)
Lemma py_sorted_permutation (l l' : list A) :
  Permutation l l' ->
  (forall a b, In a l -> In b l -> key a == key b -> a = b) ->
  py_sorted key l' = py_sorted key l.
Proof.
  intros Hperm Hties. symmetry.
  apply sorted_arrangement_unique; try apply py_sorted_sorted.
  - rewrite <- (py_sorted_perm l), <- (py_sorted_perm l'). exact Hperm.
  - intros a b Ha Hb. apply Hties; eapply Permutation_in;
      try apply Permutation_sym, py_sorted_perm; assumption.
Qed.

End Sorting.

(** ** The caption formatter *)

(** The sort is stable: the elements that share a key come in the order they
    had. *)
Lemma insert_by_filter {A : Type} (key : A -> Q) (t : Q) (x : A) (l : list A) :
  filter (fun a => Qeq_bool (key a) t) (insert_by key x l)
  = filter (fun a => Qeq_bool (key a) t) (x :: l).
Proof.
  induction l as [| y l IH]; [reflexivity |].
  cbn [insert_by]. destruct (Qltb (key y) (key x)) eqn:Hlt; [| reflexivity].
  cbn [filter] in IH |- *. rewrite IH.
  destruct (Qeq_bool (key x) t) eqn:Hx; [| reflexivity].
  destruct (Qeq_bool (key y) t) eqn:Hy; [| reflexivity].
  exfalso. apply Qltb_lt in Hlt.
  apply Qeq_bool_iff in Hx. apply Qeq_bool_iff in Hy.
  rewrite Hx, Hy in Hlt. now apply Qlt_irrefl in Hlt.
Qed.

Lemma py_sorted_stable {A : Type} (key : A -> Q) (t : Q) (l : list A) :
  filter (fun a => Qeq_bool (key a) t) (py_sorted key l)
  = filter (fun a => Qeq_bool (key a) t) l.
Proof.
  induction l as [| x l IH]; [reflexivity |].
  cbn [py_sorted]. rewrite insert_by_filter. cbn [filter]. now rewrite IH.
Qed.

Section Formatter.
Context `{PyBuiltins}.

Lemma srt_loop_blocks (segments : list Segment) :
  forall (i : Z) (srt_content out : list string),
    VideoProcessor.srt_loop i segments srt_content = Ok out ->
    exists txs, Forall2 srt_styled segments txs /\
                out = srt_content ++ srt_blocks i segments txs.
Proof.
  induction segments as [| segment rest IH]; intros i acc out Hrun; simpl in Hrun.
  - injection Hrun as <-. exists []. split; [constructor | now rewrite app_nil_r].
  - destruct (VideoProcessor.srt_text _ _) as [tx | e] eqn:Htx; simpl in Hrun;
      [| discriminate].
    destruct (IH _ _ _ Hrun) as [txs [Hall ->]].
    exists (tx :: txs). split; [constructor; assumption |].
    now rewrite <- app_assoc.
Qed.

Lemma vtt_loop_blocks (segments : list Segment) :
  forall (i : Z) (vtt_content out : list string),
    VideoProcessor.vtt_loop i segments vtt_content = Ok out ->
    exists txs, Forall2 vtt_styled segments txs /\
                out = vtt_content ++ vtt_blocks i segments txs.
Proof.
  induction segments as [| segment rest IH]; intros i acc out Hrun; simpl in Hrun.
  - injection Hrun as <-. exists []. split; [constructor | now rewrite app_nil_r].
  - destruct (VideoProcessor.vtt_text _ _) as [tx | e] eqn:Htx; simpl in Hrun;
      [| discriminate].
    destruct (IH _ _ _ Hrun) as [txs [Hall ->]].
    exists (tx :: txs). split; [constructor; assumption |].
    now rewrite <- app_assoc.
Qed.

Lemma cg_srt_loop_blocks (segments : list Segment) :
  forall (i : Z) (srt_content : list string),
    CaptionGenerator.srt_loop i segments srt_content
    = (srt_content ++ srt_blocks i segments (map plain_text segments))%list.
Proof.
  induction segments as [| segment rest IH]; intros i acc.
  - simpl. now rewrite app_nil_r.
  - cbn [CaptionGenerator.srt_loop map srt_blocks]. rewrite IH.
    now rewrite <- app_assoc.
Qed.

Lemma cg_vtt_loop_blocks (segments : list Segment) :
  forall vtt_content : list string,
    CaptionGenerator.vtt_loop segments vtt_content
    = (vtt_content ++ plain_vtt_blocks segments (map plain_text segments))%list.
Proof.
  induction segments as [| segment rest IH]; intro acc.
  - simpl. now rewrite app_nil_r.
  - cbn [CaptionGenerator.vtt_loop map plain_vtt_blocks]. rewrite IH.
    now rewrite <- app_assoc.
Qed.

(** C3, as amended. For every list of segments (dicts with finite numbers
    for times), [VideoProcessor]'s formatter sorts the segments by ["start"]
    with a stable sort before it emits them,
    for SRT and for VTT: the sorted list holds the same segments in
    non-decreasing order of start, and the segments that share a start keep
    the order they had in the input; the text returned is made of one cue
    per segment of the sorted list, in that order; a list that is sorted
    already is emitted in its own order; and a permutation of the list gives
    the same text when segments that share a start are identical.
    [CaptionGenerator]'s formatter does not sort: it emits the segments in
    the order of the input, in SRT and in VTT. *)
Theorem format_sorts_by_start (segments : list Segment) :
  let sorted_segments := py_sorted start segments in
  StronglySorted by_start sorted_segments /\
  Permutation segments sorted_segments /\
  (forall t : Q,
     filter (starts_at t) sorted_segments = filter (starts_at t) segments) /\
  (StronglySorted by_start segments -> sorted_segments = segments) /\
  (forall out, VideoProcessor._format_as_srt segments = Ok out ->
     exists txs, Forall2 srt_styled sorted_segments txs /\
                 out = join nl (srt_blocks 1 sorted_segments txs)) /\
  (forall out, VideoProcessor._format_as_vtt segments = Ok out ->
     exists txs, Forall2 vtt_styled sorted_segments txs /\
                 out = join nl (["WEBVTT"; ""]%string
                                ++ vtt_blocks 1 sorted_segments txs)) /\
  (forall permuted,
     Permutation segments permuted ->
     (forall a b, In a segments -> In b segments -> start a == start b ->
                  a = b) ->
     VideoProcessor._format_as_srt permuted
     = VideoProcessor._format_as_srt segments /\
     VideoProcessor._format_as_vtt permuted
     = VideoProcessor._format_as_vtt segments) /\
  CaptionGenerator._format_as_srt segments
  = join nl (srt_blocks 1 segments (map plain_text segments)) /\
  CaptionGenerator._format_as_vtt segments
  = join nl (["WEBVTT"; ""]%string
             ++ plain_vtt_blocks segments (map plain_text segments)).
Proof.
  intros sorted_segments.
  split; [apply (py_sorted_sorted start) |].
  split; [apply py_sorted_perm |].
  split; [intro t; apply (py_sorted_stable start) |].
  split; [apply (py_sorted_fixed start) |].
  split; [| split; [| split; [| split]]].
  - intros out Hout.
    unfold VideoProcessor._format_as_srt, VideoProcessor.emit_srt in Hout.
    fold sorted_segments in Hout.
    destruct (VideoProcessor.srt_loop 1 sorted_segments []) as [c | e] eqn:Hloop;
      simpl in Hout; [| discriminate].
    injection Hout as <-.
    destruct (srt_loop_blocks _ _ _ _ Hloop) as [txs [Hall ->]].
    exists txs. split; [exact Hall | reflexivity].
  - intros out Hout.
    unfold VideoProcessor._format_as_vtt, VideoProcessor.emit_vtt in Hout.
    fold sorted_segments in Hout.
    destruct (VideoProcessor.vtt_loop 1 sorted_segments _) as [c | e] eqn:Hloop;
      simpl in Hout; [| discriminate].
    injection Hout as <-.
    destruct (vtt_loop_blocks _ _ _ _ Hloop) as [txs [Hall ->]].
    exists txs. split; [exact Hall | reflexivity].
  - intros permuted Hperm Hties.
    unfold VideoProcessor._format_as_srt, VideoProcessor._format_as_vtt.
    rewrite (py_sorted_permutation start _ _ Hperm Hties). split; reflexivity.
  - unfold CaptionGenerator._format_as_srt. now rewrite cg_srt_loop_blocks.
  - unfold CaptionGenerator._format_as_vtt. now rewrite cg_vtt_loop_blocks.
Qed.

End Formatter.

Lemma format_sorts_by_start_example :
  let segments := [speech "b" 5 6; speech "a" 0 1; speech "c" 5 7] in
  let sorted_segments := [speech "a" 0 1; speech "b" 5 6; speech "c" 5 7] in
  py_sorted start segments = sorted_segments /\
  filter (starts_at 5) sorted_segments = [speech "b" 5 6; speech "c" 5 7] /\
  (forall out, VideoProcessor._format_as_srt segments = Ok out ->
     exists txs, Forall2 srt_styled sorted_segments txs /\
                 out = join nl (srt_blocks 1 sorted_segments txs)) /\
  CaptionGenerator._format_as_srt segments
  = join nl (srt_blocks 1 segments (map plain_text segments)).
Proof.
  cbv zeta.
  pose proof (@format_sorts_by_start plain_builtins
                [speech "b" 5 6; speech "a" 0 1; speech "c" 5 7]) as Hfmt.
  cbv zeta in Hfmt.
  destruct Hfmt as [_ [_ [Hstable [_ [Hsrt [_ [_ [Hcg _]]]]]]]].
  assert (Hsorted : py_sorted start [speech "b" 5 6; speech "a" 0 1; speech "c" 5 7]
                    = [speech "a" 0 1; speech "b" 5 6; speech "c" 5 7])
    by (vm_compute; reflexivity).
  rewrite Hsorted in Hstable, Hsrt.
  split; [exact Hsorted |].
  split; [rewrite (Hstable 5); vm_compute; reflexivity |].
  split; [exact Hsrt | exact Hcg].
Defined.

(** C3 as it is written fails twice.  In [VideoProcessor] the sort is stable,
    so two segments with the same start keep the order of the input: the
    sorted list [a; b] and its permutation [b; a] give different texts.  In
    [CaptionGenerator] the formatter does not sort: a segment that starts at
    5 s is emitted before one that starts at 0 s. *)
Lemma format_order_counterexample :
  (StronglySorted by_start [speech "a" 0 1; speech "b" 0 1] /\
   Permutation [speech "a" 0 1; speech "b" 0 1] [speech "b" 0 1; speech "a" 0 1] /\
   VideoProcessor._format_as_srt [speech "b" 0 1; speech "a" 0 1]
   <> VideoProcessor._format_as_srt [speech "a" 0 1; speech "b" 0 1] /\
   VideoProcessor._format_as_vtt [speech "b" 0 1; speech "a" 0 1]
   <> VideoProcessor._format_as_vtt [speech "a" 0 1; speech "b" 0 1]) /\
  CaptionGenerator._format_as_srt [speech "late" 5 6; speech "early" 0 1]
  = "1
00:00:05,000 --> 00:00:06,000
late

2
00:00:00,000 --> 00:00:01,000
early
"%string.
Proof.
  split; [| vm_compute; reflexivity].
  split; [| split; [apply perm_swap | split; vm_compute; discriminate]].
  repeat constructor; unfold by_start; simpl; apply Qle_refl.
Qed.

(** ** The timing optimizer *)

Lemma all_in_true (keys : list string) (segment : jval) :
  VideoProcessor.all_in keys segment = Ok true ->
  forall k, In k keys -> py_in k segment = Ok true.
Proof.
  induction keys as [| k0 keys IH]; simpl; intros Hall k Hk; [contradiction |].
  destruct (py_in k0 segment) as [[|] | e] eqn:Hk0; simpl in Hall;
    try discriminate.
  destruct Hk as [<- | Hk]; [exact Hk0 | now apply IH].
Qed.

Lemma all_valid_true (items : list jval) :
  VideoProcessor.all_valid items = Ok true ->
  forall item k, In item items -> In k VideoProcessor.required_fields ->
                 py_in k item = Ok true.
Proof.
  induction items as [| item0 items IH]; intros Hall item k Hitem Hk;
    [contradiction |].
  change (bind (VideoProcessor.all_in VideoProcessor.required_fields item0)
               (fun b => if b then VideoProcessor.all_valid items else Ok false)
          = Ok true) in Hall.
  destruct (VideoProcessor.all_in _ item0) as [[|] | e] eqn:H0; simpl in Hall;
    try discriminate.
  destruct Hitem as [<- | Hitem].
  - eapply all_in_true; eauto.
  - now apply IH.
Qed.

(** For a dict, [k in segment] tests the presence of the key. *)
Lemma py_in_dict (k : string) (fields : list (string * jval)) :
  py_in k (JObj fields) = Ok true <-> exists v, lookup k fields = Some v.
Proof.
  simpl. unfold has_key. destruct (lookup k fields) as [v |].
  - split; [eauto | reflexivity].
  - split; [discriminate | intros [v Hv]; discriminate].
Qed.

(** C4. For every non-empty transcript, when the timing request raises, or
    what it returns is not a non-empty list, or an element of the list lacks
    one of the keys ["text"], ["start"], ["end"], ["type"], then
    [_finalize_timing] returns the segments it was given, sorted by
    ["start"]: the same records, none changed, in non-decreasing order of
    start. *)
Theorem finalize_timing_keeps_original (self : VideoProcessor.t)
  (transcript_segments : list Segment) (n : nat) :
  transcript_segments <> [] ->
  rejected (VideoProcessor.client self n) ->
  let sorted_segments := py_sorted start transcript_segments in
  VideoProcessor._finalize_timing self transcript_segments n
  = (Original sorted_segments, S n) /\
  Permutation transcript_segments sorted_segments /\
  StronglySorted by_start sorted_segments.
Proof.
  intros Hne Hrej sorted_segments.
  split; [| split; [apply py_sorted_perm | apply (py_sorted_sorted start)]].
  destruct transcript_segments as [| s0 rest]; [congruence |].
  unfold VideoProcessor._finalize_timing, bindM, generate_content, ret.
  fold sorted_segments. f_equal.
  inversion Hrej as [e He | tx j Hj He | tx He | tx items item k Hitem Hk Hin He];
    try reflexivity.
  - destruct j; try reflexivity. discriminate.
  - destruct items as [| i0 items']; [reflexivity |].
    cbn [truthy andb]. destruct (0 <? _)%Z; [| reflexivity].
    destruct (VideoProcessor.all_valid (i0 :: items')) as [[|] | e] eqn:Hall;
      try reflexivity.
    exfalso. apply Hin. eapply all_valid_true; eauto.
Qed.

Lemma finalize_timing_keeps_original_missing_type :
  let self := {| VideoProcessor.chunk_size_seconds := 30;
                 VideoProcessor.client :=
                   constant_client
                     (Returned "[...]"
                        (JArr [JObj [("text", JStr "hello"); ("start", JNum 0);
                                     ("end", JNum 2)]%string])) |} in
  let transcript_segments := [speech "world" 2 4; speech "hello" 0 2] in
  VideoProcessor._finalize_timing self transcript_segments 0%nat
  = (Original [speech "hello" 0 2; speech "world" 2 4], 1%nat).
Proof.
  cbv zeta.
  refine (proj1 (finalize_timing_keeps_original _ _ 0%nat _ _)).
  - discriminate.
  - eapply (rejected_field _ _ _ "type"%string);
      [left; reflexivity | vm_compute; tauto | vm_compute; discriminate].
Defined.

(** ** The transcription client: parsing *)

Section Transcription.
Context `{PyBuiltins} `{Pydub}.

Lemma for_each_length {A B : Type} (f : A -> exc B) (xs : list A) (ys : list B) :
  for_each f xs = Ok ys -> List.length ys = List.length xs.
Proof.
  revert ys. induction xs as [| x xs IH]; simpl; intros ys Hrun.
  - now injection Hrun as <-.
  - destruct (f x) as [y | e]; simpl in Hrun; [| discriminate].
    destruct (for_each f xs) as [ys' | e]; simpl in Hrun; [| discriminate].
    injection Hrun as <-. simpl. f_equal. now apply IH.
Qed.

Lemma vp_parse_entry_timed (start_time : Q) (entry : jval) (a b : Q) :
  timed_entry entry a b ->
  exists segment,
    VideoProcessor.parse_entry start_time entry = Ok segment /\
    start segment = start_time + a /\ end_ segment = start_time + b.
Proof.
  intros [fields [-> [Ha Hb]]].
  unfold VideoProcessor.parse_entry. simpl. rewrite Ha, Hb. simpl.
  eexists. split; [reflexivity | split; reflexivity].
Qed.

Lemma cg_parse_entry_timed (start_time : Q) (entry : jval) (a b : Q) :
  timed_entry entry a b ->
  exists segment,
    CaptionGenerator.parse_entry start_time entry = Ok segment /\
    start segment = start_time + a /\ end_ segment = start_time + b.
Proof.
  intros [fields [-> [Ha Hb]]].
  unfold CaptionGenerator.parse_entry. simpl. rewrite Ha, Hb. simpl.
  eexists. split; [reflexivity | split; reflexivity].
Qed.

Lemma for_each_shifted (parse : Q -> jval -> exc Segment) (start_time : Q)
  (entries : list jval) :
  (forall entry a b, timed_entry entry a b ->
     exists segment, parse start_time entry = Ok segment /\
                     start segment = start_time + a /\
                     end_ segment = start_time + b) ->
  Forall (fun entry => exists a b, timed_entry entry a b) entries ->
  exists segments,
    for_each (parse start_time) entries = Ok segments /\
    shifted start_time entries segments.
Proof.
  intros Hparse. induction 1 as [| entry entries [a [b Hab]] _ [segments [Hrun Hsh]]].
  - exists []. split; [reflexivity | constructor].
  - destruct (Hparse _ _ _ Hab) as [segment [Hseg [Hs He]]].
    exists (segment :: segments). simpl. rewrite Hseg, Hrun. simpl.
    split; [reflexivity |]. constructor; [| exact Hsh].
    exists a, b. auto.
Qed.

(** C8. For every window start [start_time] and every answer of the service
    from which a non-empty list of [N] entries is extracted, each a dict with
    numbers under ["start"] and ["end"], [_transcribe_audio_chunk] returns
    exactly [N] segments, in the order of the entries, the [i]-th starting at
    [start_time] plus the [i]-th entry's start and ending at [start_time] plus
    its end; in [VideoProcessor] and in [CaptionGenerator] alike. *)
Theorem transcribe_shifts_entries (vp : VideoProcessor.t) (cg : CaptionGenerator.t)
  (audio_chunk : AudioSegment) (start_time : Q) (n : nat)
  (response_text : string) (entries : list jval) :
  entries <> [] ->
  Forall (fun entry => exists a b, timed_entry entry a b) entries ->
  VideoProcessor.client vp n = Returned response_text (JArr entries) ->
  CaptionGenerator.client cg n = Returned response_text (JArr entries) ->
  let vp_segments :=
    fst (VideoProcessor._transcribe_audio_chunk vp audio_chunk start_time n) in
  let cg_segments :=
    fst (CaptionGenerator._transcribe_audio_chunk cg audio_chunk start_time n) in
  (List.length vp_segments = List.length entries /\ shifted start_time entries vp_segments) /\
  (List.length cg_segments = List.length entries /\ shifted start_time entries cg_segments).
Proof.
  intros Hne Hall Hvp Hcg.
  destruct entries as [| entry0 entries0]; [congruence |].
  destruct (for_each_shifted VideoProcessor.parse_entry start_time _
              (vp_parse_entry_timed start_time) Hall) as [vs [Hvs Hvsh]].
  destruct (for_each_shifted CaptionGenerator.parse_entry start_time _
              (cg_parse_entry_timed start_time) Hall) as [cs [Hcs Hcsh]].
  unfold VideoProcessor._transcribe_audio_chunk,
    CaptionGenerator._transcribe_audio_chunk, bindM, generate_content, ret.
  rewrite Hvp, Hcg.
  unfold VideoProcessor.parse_response, CaptionGenerator.parse_response.
  cbn [truthy negb]. rewrite Hvs, Hcs. cbn [fst].
  split; (split; [eapply for_each_length; eauto | assumption]).
Qed.

End Transcription.

Lemma transcribe_shifts_entries_example :
  let entries :=
    [JObj [("text", JStr "This is the first chunk"); ("start", JNum 0);
           ("end", JNum 2.5); ("type", JStr "speech")]%string;
     JObj [("text", JStr "[Sound: door slamming]"); ("start", JNum 5);
           ("end", JNum 5.5); ("type", JStr "sound")]%string] in
  let answer := Returned "..." (JArr entries) in
  let vp := {| VideoProcessor.chunk_size_seconds := 30;
               VideoProcessor.client := constant_client answer |} in
  let cg := {| CaptionGenerator.chunk_size_seconds := 30;
               CaptionGenerator.client := constant_client answer |} in
  let audio_chunk : AudioSegment := (30000%Z, Finite (-20)) in
  let vp_segments :=
    fst (VideoProcessor._transcribe_audio_chunk vp audio_chunk 60 0%nat) in
  let cg_segments :=
    fst (CaptionGenerator._transcribe_audio_chunk cg audio_chunk 60 0%nat) in
  (List.length vp_segments = List.length entries /\ shifted 60 entries vp_segments) /\
  (List.length cg_segments = List.length entries /\ shifted 60 entries cg_segments).
Proof.
  cbv zeta.
  eapply (@transcribe_shifts_entries plain_builtins uniform_audio _ _
            (30000%Z, Finite (-20)) 60 0%nat "...").
  - discriminate.
  - repeat constructor.
    + exists 0, 2.5. eexists. repeat split; reflexivity.
    + exists 5, 5.5. eexists. repeat split; reflexivity.
  - reflexivity.
  - reflexivity.
Defined.

(** ** The transcription client: fallbacks *)

Lemma py_int_floor (x : Q) : 0 <= x -> py_int x = Qfloor x.
Proof.
  destruct x as [p q]. unfold Qle, py_int, Qfloor; simpl. intro Hp.
  apply Z.quot_div_nonneg; lia.
Qed.

Lemma inject_Z_succ (z : Z) : inject_Z (z + 1) = inject_Z z + 1.
Proof. apply inject_Z_plus. Qed.

(** What [num_segments] counts: one segment for a window shorter than five
    seconds, and otherwise the number of whole five-second spans in it. *)
Lemma num_segments_spec (duration_sec : Q) :
  0 < duration_sec ->
  (duration_sec < 5 /\ num_segments duration_sec = 1%Z) \/
  (5 <= duration_sec /\ (1 <= num_segments duration_sec)%Z /\
   inject_Z (num_segments duration_sec) * 5 <= duration_sec /\
   duration_sec < (inject_Z (num_segments duration_sec) + 1) * 5).
Proof.
  intro Hpos. unfold num_segments.
  assert (Hdiv : duration_sec / segment_duration == duration_sec * (1 # 5))
    by (unfold segment_duration; field).
  set (x := duration_sec / segment_duration) in *. clearbody x.
  assert (Hnn : 0 <= x) by lra.
  rewrite (py_int_floor _ Hnn).
  pose proof (Qfloor_le x) as Hlo.
  pose proof (Qlt_floor x) as Hhi.
  rewrite inject_Z_succ in Hhi.
  set (f := Qfloor x) in *.
  destruct (Qlt_le_dec duration_sec 5) as [Hshort | Hlong].
  - left. split; [exact Hshort |].
    assert (Hf : (f < 1)%Z) by (rewrite Zlt_Qlt; change (inject_Z 1) with 1; lra).
    lia.
  - right. split; [exact Hlong |].
    assert (Hf : (1 <= f)%Z).
    { assert (Hf0 : (0 < f + 1)%Z) by (rewrite Zlt_Qlt, inject_Z_succ; change (inject_Z 0) with 0; change (inject_Z 1) with 1; lra).
      assert (Hf1 : (1 < f + 1)%Z) by (rewrite Zlt_Qlt, inject_Z_succ; change (inject_Z 0) with 0; change (inject_Z 1) with 1; lra).
      lia. }
    rewrite Z.max_r by lia. repeat split; [exact Hf | lra | lra].
Qed.

(** The placeholders with indices [k], ..., [k + m] follow one another. *)
Lemma placeholders_tiling (ty : option jval) (start_time duration_sec : Q)
  (m k : nat) :
  (forall j : nat, (k <= j < k + m)%nat ->
                   inject_Z (Z.of_nat j + 1) * 5 <= duration_sec) ->
  inject_Z (Z.of_nat (k + m)) * 5 < duration_sec ->
  tiling (start_time + inject_Z (Z.of_nat k) * segment_duration)
         (map span (map (placeholder ty start_time duration_sec)
                        (map Z.of_nat (seq k (S m)))))
         (start_time
          + Qmin (inject_Z (Z.of_nat (k + m) + 1) * segment_duration) duration_sec).
Proof.
  revert k. induction m as [| m IH]; intros k Hfull Hlast.
  - rewrite Nat.add_0_r in *. simpl. unfold span at 1. simpl.
    apply tiling_cons; [reflexivity | | apply tiling_nil; reflexivity].
    unfold segment_duration.
    destruct (Q.min_spec (inject_Z (Z.of_nat k + 1) * 5) duration_sec)
      as [[_ ->] | [_ ->]]; [rewrite inject_Z_succ |]; lra.
  - change (seq k (S (S m))) with (k :: seq (S k) (S m)).
    cbn [map]. unfold span at 1. cbn [start end_ placeholder].
    assert (Hk : inject_Z (Z.of_nat k + 1) * 5 <= duration_sec)
      by (apply Hfull; lia).
    apply tiling_cons; [reflexivity | |].
    + rewrite (Q.min_l _ _ Hk). rewrite inject_Z_succ.
      unfold segment_duration. lra.
    + eapply tiling_ends; [| | apply (IH (S k))].
      * unfold segment_duration. rewrite (Q.min_l _ _ Hk).
        replace (Z.of_nat (S k)) with (Z.of_nat k + 1)%Z by lia. reflexivity.
      * replace (S k + m)%nat with (k + S m)%nat by lia. reflexivity.
      * intros j Hj. apply Hfull. lia.
      * replace (S k + m)%nat with (k + S m)%nat by lia. exact Hlast.
Qed.

(** What the placeholders of a failed window cover: they follow one another
    from the start of the window up to [num_segments] times five seconds, or
    up to the end of the window if that comes first. *)
Lemma fallback_segments_tiling (ty : option jval) (start_time duration_sec : Q) :
  0 < duration_sec ->
  tiling start_time
         (map span (fallback_segments ty start_time duration_sec))
         (start_time
          + Qmin (inject_Z (num_segments duration_sec) * 5) duration_sec).
Proof.
  intro Hpos. unfold fallback_segments, range_upto.
  pose proof (num_segments_spec _ Hpos) as Hnum.
  remember (num_segments duration_sec) as N eqn:HeqN. clear HeqN.
  assert (HN : (1 <= N)%Z) by (destruct Hnum as [[_ ->] | [_ [HN _]]]; lia).
  replace (Z.to_nat N) with (S (Z.to_nat (N - 1))) by lia.
  eapply tiling_ends; [| | apply placeholders_tiling].
  - change (inject_Z (Z.of_nat 0)) with 0. unfold segment_duration. lra.
  - replace (Z.of_nat (0 + Z.to_nat (N - 1)) + 1)%Z with N by lia.
    reflexivity.
  - intros j Hj. destruct Hnum as [[_ HN1] | [_ [_ [Hle _]]]]; [lia |].
    assert (Hj' : (Z.of_nat j + 1 <= N)%Z) by lia.
    rewrite Zle_Qle in Hj'. lra.
  - replace (Z.of_nat (0 + Z.to_nat (N - 1))) with (N - 1)%Z by lia.
    destruct Hnum as [[_ ->] | [_ [_ [Hle _]]]].
    + change (inject_Z (1 - 1)) with 0. lra.
    + unfold Z.sub. rewrite inject_Z_plus.
      change (inject_Z (- (1))) with (- (1)). lra.
Qed.

Lemma fallback_segments_unavailable (ty : option jval)
  (start_time duration_sec : Q) :
  Forall unavailable (fallback_segments ty start_time duration_sec).
Proof.
  unfold fallback_segments. apply Forall_forall. intros s Hs.
  apply in_map_iff in Hs. destruct Hs as [i [<- _]].
  eexists. reflexivity.
Qed.

(** A window shorter than five seconds, or a whole number of five-second
    spans long, is covered in full, without overlap. *)
Lemma fallback_segments_cover (ty : option jval) (start_time duration_sec : Q) :
  0 < duration_sec ->
  (duration_sec < 5 \/ exists k : Z, duration_sec == inject_Z k * 5) ->
  covers (map span (fallback_segments ty start_time duration_sec))
         start_time (start_time + duration_sec) /\
  disjoint (map span (fallback_segments ty start_time duration_sec)).
Proof.
  intros Hpos Hshape.
  pose proof (fallback_segments_tiling ty start_time _ Hpos) as Htiling.
  assert (Hend : Qmin (inject_Z (num_segments duration_sec) * 5) duration_sec
                 == duration_sec).
  { pose proof (num_segments_spec _ Hpos) as Hnum.
    remember (num_segments duration_sec) as N eqn:HeqN. clear HeqN.
    destruct Hnum as [[Hshort ->] | [Hlong [HN [Hle Hlt]]]].
    - apply Q.min_r. change (inject_Z 1) with 1. lra.
    - destruct Hshape as [Hshort | [k Hk]]; [lra |].
      assert (Hkn : k = N).
      { assert (H1 : (N <= k)%Z) by (rewrite Zle_Qle; lra).
        assert (H2 : (k < N + 1)%Z) by (rewrite Zlt_Qlt, inject_Z_succ; lra).
        lia. }
      subst k. rewrite <- Hk. apply Q.min_l. apply Qle_refl. }
  assert (Htiling' : tiling start_time
                       (map span (fallback_segments ty start_time duration_sec))
                       (start_time + duration_sec)).
  { eapply tiling_ends; [reflexivity | | exact Htiling]. now rewrite Hend. }
  split; [eapply tiling_covers | eapply tiling_disjoint]; eauto.
Qed.

(** A window of five seconds or more that is not a whole number of
    five-second spans long keeps a tail that no placeholder covers. *)
Lemma fallback_segments_tail (ty : option jval) (start_time duration_sec : Q) :
  5 <= duration_sec ->
  let covered := inject_Z (num_segments duration_sec) * 5 in
  covers (map span (fallback_segments ty start_time duration_sec))
         start_time (start_time + covered) /\
  covered <= duration_sec /\
  forall t, start_time + covered <= t ->
            forall s, In s (fallback_segments ty start_time duration_sec) ->
                      ~ within t (span s).
Proof.
  intros Hlong covered.
  assert (Hpos : 0 < duration_sec) by lra.
  pose proof (fallback_segments_tiling ty start_time _ Hpos) as Htiling.
  destruct (num_segments_spec _ Hpos) as [[Hshort _] | [_ [HN [Hle Hlt]]]]; [lra |].
  fold covered in Hle.
  assert (Hcov : covers (map span (fallback_segments ty start_time duration_sec))
                        start_time (start_time + covered)).
  { eapply tiling_covers, tiling_ends; [reflexivity | | exact Htiling].
    fold covered. now rewrite (Q.min_l _ _ Hle). }
  split; [exact Hcov | split; [exact Hle |]].
  intros t Ht s Hs Hin.
  assert (Hex : exists iv, In iv (map span (fallback_segments ty start_time duration_sec))
                           /\ within t iv).
  { exists (span s). split; [now apply in_map | exact Hin]. }
  apply Hcov in Hex. destruct Hex as [_ Hex]. lra.
Qed.

Section Fallbacks.
Context `{PyBuiltins} `{Pydub}.

Lemma vp_transcribe_raised (vp : VideoProcessor.t) (audio_chunk : AudioSegment)
  (start_time : Q) (n : nat) (e : exn) :
  VideoProcessor.client vp n = Raised e ->
  VideoProcessor._transcribe_audio_chunk vp audio_chunk start_time n
  = (fallback_segments (Some (JStr "speech")) start_time
                       (ms_to_sec (len audio_chunk)), S n).
Proof.
  intro Hraise.
  unfold VideoProcessor._transcribe_audio_chunk, bindM, generate_content, ret.
  now rewrite Hraise.
Qed.

Lemma cg_transcribe_raised (cg : CaptionGenerator.t) (audio_chunk : AudioSegment)
  (start_time : Q) (n : nat) (e : exn) :
  CaptionGenerator.client cg n = Raised e ->
  CaptionGenerator._transcribe_audio_chunk cg audio_chunk start_time n
  = (fallback_segments None start_time (ms_to_sec (len audio_chunk)), S n).
Proof.
  intro Hraise.
  unfold CaptionGenerator._transcribe_audio_chunk, bindM, generate_content, ret.
  now rewrite Hraise.
Qed.

Lemma fallback_30s (ty : option jval) :
  let segments := fallback_segments ty 0 (ms_to_sec 30000) in
  List.length segments = 6%nat /\
  spans_are (map span segments)
            [(0, 5); (5, 10); (10, 15); (15, 20); (20, 25); (25, 30)] /\
  Forall unavailable segments /\
  covers (map span segments) 0 30 /\
  disjoint (map span segments).
Proof.
  intro segments. subst segments.
  split; [reflexivity |].
  split; [repeat constructor; vm_compute; reflexivity |].
  split; [apply fallback_segments_unavailable |].
  destruct (fallback_segments_cover ty 0 (ms_to_sec 30000)) as [Hcov Hdis].
  - reflexivity.
  - right. exists 6%Z. vm_compute. reflexivity.
  - split; [| exact Hdis].
    assert (Hend : 0 + ms_to_sec 30000 == 30) by (vm_compute; reflexivity).
    intro t. rewrite <- (Hcov t), Hend. reflexivity.
Qed.

(** C7. When the transcription call fails for a window of 30 seconds at the
    origin of the track, [_transcribe_audio_chunk] returns exactly 6
    placeholder segments, each marked unavailable, over [[0,5)], [[5,10)],
    [[10,15)], [[15,20)], [[20,25)], [[25,30)]: they cover [[0,30)] exactly
    and no instant lies in two of them; in [VideoProcessor] and in
    [CaptionGenerator] alike. *)
Theorem transcribe_fallback_30s (vp : VideoProcessor.t) (cg : CaptionGenerator.t)
  (audio_chunk : AudioSegment) (n : nat) (e e' : exn) :
  len audio_chunk = 30000%Z ->
  VideoProcessor.client vp n = Raised e ->
  CaptionGenerator.client cg n = Raised e' ->
  let expected := [(0, 5); (5, 10); (10, 15); (15, 20); (20, 25); (25, 30)] in
  let vp_segments :=
    fst (VideoProcessor._transcribe_audio_chunk vp audio_chunk 0 n) in
  let cg_segments :=
    fst (CaptionGenerator._transcribe_audio_chunk cg audio_chunk 0 n) in
  (List.length vp_segments = 6%nat /\
   spans_are (map span vp_segments) expected /\
   Forall unavailable vp_segments /\
   covers (map span vp_segments) 0 30 /\
   disjoint (map span vp_segments)) /\
  (List.length cg_segments = 6%nat /\
   spans_are (map span cg_segments) expected /\
   Forall unavailable cg_segments /\
   covers (map span cg_segments) 0 30 /\
   disjoint (map span cg_segments)).
Proof.
  intros Hlen Hvp Hcg. cbv zeta.
  rewrite (vp_transcribe_raised _ _ _ _ _ Hvp),
          (cg_transcribe_raised _ _ _ _ _ Hcg), Hlen.
  cbn [fst]. split; apply fallback_30s.
Qed.

End Fallbacks.

Lemma transcribe_fallback_30s_example :
  let vp := {| VideoProcessor.chunk_size_seconds := 30;
               VideoProcessor.client := failing_client |} in
  let cg := {| CaptionGenerator.chunk_size_seconds := 30;
               CaptionGenerator.client := failing_client |} in
  let audio_chunk : AudioSegment := (30000%Z, Finite (-20)) in
  let expected := [(0, 5); (5, 10); (10, 15); (15, 20); (20, 25); (25, 30)] in
  let vp_segments :=
    fst (VideoProcessor._transcribe_audio_chunk vp audio_chunk 0 0%nat) in
  let cg_segments :=
    fst (CaptionGenerator._transcribe_audio_chunk cg audio_chunk 0 0%nat) in
  (List.length vp_segments = 6%nat /\
   spans_are (map span vp_segments) expected /\
   Forall unavailable vp_segments /\
   covers (map span vp_segments) 0 30 /\
   disjoint (map span vp_segments)) /\
  (List.length cg_segments = 6%nat /\
   spans_are (map span cg_segments) expected /\
   Forall unavailable cg_segments /\
   covers (map span cg_segments) 0 30 /\
   disjoint (map span cg_segments)).
Proof.
  cbv zeta.
  apply (@transcribe_fallback_30s plain_builtins uniform_audio _ _
           (30000%Z, Finite (-20)) 0%nat ServiceError ServiceError);
    reflexivity.
Defined.

(** C1, where the code departs from it.  For a window of 12 seconds whose
    transcription call fails, [_transcribe_audio_chunk] returns two
    placeholders, over [[0,5)] and [[5,10)], and nothing for [[10,12)]: the
    instant 11 s lies in the window and in no segment, so the window is not
    covered; in [VideoProcessor] and in [CaptionGenerator] alike. *)
Theorem transcribe_fallback_12s_hole :
  let vp := {| VideoProcessor.chunk_size_seconds := 30;
               VideoProcessor.client := failing_client |} in
  let cg := {| CaptionGenerator.chunk_size_seconds := 30;
               CaptionGenerator.client := failing_client |} in
  let audio_chunk : AudioSegment := (12000%Z, Finite (-20)) in
  let window_end := 0 + ms_to_sec (len audio_chunk) in
  let vp_segments :=
    fst (VideoProcessor._transcribe_audio_chunk vp audio_chunk 0 0%nat) in
  let cg_segments :=
    fst (CaptionGenerator._transcribe_audio_chunk cg audio_chunk 0 0%nat) in
  window_end == 12 /\
  (spans_are (map span vp_segments) [(0, 5); (5, 10)] /\
   Forall unavailable vp_segments /\
   (forall s, In s vp_segments -> ~ within 11 (span s)) /\
   ~ covers (map span vp_segments) 0 window_end) /\
  (spans_are (map span cg_segments) [(0, 5); (5, 10)] /\
   Forall unavailable cg_segments /\
   (forall s, In s cg_segments -> ~ within 11 (span s)) /\
   ~ covers (map span cg_segments) 0 window_end).
Proof.
  cbv zeta.
  rewrite (@vp_transcribe_raised plain_builtins uniform_audio _ _ _ _ ServiceError)
    by reflexivity.
  rewrite (@cg_transcribe_raised plain_builtins uniform_audio _ _ _ _ ServiceError)
    by reflexivity.
  cbn [fst len uniform_audio].
  assert (Hout : forall ty s,
             In s (fallback_segments ty 0 (ms_to_sec 12000)) ->
             ~ within 11 (span s)).
  { intros ty s Hs [_ Hlt].
    destruct Hs as [<- | [<- | []]]; vm_compute in Hlt; discriminate. }
  assert (Hnot : forall ty,
             ~ covers (map span (fallback_segments ty 0 (ms_to_sec 12000)))
                      0 (0 + ms_to_sec 12000)).
  { intros ty Hcov.
    destruct (proj1 (Hcov 11)) as [iv [Hin Hiv]].
    - split; vm_compute; [discriminate | reflexivity].
    - apply in_map_iff in Hin. destruct Hin as [s [<- Hs]].
      exact (Hout ty s Hs Hiv). }
  split; [vm_compute; reflexivity |].
  split; (split; [repeat constructor; vm_compute; reflexivity |]);
    (split; [apply fallback_segments_unavailable |]);
    (split; [apply Hout | apply Hnot]).
Qed.

(** ** The transcription client: an empty list *)

Section EmptyList.
Context `{PyBuiltins} `{Pydub}.

Lemma for_each_nonempty {A B : Type} (f : A -> exc B) (xs : list A) (ys : list B) :
  xs <> [] -> for_each f xs = Ok ys -> (1 <= List.length ys)%nat.
Proof.
  intros Hne Hrun. rewrite (for_each_length _ _ _ Hrun).
  destruct xs; [congruence | simpl; lia].
Qed.

Lemma fallback_segments_nonempty (ty : option jval) (start_time duration_sec : Q) :
  (1 <= List.length (fallback_segments ty start_time duration_sec))%nat.
Proof.
  unfold fallback_segments, range_upto, num_segments.
  rewrite !length_map, length_seq. lia.
Qed.

Lemma vp_transcribe_nonempty (vp : VideoProcessor.t) (audio_chunk : AudioSegment)
  (start_time : Q) (n : nat) :
  (1 <= List.length
          (fst (VideoProcessor._transcribe_audio_chunk vp audio_chunk start_time n)))%nat.
Proof.
  unfold VideoProcessor._transcribe_audio_chunk, bindM, generate_content, ret.
  cbn [fst].
  destruct (VideoProcessor.parse_response _ _ _) as [segments | e] eqn:Hparse;
    [| apply fallback_segments_nonempty].
  unfold VideoProcessor.parse_response in Hparse.
  destruct (VideoProcessor.client vp n) as [e | tx json_data]; [discriminate |].
  destruct json_data as [| b | x | s | items | fields];
    try (injection Hparse as <-; simpl; lia).
  destruct items as [| item items]; [injection Hparse as <-; simpl; lia |].
  eapply for_each_nonempty; [| exact Hparse]. discriminate.
Qed.

Lemma cg_transcribe_nonempty (cg : CaptionGenerator.t) (audio_chunk : AudioSegment)
  (start_time : Q) (n : nat) :
  (1 <= List.length
          (fst (CaptionGenerator._transcribe_audio_chunk cg audio_chunk start_time n)))%nat.
Proof.
  unfold CaptionGenerator._transcribe_audio_chunk, bindM, generate_content, ret.
  cbn [fst].
  destruct (CaptionGenerator.parse_response _ _ _) as [segments | e] eqn:Hparse;
    [| apply fallback_segments_nonempty].
  unfold CaptionGenerator.parse_response in Hparse.
  destruct (CaptionGenerator.client cg n) as [e | tx json_data]; [discriminate |].
  destruct json_data as [| b | x | s | items | fields];
    try (injection Hparse as <-; simpl; lia).
  destruct items as [| item items]; [injection Hparse as <-; simpl; lia |].
  eapply for_each_nonempty; [| exact Hparse]. discriminate.
Qed.

(** C10, as amended. When the value extracted from the answer is an empty
    list, [_transcribe_audio_chunk] does what it does when nothing, or
    something that is not a list, is extracted: it returns a single segment
    that spans the whole window and whose text is the response text with the
    whitespace at its two ends stripped.  In every case
    [_transcribe_audio_chunk] returns at least one segment; in
    [VideoProcessor] and in [CaptionGenerator] alike. *)
Theorem transcribe_empty_list (vp : VideoProcessor.t) (cg : CaptionGenerator.t)
  (audio_chunk : AudioSegment) (start_time : Q) (n : nat) (response_text : string) :
  VideoProcessor.client vp n = Returned response_text (JArr []) ->
  CaptionGenerator.client cg n = Returned response_text (JArr []) ->
  let duration_sec := ms_to_sec (len audio_chunk) in
  fst (VideoProcessor._transcribe_audio_chunk vp audio_chunk start_time n)
  = [{| text := JStr (py_strip response_text);
        start := start_time;
        end_ := start_time + duration_sec;
        type := Some (JStr "speech") |}] /\
  fst (CaptionGenerator._transcribe_audio_chunk cg audio_chunk start_time n)
  = [{| text := JStr (py_strip response_text);
        start := start_time;
        end_ := start_time + duration_sec;
        type := None |}] /\
  (forall json_data, is_list json_data = false ->
     VideoProcessor.parse_response start_time duration_sec
       (Returned response_text (JArr []))
     = VideoProcessor.parse_response start_time duration_sec
         (Returned response_text json_data) /\
     CaptionGenerator.parse_response start_time duration_sec
       (Returned response_text (JArr []))
     = CaptionGenerator.parse_response start_time duration_sec
         (Returned response_text json_data)) /\
  (forall vp' cg' audio_chunk' start_time' n',
     (1 <= List.length
             (fst (VideoProcessor._transcribe_audio_chunk
                     vp' audio_chunk' start_time' n')))%nat /\
     (1 <= List.length
             (fst (CaptionGenerator._transcribe_audio_chunk
                     cg' audio_chunk' start_time' n')))%nat).
Proof.
  intros Hvp Hcg duration_sec.
  split; [| split; [| split]].
  - unfold VideoProcessor._transcribe_audio_chunk, bindM, generate_content, ret.
    now rewrite Hvp.
  - unfold CaptionGenerator._transcribe_audio_chunk, bindM, generate_content, ret.
    now rewrite Hcg.
  - intros json_data Hnot. destruct json_data; try discriminate; split; reflexivity.
  - intros vp' cg' audio_chunk' start_time' n'.
    split; [apply vp_transcribe_nonempty | apply cg_transcribe_nonempty].
Qed.

End EmptyList.

Lemma transcribe_empty_list_example :
  let answer := Returned "[]" (JArr []) in
  let vp := {| VideoProcessor.chunk_size_seconds := 30;
               VideoProcessor.client := constant_client answer |} in
  let cg := {| CaptionGenerator.chunk_size_seconds := 30;
               CaptionGenerator.client := constant_client answer |} in
  let audio_chunk : AudioSegment := (30000%Z, Finite (-20)) in
  fst (VideoProcessor._transcribe_audio_chunk vp audio_chunk 60 0%nat)
  = [{| text := JStr "[]"; start := 60; end_ := 60 + ms_to_sec 30000;
        type := Some (JStr "speech") |}] /\
  fst (CaptionGenerator._transcribe_audio_chunk cg audio_chunk 60 0%nat)
  = [{| text := JStr "[]"; start := 60; end_ := 60 + ms_to_sec 30000;
        type := None |}].
Proof.
  cbv zeta.
  pose proof (@transcribe_empty_list plain_builtins uniform_audio
                {| VideoProcessor.chunk_size_seconds := 30;
                   VideoProcessor.client := constant_client (Returned "[]" (JArr [])) |}
                {| CaptionGenerator.chunk_size_seconds := 30;
                   CaptionGenerator.client := constant_client (Returned "[]" (JArr [])) |}
                (30000%Z, Finite (-20)) 60 0%nat "[]" eq_refl eq_refl)
    as [Hvp [Hcg _]].
  split; [exact Hvp | exact Hcg].
Defined.

(** C10 as it is written fails on the text of the segment: for the response
    text [" []"] (a space before the brackets) the text of the segment is
    ["[]"], not the response text. *)
Lemma transcribe_empty_list_text_counterexample :
  let response_text := " []"%string in
  let vp := {| VideoProcessor.chunk_size_seconds := 30;
               VideoProcessor.client :=
                 constant_client (Returned response_text (JArr [])) |} in
  let audio_chunk : AudioSegment := (30000%Z, Finite (-20)) in
  map text (fst (VideoProcessor._transcribe_audio_chunk vp audio_chunk 0 0%nat))
  = [JStr "[]"] /\
  JStr "[]" <> JStr response_text.
Proof.
  cbv zeta. split; [vm_compute; reflexivity | discriminate].
Qed.

(** ** The gap analyzer *)

Section Gaps.
Context `{Pydub}.
Variable self : VideoProcessor.t.

Lemma classify_gap_some (start_time end_time : Q) (r : response) (segment : Segment) :
  VideoProcessor.classify_gap start_time end_time r = Some segment ->
  start segment = start_time /\ end_ segment = end_time /\
  exists tx ty, classified r tx ty /\ text segment = tx /\ type segment = Some ty.
Proof.
  unfold VideoProcessor.classify_gap.
  destruct r as [e | response_text json_data]; [discriminate |].
  destruct json_data as [| b | x | s | items | fields]; try discriminate.
  destruct (truthy (JObj fields) && has_key "type" fields && has_key "text" fields);
    [| discriminate].
  destruct (lookup "text" fields) as [tx |] eqn:Htx; [| discriminate].
  destruct (lookup "type" fields) as [ty |] eqn:Hty; [| discriminate].
  intro Hseg. injection Hseg as <-. simpl.
  split; [reflexivity | split; [reflexivity |]].
  exists tx, ty. split; [| split; reflexivity].
  exists response_text, fields. auto.
Qed.

Lemma classify_gap_classified (start_time end_time : Q) (r : response) (tx ty : jval) :
  classified r tx ty ->
  VideoProcessor.classify_gap start_time end_time r
  = Some {| text := tx; start := start_time; end_ := end_time; type := Some ty |}.
Proof.
  intros [response_text [fields [-> [Htx Hty]]]].
  unfold VideoProcessor.classify_gap, has_key. rewrite Htx, Hty.
  destruct fields; [discriminate | reflexivity].
Qed.

(** C5, as amended. For every gap whose audio is below the silence threshold
    of -50 dBFS: when it lasts at most 3 seconds, [_analyze_audio_gap]
    returns no segment and does not call the service; when it lasts longer,
    it returns a segment that spans the gap, with the text and the type that
    the service gave when its answer classifies the gap, and otherwise (the
    call raised, or no dict with ["type"] and ["text"] was extracted) with
    the text ["[Silence]"] and the type ["silence"]. *)
Theorem analyze_silent_gap (gap_audio : AudioSegment) (start_time end_time : Q)
  (n : nat) :
  dB_ltb (dBFS gap_audio) (-50) = true ->
  let result :=
    VideoProcessor._analyze_audio_gap self gap_audio start_time end_time n in
  let answer := VideoProcessor.client self n in
  (end_time - start_time <= 3 -> result = (None, n)) /\
  (3 < end_time - start_time ->
   exists segment,
     result = (Some segment, S n) /\
     start segment = start_time /\ end_ segment = end_time /\
     (forall tx ty, classified answer tx ty ->
                    text segment = tx /\ type segment = Some ty) /\
     ((forall tx ty, ~ classified answer tx ty) ->
      text segment = JStr "[Silence]" /\ type segment = Some (JStr "silence"))).
Proof.
  intros Hsilent result answer. subst result answer.
  unfold VideoProcessor._analyze_audio_gap. rewrite Hsilent. cbn [negb orb].
  split; intro Hdur.
  - apply Qltb_ge in Hdur. now rewrite Hdur.
  - apply Qltb_lt in Hdur. rewrite Hdur.
    unfold bindM, generate_content.
    destruct (VideoProcessor.classify_gap start_time end_time
                (VideoProcessor.client self n)) as [segment |] eqn:Hclass.
    + destruct (classify_gap_some _ _ _ _ Hclass) as [Hs [He [tx [ty [Hc [Htx Hty]]]]]].
      exists segment. split; [reflexivity |].
      split; [exact Hs | split; [exact He |]].
      split.
      * intros tx' ty' Hc'.
        rewrite (classify_gap_classified start_time end_time _ _ _ Hc') in Hclass.
        injection Hclass as <-. split; reflexivity.
      * intro Hnone. exfalso. exact (Hnone _ _ Hc).
    + eexists. split; [reflexivity |].
      split; [reflexivity | split; [reflexivity |]].
      split.
      * intros tx ty Hc.
        rewrite (classify_gap_classified start_time end_time _ _ _ Hc) in Hclass.
        discriminate.
      * intros _. split; reflexivity.
Qed.

End Gaps.

Lemma analyze_silent_gap_4s :
  let self := {| VideoProcessor.chunk_size_seconds := 30;
                 VideoProcessor.client := failing_client |} in
  let gap_audio : AudioSegment := (4000%Z, Finite (-60)) in
  VideoProcessor._analyze_audio_gap self gap_audio 10 14 0%nat
  = (Some {| text := JStr "[Silence]"; start := 10; end_ := 14;
             type := Some (JStr "silence") |}, 1%nat).
Proof.
  cbv zeta.
  destruct (@analyze_silent_gap uniform_audio
              {| VideoProcessor.chunk_size_seconds := 30;
                 VideoProcessor.client := failing_client |}
              (4000%Z, Finite (-60)) 10 14 0%nat eq_refl) as [_ Hlong].
  destruct (Hlong eq_refl) as [segment [Hrun _]].
  vm_compute in Hrun. injection Hrun as <-. vm_compute. reflexivity.
Defined.

(** C5 as it is written fails on the kind of the segment: for a gap of 4
    seconds at -60 dBFS that the service classifies as music, the segment
    that [_analyze_audio_gap] returns is of type ["music"], not a silence
    segment. *)
Lemma analyze_silent_gap_counterexample :
  let answer :=
    Returned "..."
      (JObj [("type", JStr "music"); ("text", JStr "[♪ Soft music ♪]")]%string) in
  let self := {| VideoProcessor.chunk_size_seconds := 30;
                 VideoProcessor.client := constant_client answer |} in
  let gap_audio : AudioSegment := (4000%Z, Finite (-60)) in
  dB_ltb (dBFS gap_audio) (-50) = true /\
  3 < 14 - 10 /\
  fst (VideoProcessor._analyze_audio_gap self gap_audio 10 14 0%nat)
  = Some {| text := JStr "[♪ Soft music ♪]"; start := 10; end_ := 14;
            type := Some (JStr "music") |} /\
  Some (JStr "music") <> Some (JStr "silence").
Proof.
  cbv zeta. split; [reflexivity |]. split; [reflexivity |].
  split; [vm_compute; reflexivity | discriminate].
Qed.

Section GapFilling.
Context `{Pydub}.
Variable self : VideoProcessor.t.

Lemma analyze_audio_gap_slot (gap_audio : AudioSegment) (gap_from gap_to : Q)
  (n : nat) :
  exists o : option Segment,
    VideoProcessor._analyze_audio_gap self gap_audio gap_from gap_to n
    = (o, (n + List.length (opt_list o))%nat) /\
    forall segment, o = Some segment ->
                    start segment = gap_from /\ end_ segment = gap_to.
Proof.
  unfold VideoProcessor._analyze_audio_gap.
  destruct (negb _ || Qltb 3 (gap_to - gap_from)).
  - unfold bindM, generate_content.
    destruct (VideoProcessor.classify_gap gap_from gap_to
                (VideoProcessor.client self n)) as [segment |] eqn:Hclass.
    + exists (Some segment). unfold ret. simpl.
      split; [f_equal; lia |].
      intros s Hs. injection Hs as <-.
      destruct (classify_gap_some _ _ _ _ Hclass) as [Hs [He _]]. auto.
    + eexists (Some _). unfold ret. simpl.
      split; [f_equal; lia |].
      intros s Hs. injection Hs as <-. split; reflexivity.
  - exists None. unfold ret. simpl. split; [f_equal; lia | discriminate].
Qed.

(** What one gap check appends, and how many calls it makes. *)
Lemma check_gap_slot (audio : AudioSegment) (start_time gap_from gap_to : Q)
  (filled_segments : list Segment) (n : nat) :
  exists g,
    gap_slot gap_from gap_to g /\
    VideoProcessor.check_gap self audio start_time gap_from gap_to
                             filled_segments n
    = (filled_segments ++ g, (n + List.length g)%nat).
Proof.
  unfold VideoProcessor.check_gap.
  destruct (Qltb 1 (gap_to - gap_from)) eqn:Hgap.
  - apply Qltb_lt in Hgap. unfold bindM.
    match goal with
    | |- context [VideoProcessor._analyze_audio_gap self ?a _ _ _] =>
        destruct (analyze_audio_gap_slot a gap_from gap_to n) as [o [Hrun Hspan]]
    end.
    rewrite Hrun. exists (opt_list o). split; [| reflexivity].
    destruct o as [segment |]; [| now left].
    right. split; [exact Hgap |].
    exists segment. split; [reflexivity | now apply Hspan].
  - exists []. split; [now left |].
    unfold ret. rewrite app_nil_r. f_equal. simpl. lia.
Qed.

Lemma fill_loop_slots (audio : AudioSegment) (start_time : Q)
  (remaining : list Segment) :
  forall (filled_segments : list Segment) (current_time : Q) (n : nat),
  exists out t,
    gaps_filled current_time remaining out t /\
    VideoProcessor.fill_loop self audio start_time remaining filled_segments
                             current_time n
    = ((filled_segments ++ out, t),
       (n + (List.length out - List.length remaining))%nat) /\
    (List.length remaining <= List.length out)%nat.
Proof.
  induction remaining as [| segment rest IH]; intros filled t0 n.
  - exists [], t0. split; [constructor |].
    simpl. unfold ret. rewrite app_nil_r. split; [f_equal; lia | lia].
  - cbn [VideoProcessor.fill_loop]. unfold bindM at 1.
    destruct (check_gap_slot audio start_time t0 (start segment) filled n)
      as [g [Hslot Hrun]].
    rewrite Hrun.
    destruct (IH ((filled ++ g) ++ [segment]) (end_ segment)
                 (n + List.length g)%nat) as [out [t [Hfilled [Hloop Hlen]]]].
    rewrite Hloop.
    exists (g ++ segment :: out), t.
    split; [constructor; assumption |].
    rewrite !length_app. cbn [List.length].
    split; [| lia].
    f_equal; [| lia]. f_equal.
    rewrite <- !app_assoc. reflexivity.
Qed.

Lemma gap_slot_small (gap_from gap_to : Q) (g : list Segment) :
  gap_slot gap_from gap_to g -> gap_to - gap_from <= 1 -> g = [].
Proof.
  intros [-> | [Hlong _]] Hsmall; [reflexivity | lra].
Qed.

Lemma gaps_filled_small (t t' end_time : Q) (segments out : list Segment) :
  gaps_filled t segments out t' ->
  Forall (fun d => d <= 1) (gaps t segments end_time) ->
  out = segments /\ end_time - t' <= 1.
Proof.
  induction 1 as [t | t t' segment rest g out Hslot Hrest IH]; intro Hsmall.
  - inversion Hsmall; subst. auto.
  - simpl in Hsmall. inversion Hsmall as [| d ds Hd Hds]; subst.
    destruct (IH Hds) as [-> Hend].
    rewrite (gap_slot_small _ _ _ Hslot Hd). auto.
Qed.

(** C6. [_detect_and_fill_gaps] returns the draft segments, sorted by
    ["start"], with at most one segment put before the first, between two
    that follow one another and after the last, and only where the gap is
    longer than 1.0 second: a gap of at most 1.0 second (0.5 second, say)
    gets nothing.  When no gap is longer than 1.0 second, the sorted draft
    segments are returned as they are and the service is not called. *)
Theorem detect_and_fill_gaps_slots (audio : AudioSegment)
  (segments : list Segment) (start_time end_time : Q) (n : nat) :
  let sorted_segments := py_sorted start segments in
  let result :=
    VideoProcessor._detect_and_fill_gaps self audio segments
                                         start_time end_time n in
  interleaved start_time sorted_segments end_time (fst result) /\
  snd result
  = (n + (List.length (fst result) - List.length sorted_segments))%nat /\
  (Forall (fun d => d <= 1) (gaps start_time sorted_segments end_time) ->
   result = (sorted_segments, n)).
Proof.
  intros sorted_segments result. subst result.
  unfold VideoProcessor._detect_and_fill_gaps. fold sorted_segments.
  destruct sorted_segments as [| first rest].
  { simpl. split; [reflexivity | split; [lia | reflexivity]]. }
  unfold bindM.
  destruct (check_gap_slot audio start_time start_time (start first) [] n)
    as [g0 [Hslot0 Hrun0]].
  rewrite Hrun0.
  destruct (fill_loop_slots audio start_time rest (([] ++ g0) ++ [first])
              (end_ first) (n + List.length g0)%nat)
    as [out [t [Hfilled [Hloop Hlen]]]].
  rewrite Hloop.
  destruct (check_gap_slot audio start_time t end_time
              ((([] ++ g0) ++ [first]) ++ out)
              (n + List.length g0 + (List.length out - List.length rest))%nat)
    as [g1 [Hslot1 Hrun1]].
  rewrite Hrun1. cbn [fst snd].
  assert (Hshape : ((([] ++ g0) ++ [first]) ++ out) ++ g1
                   = (g0 ++ first :: out) ++ g1).
  { simpl. rewrite <- !app_assoc. reflexivity. }
  rewrite Hshape.
  assert (Hbody : gaps_filled start_time (first :: rest) (g0 ++ first :: out) t)
    by (constructor; assumption).
  split; [| split].
  - exists (g0 ++ first :: out), t, g1. auto.
  - rewrite !length_app. cbn [List.length]. lia.
  - intro Hsmall.
    destruct (gaps_filled_small _ _ end_time _ _ Hbody Hsmall) as [Hout Hend].
    pose proof (gap_slot_small _ _ _ Hslot1 Hend) as ->.
    rewrite app_nil_r, Hout. f_equal.
    assert (Hlens : List.length (g0 ++ first :: out) = List.length (first :: rest))
      by now rewrite Hout.
    rewrite length_app in Hlens. cbn [List.length] in *. lia.
Qed.

End GapFilling.

Lemma detect_and_fill_gaps_half_second :
  let self := {| VideoProcessor.chunk_size_seconds := 30;
                 VideoProcessor.client := failing_client |} in
  let audio : AudioSegment := (5000%Z, Finite (-20)) in
  let segments := [speech "world" 2.5 4.5; speech "hello" 0.5 2] in
  VideoProcessor._detect_and_fill_gaps self audio segments 0 5 0%nat
  = ([speech "hello" 0.5 2; speech "world" 2.5 4.5], 0%nat).
Proof.
  cbv zeta.
  refine (proj2 (proj2 (@detect_and_fill_gaps_slots uniform_audio _
                          (5000%Z, Finite (-20))
                          [speech "world" 2.5 4.5; speech "hello" 0.5 2]
                          0 5 0%nat)) _).
  repeat constructor; vm_compute; discriminate.
Defined.

(** ** Timestamps *)

Lemma Qfloor_unique (y : Q) (z : Z) :
  inject_Z z <= y -> y < inject_Z z + 1 -> Qfloor y = z.
Proof.
  intros Hlo Hhi.
  pose proof (Qfloor_le y) as Hf1. pose proof (Qlt_floor y) as Hf2.
  rewrite inject_Z_succ in Hf2.
  assert (H1 : (Qfloor y < z + 1)%Z) by (rewrite Zlt_Qlt, inject_Z_succ; lra).
  assert (H2 : (z < Qfloor y + 1)%Z) by (rewrite Zlt_Qlt, inject_Z_succ; lra).
  lia.
Qed.

Lemma py_int_inject (z : Z) : py_int (inject_Z z) = z.
Proof. unfold py_int. simpl. apply Z.quot_1_r. Qed.

Lemma inject_Z_pos (c : Z) : (0 < c)%Z -> 0 < inject_Z c.
Proof. intro Hc. change 0 with (inject_Z 0). now rewrite <- Zlt_Qlt. Qed.

(** Floor division of a rational by a positive integer. *)
Lemma Qfloor_div (x : Q) (c : Z) :
  (0 < c)%Z -> Qfloor (x / inject_Z c) = (Qfloor x / c)%Z.
Proof.
  intro Hc. pose proof (inject_Z_pos c Hc) as Hcq. apply Qfloor_unique.
  - pose proof (Qfloor_le x) as Hf1.
    pose proof (Z.mul_div_le (Qfloor x) c Hc) as Hz.
    rewrite Zle_Qle, inject_Z_mult in Hz.
    apply Qle_shift_div_l; [exact Hcq |].
    rewrite Qmult_comm. lra.
  - pose proof (Qlt_floor x) as Hf2. rewrite inject_Z_succ in Hf2.
    pose proof (Z.mul_succ_div_gt (Qfloor x) c Hc) as Hz.
    assert (Hz' : (Qfloor x + 1 <= c * (Qfloor x / c + 1))%Z) by lia.
    rewrite Zle_Qle, inject_Z_mult, !inject_Z_succ in Hz'.
    apply Qlt_shift_div_r; [exact Hcq |].
    rewrite Qmult_comm. lra.
Qed.

Lemma Qfloor_sub_Z (y : Q) (z : Z) : Qfloor (y - inject_Z z) = (Qfloor y - z)%Z.
Proof.
  pose proof (Qfloor_le y) as Hf1. pose proof (Qlt_floor y) as Hf2.
  rewrite inject_Z_succ in Hf2.
  apply Qfloor_unique; unfold Z.sub; rewrite inject_Z_plus, inject_Z_opp; lra.
Qed.

(** [divmod(x, c)] for a positive integer [c], through the integer part of
    [x]. *)
Lemma py_divmod_floor (x : Q) (c : Z) :
  (0 < c)%Z ->
  fst (py_divmod x (inject_Z c)) = inject_Z (Qfloor x / c) /\
  Qfloor (snd (py_divmod x (inject_Z c))) = (Qfloor x mod c)%Z /\
  snd (py_divmod x (inject_Z c)) - inject_Z (Qfloor x mod c)
  == x - inject_Z (Qfloor x).
Proof.
  intro Hc. unfold py_divmod. cbn [fst snd]. rewrite (Qfloor_div x c Hc).
  set (q := (Qfloor x / c)%Z).
  assert (Hmod : (Qfloor x mod c = Qfloor x - q * c)%Z)
    by (unfold q; rewrite Z.mod_eq by lia; lia).
  assert (Hr : x - inject_Z q * inject_Z c == x - inject_Z (q * c))
    by (rewrite inject_Z_mult; reflexivity).
  split; [reflexivity |]. split.
  - rewrite Hr, Qfloor_sub_Z. lia.
  - rewrite Hmod. unfold Z.sub. rewrite inject_Z_plus, inject_Z_opp, inject_Z_mult.
    ring.
Qed.

Lemma py_int_nonneg_floor (y : Q) (z : Z) :
  Qfloor y = z -> (0 <= z)%Z -> py_int y = z.
Proof.
  intros Hy Hz. rewrite py_int_floor; [exact Hy |].
  pose proof (Qlt_floor y) as Hf. rewrite Hy, inject_Z_succ in Hf.
  rewrite Zle_Qle in Hz. change (inject_Z 0) with 0 in Hz.
  destruct (Qlt_le_dec y 0) as [Hneg | Hnn]; [| exact Hnn].
  exfalso. pose proof (Qfloor_le y) as Hle. rewrite Hy in Hle.
  lra.
Qed.

Lemma format_timestamp_fields (sep : string) (seconds : Q) :
  let whole := Qfloor seconds in
  format_timestamp sep seconds
  = (fmt_d 2 (whole / 3600)%Z ++ ":" ++ fmt_d 2 (whole mod 3600 / 60)%Z ++ ":"
     ++ fmt_d 2 (whole mod 60)%Z ++ sep
     ++ fmt_d 3 (Qfloor ((seconds - inject_Z whole) * 1000)))%string.
Proof.
  intro whole. unfold format_timestamp.
  change (3600 : Q) with (inject_Z 3600). change (60 : Q) with (inject_Z 60).
  destruct (py_divmod_floor seconds 3600 eq_refl) as [Hh [Hr Hrfrac]].
  fold whole in Hh, Hr, Hrfrac.
  destruct (py_divmod seconds (inject_Z 3600)) as [hours remainder].
  cbn [fst snd] in Hh, Hr, Hrfrac.
  destruct (py_divmod_floor remainder 60 eq_refl) as [Hm [Hs Hsfrac]].
  rewrite Hr in Hm, Hs, Hsfrac.
  destruct (py_divmod remainder (inject_Z 60)) as [minutes secs].
  cbn [fst snd] in Hm, Hs, Hsfrac.
  assert (H60 : ((whole mod 3600) mod 60 = whole mod 60)%Z).
  { apply Z.mod_unique with (q := (whole / 3600 * 60 + whole mod 3600 / 60)%Z).
    - left. apply Z.mod_pos_bound. lia.
    - pose proof (Z.div_mod whole 3600 ltac:(lia)).
      pose proof (Z.div_mod (whole mod 3600) 60 ltac:(lia)). lia. }
  rewrite H60 in Hs, Hsfrac.
  subst hours minutes. rewrite !py_int_inject.
  assert (Hsec : py_int secs = (whole mod 60)%Z).
  { apply py_int_nonneg_floor; [exact Hs |]. apply Z.mod_pos_bound. lia. }
  rewrite Hsec.
  assert (Hfrac : py_mod secs 1 * 1000 == (seconds - inject_Z whole) * 1000).
  { unfold py_mod. change (1 : Q) with (inject_Z 1).
    destruct (py_divmod_floor secs 1 eq_refl) as [_ [_ Hone]].
    rewrite Hs in Hone. rewrite Z.mod_1_r in Hone.
    change (inject_Z 0) with 0 in Hone. 
    assert (Hx : snd (py_divmod secs (inject_Z 1)) == seconds - inject_Z whole).
    { lra. }
    rewrite Hx. reflexivity. }
  assert (Hms : py_int (py_mod secs 1 * 1000)
                = Qfloor ((seconds - inject_Z whole) * 1000)).
  { rewrite <- Hfrac. apply py_int_floor. rewrite Hfrac.
    pose proof (Qfloor_le seconds). fold whole in H. lra. }
  rewrite Hms. reflexivity.
Qed.

Lemma timestamp_field_ranges (seconds : Q) :
  let whole := Qfloor seconds in
  (0 <= whole mod 3600 / 60 < 60)%Z /\
  (0 <= whole mod 60 < 60)%Z /\
  (0 <= Qfloor ((seconds - inject_Z whole) * 1000) < 1000)%Z.
Proof.
  intro whole.
  pose proof (Z.mod_pos_bound whole 3600 eq_refl) as H3600.
  pose proof (Z.mod_pos_bound whole 60 eq_refl) as H60.
  split; [| split; [exact H60 |]].
  - split; [apply Z.div_pos; lia | apply Z.div_lt_upper_bound; lia].
  - pose proof (Qfloor_le seconds) as Hlo.
    pose proof (Qlt_floor seconds) as Hhi.
    rewrite inject_Z_succ in Hhi. fold whole in Hlo, Hhi.
    set (y := (seconds - inject_Z whole) * 1000).
    assert (Hy : 0 <= y /\ y < 1000) by (unfold y; split; lra).
    pose proof (Qfloor_le y) as Hylo. pose proof (Qlt_floor y) as Hyhi.
    rewrite inject_Z_succ in Hyhi.
    split.
    + assert (Hz : (0 < Qfloor y + 1)%Z).
      { rewrite Zlt_Qlt, inject_Z_succ. change (inject_Z 0) with 0. lra. }
      lia.
    + rewrite Zlt_Qlt. change (inject_Z 1000) with 1000. lra.
Qed.

(** C9. [_format_srt_timestamp(3725.4)] is ["01:02:05,400"] and
    [_format_vtt_timestamp(0.0)] is ["00:00:00.000"], on exact numbers and on
    binary64 floats alike.  For every number of seconds the fields are the
    whole seconds divided by 3600, the remainder of that divided by 60, the
    whole seconds modulo 60, and the fraction of a second times 1000 cut to
    an integer below 1000; hours, minutes and seconds are written on two
    digits at least and the milliseconds on three, after a comma in SRT and
    after a period in VTT. *)
Theorem timestamp_test_vectors :
  _format_srt_timestamp 3725.4 = "01:02:05,400"%string /\
  _format_vtt_timestamp 0 = "00:00:00.000"%string /\
  Binary64._format_srt_timestamp 0x1.d1acccccccccdp+11%float
  = Some "01:02:05,400"%string /\
  Binary64._format_vtt_timestamp 0%float = Some "00:00:00.000"%string /\
  forall seconds : Q,
    let whole := Qfloor seconds in
    let hours := (whole / 3600)%Z in
    let minutes := (whole mod 3600 / 60)%Z in
    let secs := (whole mod 60)%Z in
    let millis := Qfloor ((seconds - inject_Z whole) * 1000) in
    _format_srt_timestamp seconds
    = (fmt_d 2 hours ++ ":" ++ fmt_d 2 minutes ++ ":" ++ fmt_d 2 secs ++ ","
       ++ fmt_d 3 millis)%string /\
    _format_vtt_timestamp seconds
    = (fmt_d 2 hours ++ ":" ++ fmt_d 2 minutes ++ ":" ++ fmt_d 2 secs ++ "."
       ++ fmt_d 3 millis)%string /\
    (0 <= minutes < 60)%Z /\ (0 <= secs < 60)%Z /\ (0 <= millis < 1000)%Z.
Proof.
  split; [vm_compute; reflexivity |].
  split; [vm_compute; reflexivity |].
  split; [vm_compute; reflexivity |].
  split; [vm_compute; reflexivity |].
  intros seconds whole hours minutes secs millis.
  split; [apply format_timestamp_fields |].
  split; [apply format_timestamp_fields |].
  apply timestamp_field_ranges.
Qed.

(** Where the exact reading of a float and binary64 part: the float nearest
    to 1.001 lies below it, and its milliseconds are cut to 000. *)
Remark timestamp_binary64_truncation :
  Binary64._format_srt_timestamp 0x1.004189374bc6ap+0%float
  = Some "00:00:01,000"%string /\
  _format_srt_timestamp 1.001 = "00:00:01,001"%string /\
  _format_srt_timestamp 59.9996 = "00:00:59,999"%string /\
  Binary64._format_srt_timestamp 0x1.dfff2e48e8a72p+5%float
  = Some "00:00:59,999"%string.
Proof.
  repeat split; vm_compute; reflexivity.
Qed.

(** ** Further properties of the fallback and of the whole loop *)

Lemma num_segments_ms (ms : Z) :
  (5000 <= ms)%Z -> num_segments (ms_to_sec ms) = (ms / 5000)%Z.
Proof.
  intro Hms. unfold num_segments.
  assert (Hq : ms_to_sec ms / segment_duration == inject_Z ms / inject_Z 5000).
  { unfold ms_to_sec, segment_duration. change (inject_Z 5000) with 5000. field. }
  assert (Hnn : 0 <= ms_to_sec ms / segment_duration).
  { rewrite Hq. apply Qle_shift_div_l; [reflexivity |].
    rewrite Qmult_0_l. change 0 with (inject_Z 0). rewrite <- Zle_Qle. lia. }
  rewrite (py_int_floor _ Hnn), Hq, <- Zdiv_Qdiv.
  assert (1 <= ms / 5000)%Z by (apply Z.div_le_lower_bound; lia).
  lia.
Qed.

Section FallbackCoverage.
Context `{PyBuiltins} `{Pydub}.

(** When the transcription call fails for a window that is shorter than five
    seconds, or a whole number of five-second spans long, the placeholders
    that [_transcribe_audio_chunk] returns are marked unavailable, cover the
    window exactly and do not overlap. *)
Theorem transcribe_fallback_covers (vp : VideoProcessor.t)
  (audio_chunk : AudioSegment) (start_time : Q) (n : nat) (e : exn) :
  VideoProcessor.client vp n = Raised e ->
  (0 < len audio_chunk)%Z ->
  ((len audio_chunk < 5000)%Z \/ exists k : Z, len audio_chunk = (5000 * k)%Z) ->
  let segments :=
    fst (VideoProcessor._transcribe_audio_chunk vp audio_chunk start_time n) in
  Forall unavailable segments /\
  covers (map span segments) start_time
         (start_time + ms_to_sec (len audio_chunk)) /\
  disjoint (map span segments).
Proof.
  intros Hraise Hpos Hshape segments. subst segments.
  rewrite (vp_transcribe_raised _ _ _ _ _ Hraise). cbn [fst].
  split; [apply fallback_segments_unavailable |].
  apply fallback_segments_cover.
  - apply (ms_to_sec_lt 0) in Hpos.
    assert (H0' : ms_to_sec 0 == 0) by (vm_compute; reflexivity).
    now rewrite H0' in Hpos.
  - destruct Hshape as [Hshort | [k Hk]].
    + left. apply (ms_to_sec_lt _ 5000) in Hshort.
      assert (H5 : ms_to_sec 5000 == 5) by (vm_compute; reflexivity).
      now rewrite H5 in Hshort.
    + right. exists k. rewrite Hk, ms_to_sec_scale, inject_Z_mult.
      change (inject_Z 5000) with 5000. ring.
Qed.

(** When the transcription call fails for a window of five seconds or more,
    the placeholders cover the window from its start up to the last whole
    multiple of five seconds of its length, and nothing after: what is left
    of the window past that multiple is in no segment. *)
Theorem transcribe_fallback_tail (vp : VideoProcessor.t)
  (audio_chunk : AudioSegment) (start_time : Q) (n : nat) (e : exn) :
  VideoProcessor.client vp n = Raised e ->
  (5000 <= len audio_chunk)%Z ->
  let segments :=
    fst (VideoProcessor._transcribe_audio_chunk vp audio_chunk start_time n) in
  let covered := inject_Z (len audio_chunk / 5000) * 5 in
  covers (map span segments) start_time (start_time + covered) /\
  covered <= ms_to_sec (len audio_chunk) /\
  forall t, start_time + covered <= t ->
            forall s, In s segments -> ~ within t (span s).
Proof.
  intros Hraise Hlong segments covered. subst segments covered.
  rewrite (vp_transcribe_raised _ _ _ _ _ Hraise). cbn [fst].
  rewrite <- (num_segments_ms _ Hlong).
  apply fallback_segments_tail.
  apply (ms_to_sec_le 5000) in Hlong.
  assert (H5 : ms_to_sec 5000 == 5) by (vm_compute; reflexivity).
  now rewrite H5 in Hlong.
Qed.

End FallbackCoverage.

Lemma transcribe_fallback_covers_3s :
  let vp := {| VideoProcessor.chunk_size_seconds := 30;
               VideoProcessor.client := failing_client |} in
  let audio_chunk : AudioSegment := (3000%Z, Finite (-20)) in
  let segments :=
    fst (VideoProcessor._transcribe_audio_chunk vp audio_chunk 60 0%nat) in
  Forall unavailable segments /\
  covers (map span segments) 60 (60 + ms_to_sec 3000) /\
  disjoint (map span segments).
Proof.
  cbv zeta.
  apply (@transcribe_fallback_covers plain_builtins uniform_audio _
           (3000%Z, Finite (-20)) 60 0%nat ServiceError);
    [reflexivity | reflexivity | left; reflexivity].
Defined.

Lemma transcribe_fallback_tail_12s :
  let vp := {| VideoProcessor.chunk_size_seconds := 30;
               VideoProcessor.client := failing_client |} in
  let audio_chunk : AudioSegment := (12000%Z, Finite (-20)) in
  let segments :=
    fst (VideoProcessor._transcribe_audio_chunk vp audio_chunk 0 0%nat) in
  let covered := inject_Z (12000 / 5000) * 5 in
  covers (map span segments) 0 (0 + covered) /\
  covered <= ms_to_sec 12000 /\
  forall t, 0 + covered <= t ->
            forall s, In s segments -> ~ within t (span s).
Proof.
  cbv zeta.
  apply (@transcribe_fallback_tail plain_builtins uniform_audio _
           (12000%Z, Finite (-20)) 0 0%nat ServiceError);
    [reflexivity | discriminate].
Defined.

(** A track of 65 seconds cut in windows of 30 seconds, with a service that
    transcribes the first two windows as one segment each and fails from the
    third window on: [_process_audio_chunks] makes four calls (three
    transcriptions and the timing request, no gap analysis) and returns three
    segments, over [[0,30)], [[30,60)] and [[60,65)], the last one a
    placeholder; together they cover [[0,65)]. *)
Theorem process_audio_chunks_65s :
  let self := {| VideoProcessor.chunk_size_seconds := 30;
                 VideoProcessor.client := two_then_failing |} in
  let audio : AudioSegment := (65000%Z, Finite (-20)) in
  exists s1 s2 s3,
    match VideoProcessor._process_audio_chunks self audio with
    | Ok run => run 0%nat = (Original [s1; s2; s3], 4%nat)
    | Raise _ => False
    end /\
    spans_are (map span [s1; s2; s3]) [(0, 30); (30, 60); (60, 65)] /\
    text s1 = JStr "hello" /\ text s2 = JStr "hello" /\ unavailable s3 /\
    covers (map span [s1; s2; s3]) 0 65.
Proof.
  cbv zeta. do 3 eexists.
  split; [vm_compute; reflexivity |].
  split; [repeat constructor; vm_compute; reflexivity |].
  split; [reflexivity |]. split; [reflexivity |].
  split; [eexists; reflexivity |].
  apply tiling_covers. cbn [map span start end_].
  repeat (apply tiling_cons; [vm_compute; reflexivity | vm_compute; reflexivity |]).
  apply tiling_nil. vm_compute. reflexivity.
Qed.

(** ** The chunking loop as a whole *)

Lemma tiling_app (a m b : Q) (l1 l2 : list (Q * Q)) :
  tiling a l1 m -> tiling m l2 b -> tiling a (l1 ++ l2) b.
Proof.
  induction 1 as [a m Ham | a m lo hi l1 Hlo Hlt Hl1 IH]; intro H2; simpl.
  - eapply tiling_ends; [symmetry; exact Ham | reflexivity | exact H2].
  - constructor; auto.
Qed.

Lemma tiling_lower (a b : Q) (l : list Segment) :
  tiling a (map span l) b -> Forall (fun x => a <= start x) l.
Proof.
  revert a. induction l as [| s l IH]; intros a Hl; [constructor |].
  inversion Hl as [| ? ? lo hi ivs Hlo Hlt Hrest]; subst.
  constructor; [rewrite <- Hlo; apply Qle_refl |].
  apply IH in Hrest. eapply Forall_impl; [| exact Hrest].
  intros x Hx. simpl in Hx. lra.
Qed.

(** Segments that follow one another are in order of start. *)
Lemma tiling_sorted (a b : Q) (l : list Segment) :
  tiling a (map span l) b -> StronglySorted by_start l.
Proof.
  revert a. induction l as [| s l IH]; intros a Hl; [constructor |].
  inversion Hl as [| ? ? lo hi ivs Hlo Hlt Hrest]; subst.
  constructor; [eapply IH; eauto |].
  apply tiling_lower in Hrest. eapply Forall_impl; [| exact Hrest].
  intros x Hx. unfold by_start, key_le. simpl in Hx. lra.
Qed.

(** Segments that follow one another from [a] to [b] leave no gap. *)
Lemma tiling_gaps (a b : Q) (l : list Segment) :
  tiling a (map span l) b -> Forall (fun d => d <= 1) (gaps a l b).
Proof.
  revert a. induction l as [| s l IH]; intros a Hl; simpl.
  - inversion Hl; subst. constructor; [lra | constructor].
  - inversion Hl as [| ? ? lo hi ivs Hlo Hlt Hrest]; subst.
    constructor; [lra | eapply IH; eauto].
Qed.

(** The windows of the loop, one by one: each starts at a multiple of the
    chunk size inside the track, and is a whole chunk long unless it is the
    one that ends the track. *)
Lemma chunk_windows_shape (duration_ms chunk_size_seconds : Z) (ws : list Window) :
  (0 < chunk_size_seconds)%Z ->
  chunk_windows duration_ms chunk_size_seconds = Ok ws ->
  Forall (fun w =>
            (0 <= start_ms w)%Z /\ (start_ms w < end_ms w)%Z /\
            (end_ms w <= duration_ms)%Z /\
            (start_ms w mod (chunk_size_seconds * 1000) = 0)%Z /\
            (end_ms w <= start_ms w + chunk_size_seconds * 1000)%Z /\
            (end_ms w = start_ms w + chunk_size_seconds * 1000 \/
             end_ms w = duration_ms)%Z) ws.
Proof.
  intros HC. unfold chunk_windows, py_range.
  set (c := (chunk_size_seconds * 1000)%Z).
  assert (Hc : (0 < c)%Z) by (unfold c; lia).
  destruct (Z.eqb_spec c 0) as [Hz | _]; [lia |].
  simpl bind. intro Hrun. injection Hrun as <-.
  apply Forall_forall. intros w Hw.
  apply in_map_iff in Hw. destruct Hw as [s [<- Hs]].
  apply in_map_iff in Hs. destruct Hs as [i [<- Hi]].
  apply in_seq in Hi. cbn [start_ms end_ms].
  unfold range_len in Hi.
  destruct (Z.ltb_spec 0 c) as [_ | Hbad]; [| lia].
  destruct (Z.leb_spec duration_ms 0) as [Hempty | Hpos]; [simpl in Hi; lia |].
  rewrite Z.sub_0_r in Hi.
  pose proof (Z.div_mod (duration_ms - 1) c ltac:(lia)) as Hdm.
  pose proof (Z.mod_pos_bound (duration_ms - 1) c Hc) as Hmod.
  assert (Hq : (0 <= (duration_ms - 1) / c)%Z) by (apply Z.div_pos; lia).
  assert (Hic : (Z.of_nat i <= (duration_ms - 1) / c)%Z) by lia.
  assert (Hlt : (Z.of_nat i * c < duration_ms)%Z) by nia.
  split; [nia |]. split; [lia |]. split; [lia |].
  split; [apply Z.mod_divide; [lia | exists (Z.of_nat i); lia] |].
  split; lia.
Qed.

(** The number of windows is the track length divided by the chunk size,
    rounded up. *)
Lemma chunk_windows_count (duration_ms chunk_size_seconds : Z) (ws : list Window) :
  (0 <= duration_ms)%Z -> (0 < chunk_size_seconds)%Z ->
  chunk_windows duration_ms chunk_size_seconds = Ok ws ->
  Z.of_nat (List.length ws)
  = ((duration_ms + chunk_size_seconds * 1000 - 1) / (chunk_size_seconds * 1000))%Z.
Proof.
  intros HD HC. unfold chunk_windows, py_range.
  set (c := (chunk_size_seconds * 1000)%Z).
  assert (Hc : (0 < c)%Z) by (unfold c; lia).
  destruct (Z.eqb_spec c 0) as [Hz | _]; [lia |].
  simpl bind. intro Hrun. injection Hrun as <-.
  rewrite !length_map, length_seq. unfold range_len.
  destruct (Z.ltb_spec 0 c) as [_ | Hbad]; [| lia].
  destruct (Z.leb_spec duration_ms 0) as [Hempty | Hpos].
  - assert (duration_ms = 0)%Z by lia. subst duration_ms.
    rewrite Z.div_small by lia. reflexivity.
  - rewrite Z.sub_0_r.
    replace (duration_ms + c - 1)%Z with (duration_ms - 1 + 1 * c)%Z by lia.
    rewrite Z.div_add by lia.
    rewrite Z2Nat.id; [reflexivity |].
    assert (0 <= (duration_ms - 1) / c)%Z by (apply Z.div_pos; lia). lia.
Qed.

(** The placeholders of a window that is shorter than five seconds, or a
    whole number of five-second spans long, follow one another from the start
    of the window to its end. *)
Lemma fallback_segments_window (ty : option jval) (start_time duration_sec : Q) :
  0 < duration_sec ->
  (duration_sec < 5 \/ exists k : Z, duration_sec == inject_Z k * 5) ->
  tiling start_time (map span (fallback_segments ty start_time duration_sec))
         (start_time + duration_sec).
Proof.
  intros Hpos Hshape.
  pose proof (fallback_segments_tiling ty start_time _ Hpos) as Htiling.
  eapply tiling_ends; [reflexivity | | exact Htiling].
  pose proof (num_segments_spec _ Hpos) as Hnum.
  remember (num_segments duration_sec) as N eqn:HeqN. clear HeqN.
  destruct Hnum as [[Hshort ->] | [Hlong [HN [Hle Hlt]]]].
  - rewrite Q.min_r; [reflexivity |]. change (inject_Z 1) with 1. lra.
  - destruct Hshape as [Hshort | [k Hk]]; [lra |].
    assert (Hkn : k = N).
    { assert (H1 : (N <= k)%Z) by (rewrite Zle_Qle; lra).
      assert (H2 : (k < N + 1)%Z) by (rewrite Zlt_Qlt, inject_Z_succ; lra).
      lia. }
    subst k. rewrite Q.min_l; [| lra]. now rewrite Hk.
Qed.

Lemma placeholder_friendly_sec (ms : Z) :
  (0 < ms)%Z -> placeholder_friendly ms ->
  0 < ms_to_sec ms /\
  (ms_to_sec ms < 5 \/ exists k : Z, ms_to_sec ms == inject_Z k * 5).
Proof.
  intros Hpos Hfr.
  assert (H0 : ms_to_sec 0 == 0) by (vm_compute; reflexivity).
  assert (H5 : ms_to_sec 5000 == 5) by (vm_compute; reflexivity).
  split.
  - apply (ms_to_sec_lt 0) in Hpos. now rewrite H0 in Hpos.
  - destruct Hfr as [Hshort | Hmul].
    + left. apply (ms_to_sec_lt _ 5000) in Hshort. now rewrite H5 in Hshort.
    + right. exists (ms / 5000)%Z.
      pose proof (Z.div_mod ms 5000 ltac:(lia)) as Hdm. rewrite Hmul in Hdm.
      rewrite Hdm at 1. rewrite Z.add_0_r, ms_to_sec_scale, inject_Z_mult.
      change (inject_Z 5000) with 5000. ring.
Qed.

(** With a chunk size that is a multiple of five seconds, every window of the
    loop is friendly to the placeholders as soon as the last one is. *)
Lemma chunk_windows_friendly (duration_ms chunk_size_seconds : Z) (ws : list Window) :
  (0 < chunk_size_seconds)%Z ->
  (chunk_size_seconds mod 5 = 0)%Z ->
  (duration_ms mod 5000 = 0 \/
   duration_ms mod (chunk_size_seconds * 1000) < 5000)%Z ->
  chunk_windows duration_ms chunk_size_seconds = Ok ws ->
  Forall (fun w =>
            (0 <= start_ms w)%Z /\ (end_ms w <= duration_ms)%Z /\
            placeholder_friendly (end_ms w - start_ms w)) ws.
Proof.
  intros HC H5 Hlast Hws.
  pose proof (chunk_windows_shape _ _ _ HC Hws) as Hshape.
  eapply Forall_impl; [| exact Hshape].
  intros w [Hnn [Hlt [Hle [Hmod [Hwidth Hend]]]]]. cbv beta.
  split; [exact Hnn | split; [exact Hle |]].
  set (c := (chunk_size_seconds * 1000)%Z) in *.
  assert (Hc : (0 < c)%Z) by (unfold c; lia).
  assert (Hc5 : exists m, c = (m * 5000)%Z).
  { apply Z.mod_divide in H5; [| lia]. destruct H5 as [m Hm].
    exists m. unfold c. lia. }
  destruct (Z.eq_dec (end_ms w - start_ms w) c) as [Hw | Hw].
  - right. rewrite Hw. destruct Hc5 as [m ->]. apply Z.mod_mul. lia.
  - assert (Hends : end_ms w = duration_ms) by lia.
    apply Z.mod_divide in Hmod; [| lia]. destruct Hmod as [k Hk].
    destruct Hlast as [Hd5 | Hdc].
    + right. apply Z.mod_divide in Hd5; [| lia]. destruct Hd5 as [d Hd].
      destruct Hc5 as [m Hm]. apply Z.mod_divide; [lia |].
      exists (d - k * m)%Z. lia.
    + left.
      assert (Hr : (end_ms w - start_ms w = duration_ms mod c)%Z).
      { apply Z.mod_unique with (q := k); [lia | lia]. }
      lia.
Qed.

Section WholeLoop.
Context `{PyBuiltins} `{Pydub}.

Lemma cg_process_windows_calls (cg : CaptionGenerator.t) (audio : AudioSegment)
  (ws : list Window) :
  forall (transcript_segments : list Segment) (n : nat),
  exists out,
    CaptionGenerator.process_windows cg audio ws transcript_segments n
    = ((transcript_segments ++ out)%list, (n + List.length ws)%nat) /\
    (List.length ws <= List.length out)%nat.
Proof.
  induction ws as [| w ws IH]; intros acc n.
  - exists []. simpl. unfold ret. rewrite app_nil_r.
    split; [f_equal; lia | lia].
  - cbn [CaptionGenerator.process_windows]. unfold bindM at 1.
    destruct (CaptionGenerator._transcribe_audio_chunk cg
                (slice audio (start_ms w) (end_ms w)) (start_sec w) n)
      as [segs n1] eqn:Hrun.
    assert (Hn1 : n1 = S n).
    { unfold CaptionGenerator._transcribe_audio_chunk, bindM, generate_content, ret
        in Hrun. now injection Hrun as _ <-. }
    pose proof (cg_transcribe_nonempty cg (slice audio (start_ms w) (end_ms w))
                  (start_sec w) n) as Hne.
    rewrite Hrun in Hne. cbn [fst] in Hne.
    destruct (IH (acc ++ segs)%list n1) as [out [Hloop Hlen]].
    rewrite Hloop. exists (segs ++ out)%list.
    rewrite app_assoc, length_app. cbn [List.length].
    split; [f_equal; lia | lia].
Qed.

(** For any answers of the service, [CaptionGenerator._process_audio_chunks]
    calls it exactly once per window, that is the track length divided by the
    chunk size, rounded up, and returns at least one segment per window. *)
Theorem cg_process_audio_chunks_calls (cg : CaptionGenerator.t)
  (audio : AudioSegment) :
  (0 <= len audio)%Z ->
  (0 < CaptionGenerator.chunk_size_seconds cg)%Z ->
  let chunk_size_ms := (CaptionGenerator.chunk_size_seconds cg * 1000)%Z in
  let windows := Z.to_nat ((len audio + chunk_size_ms - 1) / chunk_size_ms) in
  exists run,
    CaptionGenerator._process_audio_chunks cg audio = Ok run /\
    forall n : nat,
      snd (run n) = (n + windows)%nat /\
      (windows <= List.length (fst (run n)))%nat.
Proof.
  intros HD HC chunk_size_ms windows.
  unfold CaptionGenerator._process_audio_chunks.
  destruct (chunk_windows (len audio) (CaptionGenerator.chunk_size_seconds cg))
    as [ws | e] eqn:Hws.
  - pose proof (chunk_windows_count _ _ _ HD HC Hws) as Hcount.
    fold chunk_size_ms in Hcount.
    assert (Hk : windows = List.length ws) by (unfold windows; lia).
    simpl bind. eexists. split; [reflexivity |].
    intro n. destruct (cg_process_windows_calls cg audio ws [] n) as [out [Hrun Hlen]].
    rewrite Hrun. cbn [fst snd app]. rewrite Hk. split; [reflexivity | exact Hlen].
  - exfalso. unfold chunk_windows, py_range in Hws.
    destruct (Z.eqb_spec (CaptionGenerator.chunk_size_seconds cg * 1000) 0);
      [lia | discriminate].
Qed.

(** The segments that a failed call leaves for a window inside the clip. *)
Lemma failed_window_tiling (ty : option jval) (audio : AudioSegment) (w : Window) :
  slices_have_length audio ->
  (0 <= start_ms w)%Z -> (start_ms w < end_ms w)%Z -> (end_ms w <= len audio)%Z ->
  placeholder_friendly (end_ms w - start_ms w) ->
  tiling (start_sec w)
         (map span (fallback_segments ty (start_sec w)
                      (ms_to_sec (len (slice audio (start_ms w) (end_ms w))))))
         (end_sec w).
Proof.
  intros Hlaw Hnn Hlt Hle Hfr.
  rewrite (Hlaw _ _ Hnn (Z.lt_le_incl _ _ Hlt) Hle).
  assert (Hw : (0 < end_ms w - start_ms w)%Z) by lia.
  destruct (placeholder_friendly_sec _ Hw Hfr) as [Hpos Hshape].
  eapply tiling_ends; [reflexivity | | apply fallback_segments_window; eassumption].
  unfold start_sec, end_sec. rewrite !ms_to_sec_scale.
  unfold Z.sub. rewrite inject_Z_plus, inject_Z_opp. ring.
Qed.

Lemma cg_process_windows_failing (cg : CaptionGenerator.t) (audio : AudioSegment)
  (a b : Z) (ws : list Window) :
  slices_have_length audio ->
  (forall n, exists e, CaptionGenerator.client cg n = Raised e) ->
  tiles a ws b ->
  Forall (fun w => (0 <= start_ms w)%Z /\ (end_ms w <= len audio)%Z /\
                   placeholder_friendly (end_ms w - start_ms w)) ws ->
  forall (transcript_segments : list Segment) (n : nat),
  exists out,
    CaptionGenerator.process_windows cg audio ws transcript_segments n
    = ((transcript_segments ++ out)%list, (n + List.length ws)%nat) /\
    tiling (ms_to_sec a) (map span out) (ms_to_sec b) /\
    Forall unavailable out.
Proof.
  intros Hlaw Hfail Hws. induction Hws as [a | a m b ws Ham Hws IH];
    intros Hall acc n.
  - exists []. simpl. unfold ret. rewrite app_nil_r.
    split; [f_equal; lia |]. split; [constructor; reflexivity | constructor].
  - inversion Hall as [| w0 ws0 [Hnn [Hle Hfr]] Hrest]; subst.
    cbn [start_ms end_ms] in *.
    cbn [CaptionGenerator.process_windows]. unfold bindM at 1.
    destruct (Hfail n) as [e He].
    rewrite (cg_transcribe_raised cg _ _ _ _ He).
    destruct (IH Hrest
                (acc ++ fallback_segments None (start_sec (mkWindow a m))
                          (ms_to_sec (len (slice audio a m))))%list (S n))
      as [out [Hloop [Htil Hun]]].
    cbn [start_ms end_ms]. rewrite Hloop.
    eexists. split; [rewrite <- app_assoc; f_equal; cbn [List.length]; lia |].
    split.
    + rewrite map_app. eapply tiling_app; [| exact Htil].
      apply (failed_window_tiling None audio (mkWindow a m)); assumption.
    + apply Forall_app. split; [apply fallback_segments_unavailable | exact Hun].
Qed.

(** When every gap is at most one second long, gap filling returns the sorted
    drafts and makes no call. *)
Lemma detect_and_fill_gaps_nothing (vp : VideoProcessor.t) (audio : AudioSegment)
  (segments : list Segment) (start_time end_time : Q) (n : nat) :
  Forall (fun d => d <= 1) (gaps start_time (py_sorted start segments) end_time) ->
  VideoProcessor._detect_and_fill_gaps vp audio segments start_time end_time n
  = (py_sorted start segments, n).
Proof.
  intro Hsmall. unfold VideoProcessor._detect_and_fill_gaps.
  destruct (py_sorted start segments) as [| first rest]; [reflexivity |].
  unfold bindM.
  destruct (check_gap_slot vp audio start_time start_time (start first) [] n)
    as [g0 [Hslot0 Hrun0]].
  rewrite Hrun0.
  destruct (fill_loop_slots vp audio start_time rest (([] ++ g0) ++ [first])%list
              (end_ first) (n + List.length g0)%nat)
    as [out [t [Hfilled [Hloop Hlen]]]].
  rewrite Hloop.
  destruct (check_gap_slot vp audio start_time t end_time
              ((([] ++ g0) ++ [first]) ++ out)%list
              (n + List.length g0 + (List.length out - List.length rest))%nat)
    as [g1 [Hslot1 Hrun1]].
  rewrite Hrun1.
  assert (Hbody : gaps_filled start_time (first :: rest) (g0 ++ first :: out) t)
    by (constructor; assumption).
  destruct (gaps_filled_small _ _ end_time _ _ Hbody Hsmall) as [Hout Hend].
  pose proof (gap_slot_small _ _ _ Hslot1 Hend) as ->.
  assert (Hg0 : g0 = [] /\ out = rest).
  { destruct g0 as [| x g0']; [simpl in Hout; injection Hout as ->; auto |].
    exfalso. apply (f_equal (@List.length Segment)) in Hout.
    rewrite length_app in Hout. cbn [List.length] in Hout. lia. }
  destruct Hg0 as [-> ->]. simpl. rewrite app_nil_r.
  f_equal. lia.
Qed.

Lemma vp_process_windows_failing (vp : VideoProcessor.t) (audio : AudioSegment)
  (a b : Z) (ws : list Window) :
  slices_have_length audio ->
  (forall n, exists e, VideoProcessor.client vp n = Raised e) ->
  tiles a ws b ->
  Forall (fun w => (0 <= start_ms w)%Z /\ (end_ms w <= len audio)%Z /\
                   placeholder_friendly (end_ms w - start_ms w)) ws ->
  forall (transcript_segments : list Segment) (n : nat),
  exists out,
    VideoProcessor.process_windows vp audio ws transcript_segments n
    = ((transcript_segments ++ out)%list, (n + List.length ws)%nat) /\
    tiling (ms_to_sec a) (map span out) (ms_to_sec b) /\
    Forall unavailable out.
Proof.
  intros Hlaw Hfail Hws. induction Hws as [a | a m b ws Ham Hws IH];
    intros Hall acc n.
  - exists []. simpl. unfold ret. rewrite app_nil_r.
    split; [f_equal; lia |]. split; [constructor; reflexivity | constructor].
  - inversion Hall as [| w0 ws0 [Hnn [Hle Hfr]] Hrest]; subst.
    cbn [start_ms end_ms] in *.
    cbn [VideoProcessor.process_windows]. unfold bindM at 1.
    destruct (Hfail n) as [e He].
    rewrite (vp_transcribe_raised vp _ _ _ _ He).
    cbn [start_ms end_ms].
    set (segs := fallback_segments (Some (JStr "speech"))
                   (start_sec (mkWindow a m))
                   (ms_to_sec (len (slice audio a m)))).
    assert (Hsegs : tiling (start_sec (mkWindow a m)) (map span segs)
                           (end_sec (mkWindow a m))).
    { apply (failed_window_tiling _ audio (mkWindow a m)); assumption. }
    assert (Hsorted : py_sorted start segs = segs).
    { apply (py_sorted_fixed start). exact (tiling_sorted _ _ _ Hsegs). }
    unfold bindM at 1.
    rewrite (detect_and_fill_gaps_nothing vp _ segs _ _ (S n));
      [| rewrite Hsorted; exact (tiling_gaps _ _ _ Hsegs)].
    rewrite Hsorted.
    destruct (IH Hrest (acc ++ segs)%list (S n)) as [out [Hloop [Htil Hun]]].
    rewrite Hloop.
    exists (segs ++ out)%list.
    split; [rewrite <- app_assoc; f_equal; cbn [List.length]; lia |].
    split.
    + rewrite map_app. eapply tiling_app; [exact Hsegs | exact Htil].
    + apply Forall_app. split; [apply fallback_segments_unavailable | exact Hun].
Qed.

(** When every call of the service fails, the chunk size is a multiple of
    five seconds and the track, or what the last window holds of it, is
    friendly to the placeholders, [CaptionGenerator._process_audio_chunks]
    returns placeholders that cover the whole track, from 0 to its end,
    without overlap. *)
Theorem cg_process_audio_chunks_all_failing (cg : CaptionGenerator.t)
  (audio : AudioSegment) :
  slices_have_length audio ->
  (forall n, exists e, CaptionGenerator.client cg n = Raised e) ->
  (0 < len audio)%Z ->
  (0 < CaptionGenerator.chunk_size_seconds cg)%Z ->
  (CaptionGenerator.chunk_size_seconds cg mod 5 = 0)%Z ->
  (len audio mod 5000 = 0 \/
   len audio mod (CaptionGenerator.chunk_size_seconds cg * 1000) < 5000)%Z ->
  exists run,
    CaptionGenerator._process_audio_chunks cg audio = Ok run /\
    let segments := fst (run 0%nat) in
    Forall unavailable segments /\
    covers (map span segments) 0 (ms_to_sec (len audio)) /\
    disjoint (map span segments).
Proof.
  intros Hlaw Hfail HD HC H5 Hlast.
  destruct (chunk_windows_tile _ _ HD HC) as [ws [Hws [Htiles _]]].
  pose proof (chunk_windows_friendly _ _ _ HC H5 Hlast Hws) as Hfr.
  unfold CaptionGenerator._process_audio_chunks. rewrite Hws. simpl bind.
  eexists. split; [reflexivity |].
  destruct (cg_process_windows_failing cg audio _ _ _ Hlaw Hfail Htiles Hfr [] 0%nat)
    as [out [Hrun [Htil Hun]]].
  rewrite Hrun. cbn [fst app].
  assert (Htil0 : tiling 0 (map span out) (ms_to_sec (len audio))).
  { eapply tiling_ends; [| reflexivity | exact Htil]. vm_compute. reflexivity. }
  split; [exact Hun |].
  split; [eapply tiling_covers | eapply tiling_disjoint]; eauto.
Qed.

(** Under the same conditions [VideoProcessor._process_audio_chunks] returns
    the same cover of the track: gap filling finds no gap and adds nothing,
    the timing request fails and the placeholders come back as they are; the
    service is called once per window and once for the timing. *)
Theorem vp_process_audio_chunks_all_failing (vp : VideoProcessor.t)
  (audio : AudioSegment) :
  slices_have_length audio ->
  (forall n, exists e, VideoProcessor.client vp n = Raised e) ->
  (0 < len audio)%Z ->
  (0 < VideoProcessor.chunk_size_seconds vp)%Z ->
  (VideoProcessor.chunk_size_seconds vp mod 5 = 0)%Z ->
  (len audio mod 5000 = 0 \/
   len audio mod (VideoProcessor.chunk_size_seconds vp * 1000) < 5000)%Z ->
  let chunk_size_ms := (VideoProcessor.chunk_size_seconds vp * 1000)%Z in
  let windows := Z.to_nat ((len audio + chunk_size_ms - 1) / chunk_size_ms) in
  exists run segments,
    VideoProcessor._process_audio_chunks vp audio = Ok run /\
    run 0%nat = (Original segments, S windows) /\
    Forall unavailable segments /\
    covers (map span segments) 0 (ms_to_sec (len audio)) /\
    disjoint (map span segments).
Proof.
  intros Hlaw Hfail HD HC H5 Hlast chunk_size_ms windows.
  destruct (chunk_windows_tile _ _ HD HC) as [ws [Hws [Htiles _]]].
  pose proof (chunk_windows_friendly _ _ _ HC H5 Hlast Hws) as Hfr.
  pose proof (chunk_windows_count _ _ _ (Z.lt_le_incl _ _ HD) HC Hws) as Hcount.
  fold chunk_size_ms in Hcount.
  assert (Hk : windows = List.length ws) by (unfold windows; lia).
  unfold VideoProcessor._process_audio_chunks. rewrite Hws. simpl bind.
  destruct (vp_process_windows_failing vp audio _ _ _ Hlaw Hfail Htiles Hfr [] 0%nat)
    as [out [Hrun [Htil Hun]]].
  assert (Htil0 : tiling 0 (map span out) (ms_to_sec (len audio))).
  { eapply tiling_ends; [| reflexivity | exact Htil]. vm_compute. reflexivity. }
  eexists. exists out. split; [reflexivity |].
  split; [| split; [exact Hun |
            split; [eapply tiling_covers | eapply tiling_disjoint]; eauto]].
  unfold bindM. rewrite Hrun. cbn [app].
  destruct out as [| s0 out'].
  { exfalso. inversion Htil0 as [? ? Heq |]; subst.
    apply (ms_to_sec_lt 0) in HD.
    assert (H0' : ms_to_sec 0 == 0) by (vm_compute; reflexivity).
    rewrite H0', <- Heq in HD. now apply Qlt_irrefl in HD. }
  unfold VideoProcessor._finalize_timing, bindM, generate_content, ret.
  destruct (Hfail (0 + List.length ws)%nat) as [e ->].
  rewrite (py_sorted_fixed start _ (tiling_sorted _ _ _ Htil0)).
  f_equal. lia.
Qed.

End WholeLoop.

Lemma uniform_audio_slices (a : Z * dB) :
  @slices_have_length uniform_audio a.
Proof.
  intros i j Hi Hij Hj. destruct a as [l d]. simpl in *. lia.
Qed.

Lemma cg_process_audio_chunks_all_failing_65s :
  let cg := {| CaptionGenerator.chunk_size_seconds := 30;
               CaptionGenerator.client := failing_client |} in
  let audio : AudioSegment := (65000%Z, Finite (-20)) in
  exists run,
    CaptionGenerator._process_audio_chunks cg audio = Ok run /\
    let segments := fst (run 0%nat) in
    Forall unavailable segments /\
    covers (map span segments) 0 (ms_to_sec 65000) /\
    disjoint (map span segments).
Proof.
  cbv zeta.
  apply (@cg_process_audio_chunks_all_failing plain_builtins uniform_audio
           {| CaptionGenerator.chunk_size_seconds := 30;
              CaptionGenerator.client := failing_client |}
           (65000%Z, Finite (-20))).
  - apply uniform_audio_slices.
  - intro n. exists ServiceError. reflexivity.
  - reflexivity.
  - reflexivity.
  - reflexivity.
  - left. reflexivity.
Defined.

Lemma vp_process_audio_chunks_all_failing_65s :
  let vp := {| VideoProcessor.chunk_size_seconds := 30;
               VideoProcessor.client := failing_client |} in
  let audio : AudioSegment := (65000%Z, Finite (-20)) in
  exists run segments,
    VideoProcessor._process_audio_chunks vp audio = Ok run /\
    run 0%nat = (Original segments, 4%nat) /\
    Forall unavailable segments /\
    covers (map span segments) 0 (ms_to_sec 65000) /\
    disjoint (map span segments).
Proof.
  cbv zeta.
  apply (@vp_process_audio_chunks_all_failing plain_builtins uniform_audio
           {| VideoProcessor.chunk_size_seconds := 30;
              VideoProcessor.client := failing_client |}
           (65000%Z, Finite (-20))).
  - apply uniform_audio_slices.
  - intro n. exists ServiceError. reflexivity.
  - reflexivity.
  - reflexivity.
  - reflexivity.
  - left. reflexivity.
Defined.

Lemma cg_process_audio_chunks_calls_65s :
  let cg := {| CaptionGenerator.chunk_size_seconds := 30;
               CaptionGenerator.client := two_then_failing |} in
  let audio : AudioSegment := (65000%Z, Finite (-20)) in
  exists run,
    CaptionGenerator._process_audio_chunks cg audio = Ok run /\
    forall n : nat,
      snd (run n) = (n + 3)%nat /\ (3 <= List.length (fst (run n)))%nat.
Proof.
  cbv zeta.
  apply (@cg_process_audio_chunks_calls plain_builtins uniform_audio
           {| CaptionGenerator.chunk_size_seconds := 30;
              CaptionGenerator.client := two_then_failing |}
           (65000%Z, Finite (-20))); [discriminate | reflexivity].
Defined.

Lemma chunk_windows_degenerate (duration_ms chunk_size_seconds : Z) :
  (chunk_size_seconds = 0%Z ->
   chunk_windows duration_ms chunk_size_seconds = Raise ValueError) /\
  ((chunk_size_seconds < 0 /\ 0 <= duration_ms)%Z \/
   (0 < chunk_size_seconds /\ duration_ms <= 0)%Z ->
   chunk_windows duration_ms chunk_size_seconds = Ok []).
Proof.
  unfold chunk_windows, py_range, range_len. split.
  - intros ->. reflexivity.
  - intros Hcase.
    destruct (Z.eqb_spec (chunk_size_seconds * 1000) 0) as [Hz | _]; [lia |].
    destruct (Z.ltb_spec 0 (chunk_size_seconds * 1000)) as [Hpos | Hneg].
    + destruct (Z.leb_spec duration_ms 0) as [_ | Hbad]; [reflexivity | lia].
    + destruct (Z.leb_spec 0 duration_ms) as [_ | Hbad]; [reflexivity | lia].
Qed.

(** The degenerate runs of the chunking loop.  A chunk size of zero raises
    [ValueError] before any call.  A negative chunk size, like an empty
    track, gives no window at all: the loop returns an empty transcript
    without an error and without calling the service, not even for the
    timing. *)
Theorem process_audio_chunks_degenerate `{PyBuiltins} `{Pydub}
  (vp : VideoProcessor.t) (cg : CaptionGenerator.t) (audio : AudioSegment) :
  (VideoProcessor.chunk_size_seconds vp = 0%Z ->
   VideoProcessor._process_audio_chunks vp audio = Raise ValueError) /\
  (CaptionGenerator.chunk_size_seconds cg = 0%Z ->
   CaptionGenerator._process_audio_chunks cg audio = Raise ValueError) /\
  ((VideoProcessor.chunk_size_seconds vp < 0 /\ 0 <= len audio)%Z \/
   (0 < VideoProcessor.chunk_size_seconds vp /\ len audio <= 0)%Z ->
   exists run, VideoProcessor._process_audio_chunks vp audio = Ok run /\
               forall n, run n = (Original [], n)) /\
  ((CaptionGenerator.chunk_size_seconds cg < 0 /\ 0 <= len audio)%Z \/
   (0 < CaptionGenerator.chunk_size_seconds cg /\ len audio <= 0)%Z ->
   exists run, CaptionGenerator._process_audio_chunks cg audio = Ok run /\
               forall n, run n = ([], n)).
Proof.
  unfold VideoProcessor._process_audio_chunks,
    CaptionGenerator._process_audio_chunks.
  split; [| split; [| split]].
  - intro Hz. now rewrite (proj1 (chunk_windows_degenerate _ _) Hz).
  - intro Hz. now rewrite (proj1 (chunk_windows_degenerate _ _) Hz).
  - intro Hcase. rewrite (proj2 (chunk_windows_degenerate _ _) Hcase).
    simpl bind. eexists. split; [reflexivity |]. intro n. reflexivity.
  - intro Hcase. rewrite (proj2 (chunk_windows_degenerate _ _) Hcase).
    simpl bind. eexists. split; [reflexivity |]. intro n. reflexivity.
Qed.

(** ** Gap filling: what is left of the gaps, and the order of the result *)

Lemma gaps_app (t e : Q) (l1 l2 : list Segment) (segment : Segment) :
  gaps t (l1 ++ segment :: l2) e
  = (gaps t l1 (start segment) ++ gaps (end_ segment) l2 e)%list.
Proof.
  revert t. induction l1 as [| x l1 IH]; intro t; simpl; [reflexivity |].
  now rewrite IH.
Qed.

Section Residual.
Context `{Pydub}.
Variable self : VideoProcessor.t.
Variable audio : AudioSegment.
Variable start_time : Q.
Variable bound : Q.
Variable inside : Q -> Prop.

(** What a gap check leaves between [gap_from] and [gap_to], once its
    segment, if any, is in place, for the instants that are [inside]. *)
Hypothesis check_gap_bound :
  forall (gap_from gap_to : Q) (filled_segments : list Segment) (n : nat),
  inside gap_from -> inside gap_to ->
  exists g,
    VideoProcessor.check_gap self audio start_time gap_from gap_to
                             filled_segments n
    = ((filled_segments ++ g)%list, (n + List.length g)%nat) /\
    (List.length g <= 1)%nat /\
    Forall (fun d => d <= bound) (gaps gap_from g gap_to).

Lemma fill_loop_bound (remaining : list Segment) :
  Forall (fun s => inside (start s) /\ inside (end_ s)) remaining ->
  forall (filled_segments : list Segment) (current_time : Q) (n : nat),
  inside current_time ->
  exists out t k,
    VideoProcessor.fill_loop self audio start_time remaining filled_segments
                             current_time n
    = (((filled_segments ++ out)%list, t), (n + k)%nat) /\
    (k <= List.length remaining)%nat /\
    inside t /\
    forall (tail : list Segment) (e : Q),
      Forall (fun d => d <= bound) (gaps t tail e) ->
      Forall (fun d => d <= bound) (gaps current_time (out ++ tail) e).
Proof.
  induction 1 as [| segment rest [Hs He] _ IH]; intros filled t0 n Ht0.
  - exists [], t0, 0%nat. simpl. unfold ret. rewrite app_nil_r.
    split; [f_equal; lia |]. split; [lia | auto].
  - cbn [VideoProcessor.fill_loop]. unfold bindM at 1.
    destruct (check_gap_bound t0 (start segment) filled n Ht0 Hs)
      as [g [Hrun [Hlen Hg]]].
    rewrite Hrun.
    destruct (IH ((filled ++ g) ++ [segment])%list (end_ segment)
                 (n + List.length g)%nat He)
      as [out [t [k [Hloop [Hk [Ht Htail]]]]]].
    rewrite Hloop.
    exists (g ++ segment :: out)%list, t, (List.length g + k)%nat.
    split; [| split; [| split]].
    + f_equal; [| lia]. f_equal. rewrite <- !app_assoc. reflexivity.
    + cbn [List.length]. lia.
    + exact Ht.
    + intros tail e Htl. rewrite <- app_assoc. cbn [app].
      rewrite gaps_app. apply Forall_app. split; [exact Hg | now apply Htail].
Qed.

Lemma detect_and_fill_gaps_bound (segments : list Segment) (end_time : Q)
  (n : nat) :
  segments <> [] ->
  inside start_time -> inside end_time ->
  Forall (fun s => inside (start s) /\ inside (end_ s)) segments ->
  let result :=
    VideoProcessor._detect_and_fill_gaps self audio segments
                                         start_time end_time n in
  Forall (fun d => d <= bound) (gaps start_time (fst result) end_time) /\
  (n <= snd result <= n + List.length segments + 1)%nat.
Proof.
  intros Hne Hst Het Hin result. subst result.
  unfold VideoProcessor._detect_and_fill_gaps.
  pose proof (Permutation_length (py_sorted_perm start segments)) as Hlen.
  pose proof (Permutation_Forall (py_sorted_perm start segments) Hin) as Hsin.
  destruct (py_sorted start segments) as [| first rest].
  { destruct segments; [congruence | discriminate]. }
  inversion Hsin as [| ? ? [Hfs Hfe] Hrest]; subst.
  unfold bindM.
  destruct (check_gap_bound start_time (start first) [] n Hst Hfs)
    as [g0 [Hrun0 [Hlen0 Hg0]]].
  rewrite Hrun0.
  destruct (fill_loop_bound rest Hrest (([] ++ g0) ++ [first])%list (end_ first)
              (n + List.length g0)%nat Hfe)
    as [out [t [k [Hloop [Hk [Ht Htail]]]]]].
  rewrite Hloop.
  destruct (check_gap_bound t end_time ((([] ++ g0) ++ [first]) ++ out)%list
              (n + List.length g0 + k)%nat Ht Het) as [g1 [Hrun1 [Hlen1 Hg1]]].
  rewrite Hrun1. cbn [fst snd].
  split.
  - replace (((([] ++ g0) ++ [first]) ++ out) ++ g1)%list
      with (g0 ++ first :: (out ++ g1))%list
      by (simpl; rewrite <- !app_assoc; reflexivity).
    rewrite gaps_app. apply Forall_app. split; [exact Hg0 | now apply Htail].
  - cbn [List.length] in Hlen. lia.
Qed.

End Residual.

(** The slice that a gap check takes for a gap of more than one second
    inside the chunk is not empty and lies inside the clip. *)
Lemma gap_slice_inside (start_time end_time gap_from gap_to : Q) (length_ms : Z) :
  0 <= start_time -> start_time <= gap_from -> gap_to <= end_time ->
  1 < gap_to - gap_from ->
  (end_time - start_time) * 1000 <= inject_Z length_ms ->
  let i := (py_int (gap_from * 1000) - py_int (start_time * 1000))%Z in
  let j := (py_int (gap_to * 1000) - py_int (start_time * 1000))%Z in
  (0 <= i)%Z /\ (i < j)%Z /\ (j <= length_ms)%Z.
Proof.
  intros Hst Hfrom Hto Hgap Hlen i j. subst i j.
  rewrite !py_int_floor by lra.
  assert (H1 : (Qfloor (start_time * 1000) <= Qfloor (gap_from * 1000))%Z)
    by (apply Qfloor_resp_le; lra).
  assert (H2 : (Qfloor (gap_from * 1000) <= Qfloor (gap_to * 1000) - 1000)%Z).
  { rewrite <- Qfloor_sub_Z. apply Qfloor_resp_le.
    change (inject_Z 1000) with 1000. lra. }
  assert (H3 : (Qfloor (gap_to * 1000) - length_ms
                <= Qfloor (start_time * 1000))%Z).
  { rewrite <- Qfloor_sub_Z. apply Qfloor_resp_le. lra. }
  lia.
Qed.

Section GapResidue.
Context `{Pydub}.
Variable self : VideoProcessor.t.

Lemma analyze_audio_gap_residue (gap_audio : AudioSegment) (gap_from gap_to : Q)
  (n : nat) :
  (exists segment,
     VideoProcessor._analyze_audio_gap self gap_audio gap_from gap_to n
     = (Some segment, S n) /\
     start segment = gap_from /\ end_ segment = gap_to) \/
  (VideoProcessor._analyze_audio_gap self gap_audio gap_from gap_to n = (None, n) /\
   dB_ltb (dBFS gap_audio) (-50) = true /\ gap_to - gap_from <= 3).
Proof.
  unfold VideoProcessor._analyze_audio_gap.
  destruct (dB_ltb (dBFS gap_audio) (-50)) eqn:Hsil; cbn [negb orb].
  - destruct (Qltb 3 (gap_to - gap_from)) eqn:Hlong.
    + left. unfold bindM, generate_content.
      destruct (VideoProcessor.classify_gap gap_from gap_to
                  (VideoProcessor.client self n)) as [segment |] eqn:Hclass.
      * destruct (classify_gap_some _ _ _ _ Hclass) as [Hs [He _]].
        exists segment. auto.
      * eexists. split; [reflexivity | split; reflexivity].
    + right. split; [reflexivity |]. split; [reflexivity |].
      unfold Qltb in Hlong. apply negb_false_iff in Hlong.
      now apply Qle_bool_iff in Hlong.
  - left. unfold bindM, generate_content.
    destruct (VideoProcessor.classify_gap gap_from gap_to
                (VideoProcessor.client self n)) as [segment |] eqn:Hclass.
    + destruct (classify_gap_some _ _ _ _ Hclass) as [Hs [He _]].
      exists segment. auto.
    + eexists. split; [reflexivity | split; reflexivity].
Qed.

(** What a gap check leaves: nothing when it puts a segment, the gap
    otherwise; [quiet] tells whether the audio of a gap of more than one
    second may be silent. *)
Lemma check_gap_leaves (audio : AudioSegment) (start_time : Q)
  (gap_from gap_to : Q) (filled_segments : list Segment) (n : nat) :
  exists g,
    VideoProcessor.check_gap self audio start_time gap_from gap_to
                             filled_segments n
    = ((filled_segments ++ g)%list, (n + List.length g)%nat) /\
    (List.length g <= 1)%nat /\
    Forall (fun d => d <= 3) (gaps gap_from g gap_to) /\
    ((1 < gap_to - gap_from ->
      dB_ltb (dBFS (slice audio
                      (py_int (gap_from * 1000) - py_int (start_time * 1000))
                      (py_int (gap_to * 1000) - py_int (start_time * 1000))))
             (-50) = false) ->
     Forall (fun d => d <= 1) (gaps gap_from g gap_to)).
Proof.
  unfold VideoProcessor.check_gap.
  destruct (Qltb 1 (gap_to - gap_from)) eqn:Hgap.
  - unfold bindM.
    match goal with
    | |- context [VideoProcessor._analyze_audio_gap self ?a _ _ _] =>
        destruct (analyze_audio_gap_residue a gap_from gap_to n)
          as [[segment [Hrun [Hs He]]] | [Hrun [Hsil Hshort]]]
    end.
    + rewrite Hrun. exists [segment]. unfold ret. cbn [opt_list List.length].
      split; [f_equal; lia |]. split; [lia |].
      assert (Hzero : forall b : Q, 0 <= b ->
                Forall (fun d => d <= b) (gaps gap_from [segment] gap_to)).
      { intros b Hb. simpl. rewrite Hs, He.
        repeat constructor; lra. }
      split; [apply Hzero; lra | intros _; apply Hzero; lra].
    + rewrite Hrun. exists []. unfold ret. cbn [opt_list List.length].
      split; [f_equal; lia |]. split; [lia |].
      split; [simpl; repeat constructor; exact Hshort |].
      intro Hloud. apply Qltb_lt in Hgap. rewrite (Hloud Hgap) in Hsil.
      discriminate.
  - exists []. unfold ret. rewrite app_nil_r. cbn [List.length].
    unfold Qltb in Hgap. apply negb_false_iff in Hgap.
    apply Qle_bool_iff in Hgap.
    split; [f_equal; lia |]. split; [lia |].
    split; [simpl; repeat constructor; lra |
            intros _; simpl; repeat constructor; exact Hgap].
Qed.

(** After gap filling of a chunk that has a draft segment, no stretch of more
    than 3 seconds is left without a segment: not before the first segment
    of the result, not between two that follow one another, not after the
    last; the service is called at most once per draft segment and once
    more.  When the chunk is the clip from [start_time] to [end_time], its
    drafts lie inside it and no part of the clip that is not empty is
    silent, no stretch of more than 1 second is left. *)
Theorem detect_and_fill_gaps_residue (audio : AudioSegment)
  (segments : list Segment) (start_time end_time : Q) (n : nat) :
  segments <> [] ->
  let result :=
    VideoProcessor._detect_and_fill_gaps self audio segments
                                         start_time end_time n in
  let left_over := gaps start_time (fst result) end_time in
  Forall (fun d => d <= 3) left_over /\
  (n <= snd result <= n + List.length segments + 1)%nat /\
  (never_silent audio ->
   0 <= start_time -> start_time <= end_time ->
   (end_time - start_time) * 1000 <= inject_Z (len audio) ->
   Forall (fun s => start_time <= start s <= end_time /\
                    start_time <= end_ s <= end_time) segments ->
   Forall (fun d => d <= 1) left_over).
Proof.
  intros Hne result left_over. subst left_over result.
  assert (H3 : Forall (fun d => d <= 3)
                 (gaps start_time
                    (fst (VideoProcessor._detect_and_fill_gaps self audio
                            segments start_time end_time n)) end_time) /\
               (n <= snd (VideoProcessor._detect_and_fill_gaps self audio
                            segments start_time end_time n)
                <= n + List.length segments + 1)%nat).
  { apply (detect_and_fill_gaps_bound self audio start_time 3 (fun _ => True));
      auto.
    - intros gap_from gap_to filled k _ _.
      destruct (check_gap_leaves audio start_time gap_from gap_to filled k)
        as [g [Hrun [Hlen [Hg _]]]].
      exists g. auto.
    - apply Forall_forall. auto. }
  destruct H3 as [H3 Hcalls].
  split; [exact H3 |]. split; [exact Hcalls |].
  intros Hloud Hst Hwin Hlen Hin.
  apply (detect_and_fill_gaps_bound self audio start_time 1
           (fun t => start_time <= t <= end_time)); auto.
  - intros gap_from gap_to filled k [Hfrom _] [_ Hto].
    destruct (check_gap_leaves audio start_time gap_from gap_to filled k)
      as [g [Hrun [Hglen [_ Hg]]]].
    exists g. split; [exact Hrun |]. split; [exact Hglen |].
    apply Hg. intro Hgap.
    destruct (gap_slice_inside start_time end_time gap_from gap_to (len audio)
                Hst Hfrom Hto Hgap Hlen) as [Hi [Hij Hj]].
    now apply Hloud.
  - split; [apply Qle_refl | exact Hwin].
  - split; [exact Hwin | apply Qle_refl].
Qed.

End GapResidue.

Lemma detect_and_fill_gaps_residue_example :
  let self := {| VideoProcessor.chunk_size_seconds := 30;
                 VideoProcessor.client := failing_client |} in
  let audio : AudioSegment := (30000%Z, Finite (-20)) in
  let segments := [speech "world" 20 22; speech "hello" 4 6] in
  let result :=
    VideoProcessor._detect_and_fill_gaps self audio segments 0 30 0%nat in
  Forall (fun d => d <= 3) (gaps 0 (fst result) 30) /\
  (0 <= snd result <= 3)%nat /\
  Forall (fun d => d <= 1) (gaps 0 (fst result) 30).
Proof.
  cbv zeta.
  destruct (@detect_and_fill_gaps_residue uniform_audio
              {| VideoProcessor.chunk_size_seconds := 30;
                 VideoProcessor.client := failing_client |}
              (30000%Z, Finite (-20))
              [speech "world" 20 22; speech "hello" 4 6] 0 30 0%nat
              ltac:(discriminate)) as [H3 [Hcalls Hloud]].
  split; [exact H3 |]. split; [exact Hcalls |].
  apply Hloud.
  - intros i j Hi Hij Hj. reflexivity.
  - apply Qle_refl.
  - discriminate.
  - vm_compute. discriminate.
  - repeat constructor; vm_compute; discriminate.
Defined.

Lemma StronglySorted_snoc {A : Type} (R : A -> A -> Prop) (l : list A) (y : A) :
  StronglySorted R l -> Forall (fun x => R x y) l -> StronglySorted R (l ++ [y]).
Proof.
  induction 1 as [| x l Hl IH Hx]; intro Hy; simpl.
  - repeat constructor.
  - inversion Hy as [| ? ? Hxy Hly]; subst.
    constructor; [now apply IH |].
    apply Forall_app. split; [exact Hx | now constructor].
Qed.

(** Filled drafts keep the order of start, lie above every lower bound of the
    drafts that the first slot respects, and start no later than the last
    draft ends. *)
Lemma gaps_filled_order (t t' : Q) (segments out : list Segment) :
  gaps_filled t segments out t' ->
  StronglySorted by_start segments -> Forall forward segments ->
  StronglySorted by_start out /\
  (forall lb, lb <= t -> Forall (fun s => lb <= start s) segments ->
              Forall (fun x => lb <= start x) out) /\
  Forall (fun s => start s <= t') segments /\
  Forall (fun x => start x <= t') out.
Proof.
  induction 1 as [t | t t' segment rest g out Hslot Hrest IH];
    intros Hsorted Hfw.
  - repeat split; constructor.
  - inversion Hsorted as [| ? ? Hrs Hseg]; subst.
    inversion Hfw as [| ? ? Hfs Hfr]; subst.
    destruct (IH Hrs Hfr) as [Hout [Hlow [Hup_s Hup_o]]].
    unfold forward in Hfs.
    assert (Hlow_out : Forall (fun x => start segment <= start x) out).
    { apply Hlow; [exact Hfs |]. exact Hseg. }
    assert (Hseg_up : start segment <= t').
    { inversion Hrest as [? | ? ? r rest' g' out' Hslot' Hrest']; subst.
      - exact Hfs.
      - inversion Hseg as [| ? ? Hsr _]; subst.
        inversion Hup_s as [| ? ? Hr _]; subst.
        unfold by_start, key_le in Hsr. lra. }
    assert (Hmid : StronglySorted by_start (segment :: out)).
    { constructor; [exact Hout | exact Hlow_out]. }
    split; [| split; [| split]].
    + destruct Hslot as [-> | [Hlong [gs [-> [Hgs _]]]]]; [exact Hmid |].
      cbn [app]. constructor; [exact Hmid |].
      constructor.
      * unfold by_start, key_le. rewrite Hgs. lra.
      * eapply Forall_impl; [| exact Hlow_out].
        intros x Hx. unfold by_start, key_le. cbv beta in Hx. rewrite Hgs. lra.
    + intros lb Hlb Hall.
      inversion Hall as [| ? ? Hls Hlr]; subst.
      apply Forall_app. split.
      * destruct Hslot as [-> | [_ [gs [-> [Hgs _]]]]]; [constructor |].
        constructor; [rewrite Hgs; exact Hlb | constructor].
      * constructor; [exact Hls |].
        eapply Forall_impl; [| exact Hlow_out].
        intros x Hx. cbv beta in Hx. lra.
    + constructor; assumption.
    + apply Forall_app. split.
      * destruct Hslot as [-> | [Hlong [gs [-> [Hgs _]]]]]; [constructor |].
        constructor; [rewrite Hgs; lra | constructor].
      * constructor; assumption.
Qed.

Section FilledOrder.
Context `{Pydub}.
Variable self : VideoProcessor.t.

(** The shape of the result of gap filling when there is a draft segment. *)
Lemma detect_and_fill_gaps_body (audio : AudioSegment)
  (segments : list Segment) (start_time end_time : Q) (n : nat) :
  py_sorted start segments <> [] ->
  exists body t g,
    gaps_filled start_time (py_sorted start segments) body t /\
    gap_slot t end_time g /\
    fst (VideoProcessor._detect_and_fill_gaps self audio segments
                                              start_time end_time n)
    = (body ++ g)%list.
Proof.
  intro Hne. unfold VideoProcessor._detect_and_fill_gaps.
  destruct (py_sorted start segments) as [| first rest]; [congruence |].
  unfold bindM.
  destruct (check_gap_slot self audio start_time start_time (start first) [] n)
    as [g0 [Hslot0 Hrun0]].
  rewrite Hrun0.
  destruct (fill_loop_slots self audio start_time rest (([] ++ g0) ++ [first])%list
              (end_ first) (n + List.length g0)%nat)
    as [out [t [Hfilled [Hloop Hlen]]]].
  rewrite Hloop.
  destruct (check_gap_slot self audio start_time t end_time
              ((([] ++ g0) ++ [first]) ++ out)%list
              (n + List.length g0 + (List.length out - List.length rest))%nat)
    as [g1 [Hslot1 Hrun1]].
  rewrite Hrun1. cbn [fst].
  exists (g0 ++ first :: out)%list, t, g1.
  split; [constructor; assumption |]. split; [exact Hslot1 |].
  simpl. rewrite <- !app_assoc. reflexivity.
Qed.

(** When no draft segment ends before it starts, the result of gap filling
    is in non-decreasing order of start: the segments put into the gaps
    fall in place between the drafts. *)
Theorem detect_and_fill_gaps_sorted (audio : AudioSegment)
  (segments : list Segment) (start_time end_time : Q) (n : nat) :
  Forall forward segments ->
  StronglySorted by_start
    (fst (VideoProcessor._detect_and_fill_gaps self audio segments
                                               start_time end_time n)).
Proof.
  intro Hfw.
  pose proof (py_sorted_sorted start segments) as Hsorted.
  pose proof (Permutation_Forall (py_sorted_perm start segments) Hfw) as Hfws.
  destruct (py_sorted start segments) as [| first rest] eqn:Hs.
  { unfold VideoProcessor._detect_and_fill_gaps. rewrite Hs. constructor. }
  destruct (detect_and_fill_gaps_body audio segments start_time end_time n)
    as [body [t [g [Hbody [Hslot ->]]]]]; [rewrite Hs; discriminate |].
  rewrite Hs in Hbody.
  destruct (gaps_filled_order _ _ _ _ Hbody Hsorted Hfws)
    as [Hout [_ [_ Hup]]].
  destruct Hslot as [-> | [_ [gs [-> [Hgs _]]]]]; [now rewrite app_nil_r |].
  apply StronglySorted_snoc; [exact Hout |].
  eapply Forall_impl; [| exact Hup].
  intros x Hx. unfold by_start, key_le. rewrite Hgs. exact Hx.
Qed.

End FilledOrder.

Lemma detect_and_fill_gaps_sorted_example :
  let self := {| VideoProcessor.chunk_size_seconds := 30;
                 VideoProcessor.client := failing_client |} in
  let audio : AudioSegment := (30000%Z, Finite (-20)) in
  StronglySorted by_start
    (fst (VideoProcessor._detect_and_fill_gaps self audio
            [speech "world" 20 22; speech "hello" 4 6] 0 30 0%nat)).
Proof.
  cbv zeta.
  apply (@detect_and_fill_gaps_sorted uniform_audio).
  repeat constructor; unfold forward; simpl; lra.
Defined.

(** A draft that ends before it starts breaks the order: the segment put
    after it starts at its end. *)
Remark detect_and_fill_gaps_backward_draft :
  let self := {| VideoProcessor.chunk_size_seconds := 30;
                 VideoProcessor.client := failing_client |} in
  let audio : AudioSegment := (30000%Z, Finite (-20)) in
  map start
    (fst (VideoProcessor._detect_and_fill_gaps self audio
            [speech "late" 11 12; speech "backward" 10 2] 10 12 0%nat))
  = [10; 2; 11].
Proof. vm_compute. reflexivity. Qed.

(** ** The transcription client: entries without an end, entries that cannot
    be read *)

Section Entries.
Context `{PyBuiltins} `{Pydub}.

Lemma for_each_Forall2 {A B : Type} (f : A -> exc B) (R : A -> B -> Prop)
  (xs : list A) :
  Forall (fun x => exists y, f x = Ok y /\ R x y) xs ->
  exists ys, for_each f xs = Ok ys /\ Forall2 R xs ys.
Proof.
  induction 1 as [| x xs [y [Hy Hr]] _ [ys [Hrun Hall]]].
  - exists []. split; [reflexivity | constructor].
  - exists (y :: ys). simpl. rewrite Hy, Hrun. simpl.
    split; [reflexivity | now constructor].
Qed.

Lemma for_each_raises {A B : Type} (f : A -> exc B) (xs : list A) (x : A) :
  In x xs -> (exists e, f x = Raise e) -> exists e, for_each f xs = Raise e.
Proof.
  intros Hin [e He]. induction xs as [| x0 xs IH]; [contradiction |].
  simpl. destruct (f x0) as [y | e0] eqn:Hx0; simpl; [| eauto].
  destruct Hin as [-> | Hin]; [congruence |].
  destruct (IH Hin) as [e1 ->]. simpl. eauto.
Qed.

Lemma vp_parse_entry_open_ended (start_time : Q) (entry : jval) (a : Q) :
  open_ended entry a ->
  exists segment,
    VideoProcessor.parse_entry start_time entry = Ok segment /\
    start segment = start_time + a /\
    end_ segment = start_time + (start_time + a + 5).
Proof.
  intros [fields [-> [Hend [Hstart | [Hstart ->]]]]];
    unfold VideoProcessor.parse_entry; simpl; rewrite Hstart, Hend; simpl;
    eexists; (split; [reflexivity | split; reflexivity]).
Qed.

Lemma cg_parse_entry_open_ended (start_time : Q) (entry : jval) (a : Q) :
  open_ended entry a ->
  exists segment,
    CaptionGenerator.parse_entry start_time entry = Ok segment /\
    start segment = start_time + a /\
    end_ segment = start_time + (start_time + a + 5).
Proof.
  intros [fields [-> [Hend [Hstart | [Hstart ->]]]]];
    unfold CaptionGenerator.parse_entry; simpl; rewrite Hstart, Hend; simpl;
    eexists; (split; [reflexivity | split; reflexivity]).
Qed.

Lemma for_each_open_ended (parse : Q -> jval -> exc Segment) (start_time : Q)
  (entries : list jval) :
  (forall entry a, open_ended entry a ->
     exists segment, parse start_time entry = Ok segment /\
                     start segment = start_time + a /\
                     end_ segment = start_time + (start_time + a + 5)) ->
  Forall (fun entry => exists a, open_ended entry a) entries ->
  exists segments,
    for_each (parse start_time) entries = Ok segments /\
    Forall2 (fun entry segment =>
               exists a, open_ended entry a /\
                         start segment = start_time + a /\
                         end_ segment - start segment == start_time + 5)
            entries segments.
Proof.
  intros Hparse Hall. apply for_each_Forall2.
  eapply Forall_impl; [| exact Hall].
  intros entry [a Ha]. destruct (Hparse _ _ Ha) as [segment [Hseg [Hs He]]].
  exists segment. split; [exact Hseg |]. exists a.
  split; [exact Ha |]. split; [exact Hs |]. rewrite Hs, He. ring.
Qed.

(** An entry of the service's list without ["end"] is given the default end
    [segment_start + 5.0], where [segment_start] is already on the time line
    of the whole track, and the start of the window is added to it once
    more: the segment of such an entry lasts 5 seconds plus the start of the
    window, in [VideoProcessor] and in [CaptionGenerator] alike.  An entry
    without ["start"] starts with the window. *)
Theorem transcribe_open_ended_entries (vp : VideoProcessor.t)
  (cg : CaptionGenerator.t) (audio_chunk : AudioSegment) (start_time : Q)
  (n : nat) (response_text : string) (entries : list jval) :
  entries <> [] ->
  Forall (fun entry => exists a, open_ended entry a) entries ->
  VideoProcessor.client vp n = Returned response_text (JArr entries) ->
  CaptionGenerator.client cg n = Returned response_text (JArr entries) ->
  let lasts_too_long entry segment :=
    exists a, open_ended entry a /\
              start segment = start_time + a /\
              end_ segment - start segment == start_time + 5 in
  Forall2 lasts_too_long entries
    (fst (VideoProcessor._transcribe_audio_chunk vp audio_chunk start_time n)) /\
  Forall2 lasts_too_long entries
    (fst (CaptionGenerator._transcribe_audio_chunk cg audio_chunk start_time n)).
Proof.
  intros Hne Hall Hvp Hcg lasts_too_long. subst lasts_too_long.
  destruct entries as [| entry0 entries0]; [congruence |].
  destruct (for_each_open_ended VideoProcessor.parse_entry start_time _
              (vp_parse_entry_open_ended start_time) Hall) as [vs [Hvs Hvall]].
  destruct (for_each_open_ended CaptionGenerator.parse_entry start_time _
              (cg_parse_entry_open_ended start_time) Hall) as [cs [Hcs Hcall]].
  unfold VideoProcessor._transcribe_audio_chunk,
    CaptionGenerator._transcribe_audio_chunk, bindM, generate_content, ret.
  rewrite Hvp, Hcg.
  unfold VideoProcessor.parse_response, CaptionGenerator.parse_response.
  cbn [truthy negb]. rewrite Hvs, Hcs. cbn [fst].
  split; assumption.
Qed.

Lemma vp_parse_entry_malformed (start_time : Q) (entry : jval) :
  malformed entry -> exists e, VideoProcessor.parse_entry start_time entry = Raise e.
Proof.
  intros [entry' Hnd | fields k v e Hk Hv He]; unfold VideoProcessor.parse_entry.
  - destruct entry'; simpl; eauto. exfalso. eapply Hnd. reflexivity.
  - simpl.
    destruct (py_float match lookup "start" fields with
                       | Some v0 => v0
                       | None => JNum 0
                       end) as [s | e0] eqn:Hs; simpl; [| eauto].
    destruct Hk as [-> | ->].
    + rewrite Hv in Hs. congruence.
    + rewrite Hv, He. simpl. eauto.
Qed.

Lemma cg_parse_entry_malformed (start_time : Q) (entry : jval) :
  malformed entry ->
  exists e, CaptionGenerator.parse_entry start_time entry = Raise e.
Proof.
  intros [entry' Hnd | fields k v e Hk Hv He]; unfold CaptionGenerator.parse_entry.
  - destruct entry'; simpl; eauto. exfalso. eapply Hnd. reflexivity.
  - simpl.
    destruct (py_float match lookup "start" fields with
                       | Some v0 => v0
                       | None => JNum 0
                       end) as [s | e0] eqn:Hs; simpl; [| eauto].
    destruct Hk as [-> | ->].
    + rewrite Hv in Hs. congruence.
    + rewrite Hv, He. simpl. eauto.
Qed.

(** One entry that cannot be read, anywhere in the list, and the whole answer
    is dropped: [_transcribe_audio_chunk] returns the placeholders of a
    failed call for the window, and none of the entries that it could
    read. *)
Theorem transcribe_malformed_entry (vp : VideoProcessor.t)
  (cg : CaptionGenerator.t) (audio_chunk : AudioSegment) (start_time : Q)
  (n : nat) (response_text : string) (entries : list jval) (entry : jval) :
  In entry entries -> malformed entry ->
  VideoProcessor.client vp n = Returned response_text (JArr entries) ->
  CaptionGenerator.client cg n = Returned response_text (JArr entries) ->
  let duration_sec := ms_to_sec (len audio_chunk) in
  VideoProcessor._transcribe_audio_chunk vp audio_chunk start_time n
  = (fallback_segments (Some (JStr "speech")) start_time duration_sec, S n) /\
  CaptionGenerator._transcribe_audio_chunk cg audio_chunk start_time n
  = (fallback_segments None start_time duration_sec, S n).
Proof.
  intros Hin Hbad Hvp Hcg duration_sec. subst duration_sec.
  destruct (for_each_raises (VideoProcessor.parse_entry start_time) entries entry
              Hin (vp_parse_entry_malformed start_time entry Hbad)) as [ev Hev].
  destruct (for_each_raises (CaptionGenerator.parse_entry start_time) entries entry
              Hin (cg_parse_entry_malformed start_time entry Hbad)) as [ec Hec].
  destruct entries as [| entry0 entries0]; [contradiction |].
  unfold VideoProcessor._transcribe_audio_chunk,
    CaptionGenerator._transcribe_audio_chunk, bindM, generate_content, ret.
  rewrite Hvp, Hcg.
  unfold VideoProcessor.parse_response, CaptionGenerator.parse_response.
  cbn [truthy negb]. rewrite Hev, Hec. split; reflexivity.
Qed.

End Entries.

Lemma transcribe_open_ended_entries_example :
  let entries := [JObj [("text", JStr "hello"); ("start", JNum 2)]%string] in
  let answer := Returned "..." (JArr entries) in
  let vp := {| VideoProcessor.chunk_size_seconds := 30;
               VideoProcessor.client := constant_client answer |} in
  let cg := {| CaptionGenerator.chunk_size_seconds := 30;
               CaptionGenerator.client := constant_client answer |} in
  let audio_chunk : AudioSegment := (30000%Z, Finite (-20)) in
  let lasts_too_long entry segment :=
    exists a, open_ended entry a /\
              start segment = 60 + a /\
              end_ segment - start segment == 60 + 5 in
  Forall2 lasts_too_long entries
    (fst (VideoProcessor._transcribe_audio_chunk vp audio_chunk 60 0%nat)) /\
  Forall2 lasts_too_long entries
    (fst (CaptionGenerator._transcribe_audio_chunk cg audio_chunk 60 0%nat)).
Proof.
  cbv zeta.
  apply (@transcribe_open_ended_entries plain_builtins uniform_audio
           {| VideoProcessor.chunk_size_seconds := 30;
              VideoProcessor.client :=
                constant_client
                  (Returned "..."
                     (JArr [JObj [("text", JStr "hello");
                                  ("start", JNum 2)]%string])) |}
           {| CaptionGenerator.chunk_size_seconds := 30;
              CaptionGenerator.client :=
                constant_client
                  (Returned "..."
                     (JArr [JObj [("text", JStr "hello");
                                  ("start", JNum 2)]%string])) |}
           (30000%Z, Finite (-20)) 60 0%nat "..."
           [JObj [("text", JStr "hello"); ("start", JNum 2)]%string]).
  - discriminate.
  - constructor; [| constructor].
    exists 2. eexists. split; [reflexivity |].
    split; [reflexivity | left; reflexivity].
  - reflexivity.
  - reflexivity.
Defined.

Lemma transcribe_malformed_entry_example :
  let entries :=
    [JObj [("text", JStr "hello"); ("start", JNum 0); ("end", JNum 2)]%string;
     JObj [("text", JStr "world"); ("start", JNull); ("end", JNum 4)]%string] in
  let answer := Returned "..." (JArr entries) in
  let vp := {| VideoProcessor.chunk_size_seconds := 30;
               VideoProcessor.client := constant_client answer |} in
  let cg := {| CaptionGenerator.chunk_size_seconds := 30;
               CaptionGenerator.client := constant_client answer |} in
  let audio_chunk : AudioSegment := (4000%Z, Finite (-20)) in
  VideoProcessor._transcribe_audio_chunk vp audio_chunk 60 0%nat
  = (fallback_segments (Some (JStr "speech")) 60 (ms_to_sec 4000), 1%nat) /\
  CaptionGenerator._transcribe_audio_chunk cg audio_chunk 60 0%nat
  = (fallback_segments None 60 (ms_to_sec 4000), 1%nat).
Proof.
  cbv zeta.
  eapply (@transcribe_malformed_entry plain_builtins uniform_audio _ _
            (4000%Z, Finite (-20)) 60 0%nat "..."
            [JObj [("text", JStr "hello"); ("start", JNum 0);
                   ("end", JNum 2)]%string;
             JObj [("text", JStr "world"); ("start", JNull);
                   ("end", JNum 4)]%string]
            (JObj [("text", JStr "world"); ("start", JNull);
                   ("end", JNum 4)]%string)).
  - right. left. reflexivity.
  - eapply (malformed_time _ "start"%string JNull TypeError);
      [left; reflexivity | reflexivity | reflexivity].
  - reflexivity.
  - reflexivity.
Defined.

(** ** The timing optimizer: the answers it takes *)

Lemma all_in_complete (keys : list string) (segment : jval) :
  (forall k, In k keys -> py_in k segment = Ok true) ->
  VideoProcessor.all_in keys segment = Ok true.
Proof.
  induction keys as [| k0 keys IH]; intro Hall; [reflexivity |].
  simpl. rewrite (Hall k0 (or_introl eq_refl)). simpl.
  apply IH. intros k Hk. apply Hall. now right.
Qed.

Lemma all_valid_complete (items : list jval) :
  (forall item k, In item items -> In k VideoProcessor.required_fields ->
                  py_in k item = Ok true) ->
  VideoProcessor.all_valid items = Ok true.
Proof.
  induction items as [| item0 items IH]; intro Hall; [reflexivity |].
  change (bind (VideoProcessor.all_in VideoProcessor.required_fields item0)
               (fun b => if b then VideoProcessor.all_valid items else Ok false)
          = Ok true).
  rewrite all_in_complete; [| intros k Hk; apply Hall; [now left | exact Hk]].
  simpl. apply IH. intros item k Hitem Hk. apply Hall; [now right | exact Hk].
Qed.

(** For a transcript that is not empty, [_finalize_timing] calls the service
    once and returns the list extracted from the answer, as it is, exactly
    when that list is not empty and each of its elements passes the four
    membership tests; in every other case it returns the segments it was
    given, sorted.  Nothing else is asked of the answer: not the number of
    its segments, not that its times be numbers, not that its elements be
    dicts. *)
Theorem finalize_timing_takes_answer (self : VideoProcessor.t)
  (transcript_segments : list Segment) (n : nat) :
  transcript_segments <> [] ->
  let result := VideoProcessor._finalize_timing self transcript_segments n in
  let answer := VideoProcessor.client self n in
  snd result = S n /\
  (forall json_data, fst result = Optimized json_data <-> accepted answer json_data) /\
  ((forall json_data, ~ accepted answer json_data) ->
   fst result = Original (py_sorted start transcript_segments)).
Proof.
  intros Hne result answer. subst result answer.
  destruct transcript_segments as [| s0 rest]; [congruence |].
  unfold VideoProcessor._finalize_timing, bindM, generate_content, ret.
  cbn [fst snd]. split; [reflexivity |].
  set (sorted_segments := py_sorted start (s0 :: rest)).
  assert (Hiff : forall json_data,
            match VideoProcessor.client self n with
            | Raised _ => Original sorted_segments
            | Returned _ j =>
                match j with
                | JArr items =>
                    if truthy j && (0 <? Z.of_nat (List.length items))%Z
                    then match VideoProcessor.all_valid items with
                         | Ok true => Optimized j
                         | _ => Original sorted_segments
                         end
                    else Original sorted_segments
                | _ => Original sorted_segments
                end
            end = Optimized json_data
            <-> accepted (VideoProcessor.client self n) json_data).
  { intro json_data. split.
    - destruct (VideoProcessor.client self n) as [e | tx j]; [discriminate |].
      destruct j as [| b | x | s | items | fields]; try discriminate.
      destruct items as [| i0 items']; [discriminate |].
      cbn [truthy andb].
      destruct (0 <? _)%Z; [| discriminate].
      destruct (VideoProcessor.all_valid (i0 :: items')) as [[|] | e] eqn:Hall;
        try discriminate.
      intro Hres. injection Hres as <-.
      exists tx, (i0 :: items'). split; [reflexivity |].
      split; [reflexivity |]. split; [discriminate |].
      intros item k. now apply all_valid_true.
    - intros [tx [items [-> [-> [Hitems Hall]]]]].
      destruct items as [| i0 items']; [congruence |].
      cbn [truthy andb].
      rewrite (all_valid_complete _ Hall).
      destruct (Z.ltb_spec 0 (Z.of_nat (List.length (i0 :: items'))))
        as [_ | Hbad]; [reflexivity | cbn [List.length] in Hbad; lia]. }
  split.
  - exact Hiff.
  - intro Hnone.
    destruct (VideoProcessor.client self n) as [e | tx j] eqn:Hc; [reflexivity |].
    destruct j as [| b | x | s | items | fields]; try reflexivity.
    destruct (truthy (JArr items) && (0 <? Z.of_nat (List.length items))%Z)
      eqn:Hguard; [| reflexivity].
    destruct (VideoProcessor.all_valid items) as [[|] | e] eqn:Hall;
      try reflexivity.
    exfalso. apply (Hnone (JArr items)). apply Hiff.
    reflexivity.
Qed.

(** The answer taken here is a list of one string, in which the four keys
    occur as substrings. *)
Lemma finalize_timing_takes_answer_string :
  let answer := Returned "..." (JArr [JStr "text, start, end, type"]) in
  let self := {| VideoProcessor.chunk_size_seconds := 30;
                 VideoProcessor.client := constant_client answer |} in
  fst (VideoProcessor._finalize_timing self
         [speech "world" 2 4; speech "hello" 0 2] 0%nat)
  = Optimized (JArr [JStr "text, start, end, type"]).
Proof.
  cbv zeta.
  apply (finalize_timing_takes_answer
           {| VideoProcessor.chunk_size_seconds := 30;
              VideoProcessor.client :=
                constant_client
                  (Returned "..." (JArr [JStr "text, start, end, type"])) |}
           [speech "world" 2 4; speech "hello" 0 2] 0%nat);
    [discriminate |].
  exists "..."%string, [JStr "text, start, end, type"].
  split; [reflexivity |]. split; [reflexivity |]. split; [discriminate |].
  intros item k [<- | []] Hk.
  cbn in Hk. destruct Hk as [<- | [<- | [<- | [<- | []]]]]; reflexivity.
Defined.

(** ** The caption formatter: what it cannot style *)

Section Styling.
Context `{PyBuiltins}.

Lemma effect_type_false (ty : jval) :
  effect_type ty = false ->
  is_str "music" ty = false /\ is_str "sound" ty = false /\
  is_str "silence" ty = false.
Proof.
  unfold effect_type. intro Hty.
  apply orb_false_iff in Hty. destruct Hty as [Hty Hsil].
  apply orb_false_iff in Hty. tauto.
Qed.

Lemma effect_type_true (ty : jval) :
  effect_type ty = true ->
  ty = JStr "music" \/ ty = JStr "sound" \/ ty = JStr "silence".
Proof.
  unfold effect_type, is_str. destruct ty as [| b | x | s | items | fields];
    try discriminate.
  intro Hty. apply orb_true_iff in Hty. destruct Hty as [Hty | Hty].
  - apply orb_true_iff in Hty. destruct Hty as [Hty | Hty];
      apply String.eqb_eq in Hty; subst; auto.
  - apply String.eqb_eq in Hty; subst; auto.
Qed.

Lemma srt_text_plain (ty tx : jval) :
  effect_type ty = false -> VideoProcessor.srt_text ty tx = Ok (py_str tx).
Proof.
  intro Hty. destruct (effect_type_false _ Hty) as [Hm [Hs Hl]].
  unfold VideoProcessor.srt_text. rewrite Hm, Hs, Hl. reflexivity.
Qed.

Lemma vtt_text_plain (ty tx : jval) :
  effect_type ty = false -> VideoProcessor.vtt_text ty tx = Ok (py_str tx).
Proof.
  intro Hty. destruct (effect_type_false _ Hty) as [Hm [Hs Hl]].
  unfold VideoProcessor.vtt_text. rewrite Hm, Hs, Hl. reflexivity.
Qed.

Lemma srt_text_string (ty : jval) (s : string) :
  exists out, VideoProcessor.srt_text ty (JStr s) = Ok out.
Proof.
  unfold VideoProcessor.srt_text, and_not, starts_with.
  destruct (is_str "music" ty); simpl.
  - destruct (String.prefix _ s); simpl; eauto.
    destruct (is_str "sound" ty); simpl.
    + destruct (String.prefix _ s); simpl; eauto.
      destruct (is_str "silence" ty); simpl; eauto.
      destruct (String.prefix _ s); simpl; eauto.
    + destruct (is_str "silence" ty); simpl; eauto.
      destruct (String.prefix _ s); simpl; eauto.
  - destruct (is_str "sound" ty); simpl.
    + destruct (String.prefix _ s); simpl; eauto.
      destruct (is_str "silence" ty); simpl; eauto.
      destruct (String.prefix _ s); simpl; eauto.
    + destruct (is_str "silence" ty); simpl; eauto.
      destruct (String.prefix _ s); simpl; eauto.
Qed.

Lemma vtt_text_string (ty : jval) (s : string) :
  exists out, VideoProcessor.vtt_text ty (JStr s) = Ok out.
Proof.
  unfold VideoProcessor.vtt_text, and_not, starts_with.
  destruct (is_str "music" ty); simpl.
  - destruct (String.prefix _ s); simpl; eauto.
    destruct (is_str "sound" ty); simpl.
    + destruct (String.prefix _ s); simpl; eauto.
      destruct (is_str "silence" ty); simpl; eauto.
      destruct (String.prefix _ s); simpl; eauto.
    + destruct (is_str "silence" ty); simpl; eauto.
      destruct (String.prefix _ s); simpl; eauto.
  - destruct (is_str "sound" ty); simpl.
    + destruct (String.prefix _ s); simpl; eauto.
      destruct (is_str "silence" ty); simpl; eauto.
      destruct (String.prefix _ s); simpl; eauto.
    + destruct (is_str "silence" ty); simpl; eauto.
      destruct (String.prefix _ s); simpl; eauto.
Qed.

Lemma text_unstylable (ty tx : jval) :
  effect_type ty = true -> is_string tx = false ->
  VideoProcessor.srt_text ty tx = Raise AttributeError /\
  VideoProcessor.vtt_text ty tx = Raise AttributeError.
Proof.
  intros Hty Htx.
  assert (Hsw : forall p, starts_with tx p = Raise AttributeError).
  { intro p. destruct tx; try reflexivity. discriminate. }
  unfold VideoProcessor.srt_text, VideoProcessor.vtt_text.
  destruct (effect_type_true _ Hty) as [-> | [-> | ->]];
    cbn [is_str String.eqb Ascii.eqb Bool.eqb and_not]; rewrite ?Hsw;
    split; reflexivity.
Qed.

(** The styling of a segment either succeeds in both formats or raises
    [AttributeError] in both, the latter exactly for the segments that are
    [unstylable]. *)
Lemma segment_styling (segment : Segment) :
  (unstylable segment /\
   VideoProcessor.srt_text (VideoProcessor.type_or_speech segment) (text segment)
   = Raise AttributeError /\
   VideoProcessor.vtt_text (VideoProcessor.type_or_speech segment) (text segment)
   = Raise AttributeError) \/
  (~ unstylable segment /\
   (exists out,
      VideoProcessor.srt_text (VideoProcessor.type_or_speech segment)
        (text segment) = Ok out) /\
   (exists out,
      VideoProcessor.vtt_text (VideoProcessor.type_or_speech segment)
        (text segment) = Ok out)).
Proof.
  unfold unstylable.
  destruct (effect_type (VideoProcessor.type_or_speech segment)) eqn:Hty.
  - destruct (is_string (text segment)) eqn:Htx.
    + right. split; [intros [_ Hf]; discriminate |].
      destruct (text segment) as [| b | x | s | items | fields];
        try discriminate.
      split; [apply srt_text_string | apply vtt_text_string].
    + left. split; [auto |]. now apply text_unstylable.
  - right. split; [intros [Hf _]; discriminate |].
    rewrite (srt_text_plain _ _ Hty), (vtt_text_plain _ _ Hty). eauto.
Qed.

Lemma srt_loop_raises (segments : list Segment) :
  forall (i : Z) (srt_content : list string),
    (Exists unstylable segments ->
     VideoProcessor.srt_loop i segments srt_content = Raise AttributeError) /\
    (~ Exists unstylable segments ->
     exists out, VideoProcessor.srt_loop i segments srt_content = Ok out).
Proof.
  induction segments as [| segment rest IH]; intros i acc.
  - split; [intro Hex; inversion Hex | intros _; simpl; eauto].
  - cbn [VideoProcessor.srt_loop].
    destruct (segment_styling segment)
      as [[Hbad [Hsrt _]] | [Hgood [[out Hsrt] _]]]; rewrite Hsrt; simpl.
    + split; [reflexivity | intro Hno; exfalso; apply Hno; now left].
    + split.
      * intro Hex. inversion Hex as [? ? Hhd | ? ? Htl]; subst;
          [contradiction | now apply IH].
      * intro Hno. apply IH. intro Hex. apply Hno. now right.
Qed.

Lemma vtt_loop_raises (segments : list Segment) :
  forall (i : Z) (vtt_content : list string),
    (Exists unstylable segments ->
     VideoProcessor.vtt_loop i segments vtt_content = Raise AttributeError) /\
    (~ Exists unstylable segments ->
     exists out, VideoProcessor.vtt_loop i segments vtt_content = Ok out).
Proof.
  induction segments as [| segment rest IH]; intros i acc.
  - split; [intro Hex; inversion Hex | intros _; simpl; eauto].
  - cbn [VideoProcessor.vtt_loop].
    destruct (segment_styling segment)
      as [[Hbad [_ Hvtt]] | [Hgood [_ [out Hvtt]]]]; rewrite Hvtt; simpl.
    + split; [reflexivity | intro Hno; exfalso; apply Hno; now left].
    + split.
      * intro Hex. inversion Hex as [? ? Hhd | ? ? Htl]; subst;
          [contradiction | now apply IH].
      * intro Hno. apply IH. intro Hex. apply Hno. now right.
Qed.

Lemma Exists_sorted (P : Segment -> Prop) (segments : list Segment) :
  Exists P (py_sorted start segments) <-> Exists P segments.
Proof.
  rewrite !Exists_exists. split; intros [x [Hin Hx]]; exists x; split; auto.
  - eapply Permutation_in; [apply Permutation_sym, py_sorted_perm | exact Hin].
  - eapply Permutation_in; [apply py_sorted_perm | exact Hin].
Qed.

(** On a transcript of segments, that is of dicts with finite numbers for
    times as [_transcribe_audio_chunk] and gap filling build them, the
    formatter of [VideoProcessor] fails exactly when a segment of type
    music, sound or silence has a text that is not a string: then it raises
    [AttributeError], for SRT and for VTT, and no caption is written; on
    every other transcript of segments both formats return a text.  A raw
    list taken from the timing answer, and times that are not finite, are
    not transcripts of segments. *)
Theorem format_unstylable_segment (segments : list Segment) :
  (Exists unstylable segments ->
   VideoProcessor._format_as_srt segments = Raise AttributeError /\
   VideoProcessor._format_as_vtt segments = Raise AttributeError) /\
  (~ Exists unstylable segments ->
   exists srt vtt,
     VideoProcessor._format_as_srt segments = Ok srt /\
     VideoProcessor._format_as_vtt segments = Ok vtt).
Proof.
  unfold VideoProcessor._format_as_srt, VideoProcessor._format_as_vtt,
    VideoProcessor.emit_srt, VideoProcessor.emit_vtt.
  split.
  - intro Hex. apply Exists_sorted in Hex.
    rewrite (proj1 (srt_loop_raises _ 1%Z []) Hex).
    rewrite (proj1 (vtt_loop_raises _ 1%Z ["WEBVTT"; ""]%string) Hex).
    split; reflexivity.
  - intro Hno.
    assert (Hno' : ~ Exists unstylable (py_sorted start segments))
      by (intro Hex; apply Hno; now apply Exists_sorted).
    destruct (proj2 (srt_loop_raises _ 1%Z []) Hno') as [srt ->].
    destruct (proj2 (vtt_loop_raises _ 1%Z ["WEBVTT"; ""]%string) Hno')
      as [vtt ->].
    simpl. eauto.
Qed.

End Styling.

Lemma prefix_empty (s : string) : String.prefix "" s = true.
Proof. destruct s; reflexivity. Qed.

Section Marks.
Context `{PyBuiltins}.

(** The styling of a text in SRT: the result starts with the mark of the
    type of the segment, a text that starts with the mark already is left as
    it is, and styling twice is styling once.  In VTT a text that starts
    with the mark already is left as it is too, without the tags. *)
Theorem srt_text_marks (ty : jval) (s : string) :
  exists out,
    VideoProcessor.srt_text ty (JStr s) = Ok out /\
    String.prefix (marker ty) out = true /\
    (String.prefix (marker ty) s = true ->
     out = s /\ VideoProcessor.vtt_text ty (JStr s) = Ok s) /\
    VideoProcessor.srt_text ty (JStr out) = Ok out.
Proof.
  destruct (effect_type ty) eqn:Hty.
  - destruct (effect_type_true _ Hty) as [-> | [-> | ->]];
      unfold VideoProcessor.srt_text, VideoProcessor.vtt_text, marker;
      cbn [is_str String.eqb Ascii.eqb Bool.eqb and_not starts_with py_str bind].
    + destruct (String.prefix "[♪" s) eqn:Hp; cbn [negb bind].
      * exists s. rewrite Hp. cbn [negb bind]. auto.
      * eexists. split; [reflexivity |].
        split; [reflexivity |]. split; [discriminate | reflexivity].
    + destruct (String.prefix "[Sound:" s) eqn:Hp; cbn [negb bind].
      * exists s. rewrite Hp. cbn [negb bind]. auto.
      * eexists. split; [reflexivity |].
        split; [reflexivity |]. split; [discriminate | reflexivity].
    + destruct (String.prefix "[" s) eqn:Hp; cbn [negb bind].
      * exists s. rewrite Hp. cbn [negb bind]. auto.
      * eexists. split; [reflexivity |].
        split; [simpl; apply prefix_empty |].
        split; [discriminate |]. simpl. rewrite prefix_empty. reflexivity.
  - exists s. rewrite (srt_text_plain _ _ Hty), (vtt_text_plain _ _ Hty).
    destruct (effect_type_false _ Hty) as [Hm [Hs Hl]].
    unfold marker. rewrite Hm, Hs, Hl. rewrite prefix_empty. simpl. auto.
Qed.

End Marks.

(** ** Timestamps: their shape, and what they keep of a time *)

Lemma fmt_d_two_digits (n : Z) :
  (0 <= n < 100)%Z -> two_digits (fmt_d 2 n) = true.
Proof.
  intro Hn.
  assert (Hall : forallb (fun i => two_digits (fmt_d 2 (Z.of_nat i)))
                         (seq 0 100) = true) by (vm_compute; reflexivity).
  rewrite forallb_forall in Hall.
  rewrite <- (Z2Nat.id n) by lia. apply Hall. apply in_seq. lia.
Qed.

Lemma fmt_d_three_digits (n : Z) :
  (0 <= n < 1000)%Z -> three_digits (fmt_d 3 n) = true.
Proof.
  intro Hn.
  assert (Hall : forallb (fun i => three_digits (fmt_d 3 (Z.of_nat i)))
                         (seq 0 1000) = true) by (vm_compute; reflexivity).
  rewrite forallb_forall in Hall.
  rewrite <- (Z2Nat.id n) by lia. apply Hall. apply in_seq. lia.
Qed.

Lemma format_timestamp_shaped (sep : ascii) (seconds : Q) :
  0 <= seconds -> seconds < 360000 ->
  timestamp_shaped sep (format_timestamp (String sep EmptyString) seconds) = true.
Proof.
  intros Hlo Hhi. rewrite format_timestamp_fields.
  destruct (timestamp_field_ranges seconds) as [Hm [Hs Hms]].
  cbv zeta in *.
  assert (Hw : (0 <= Qfloor seconds < 360000)%Z).
  { pose proof (Qfloor_le seconds) as H1. pose proof (Qlt_floor seconds) as H2.
    rewrite inject_Z_succ in H2. split.
    - assert (Hz : (0 < Qfloor seconds + 1)%Z).
      { rewrite Zlt_Qlt, inject_Z_succ. change (inject_Z 0) with 0. lra. }
      lia.
    - rewrite Zlt_Qlt. change (inject_Z 360000) with 360000. lra. }
  assert (Hh : (0 <= Qfloor seconds / 3600 < 100)%Z).
  { split; [apply Z.div_pos; lia | apply Z.div_lt_upper_bound; lia]. }
  pose proof (fmt_d_two_digits _ Hh) as Eh.
  pose proof (fmt_d_two_digits (Qfloor seconds mod 3600 / 60) ltac:(lia)) as Em.
  pose proof (fmt_d_two_digits (Qfloor seconds mod 60) ltac:(lia)) as Es.
  pose proof (fmt_d_three_digits _ Hms) as Ef.
  destruct (fmt_d 2 (Qfloor seconds / 3600)) as [| h1 [| h2 [| ? ?]]];
    try discriminate.
  destruct (fmt_d 2 (Qfloor seconds mod 3600 / 60)) as [| m1 [| m2 [| ? ?]]];
    try discriminate.
  destruct (fmt_d 2 (Qfloor seconds mod 60)) as [| s1 [| s2 [| ? ?]]];
    try discriminate.
  destruct (fmt_d 3 _) as [| f1 [| f2 [| f3 [| ? ?]]]]; try discriminate.
  unfold timestamp_shaped. cbn [append substring String.length].
  rewrite Eh, Em, Es, Ef, !String.eqb_refl. reflexivity.
Qed.

(** For a time from 0 up to, and not including, 100 hours, the timestamp is
    twelve characters long and reads [HH:MM:SS,mmm] in SRT and
    [HH:MM:SS.mmm] in VTT, every field in digits. *)
Theorem timestamp_shape (seconds : Q) :
  0 <= seconds -> seconds < 360000 ->
  timestamp_shaped "," (_format_srt_timestamp seconds) = true /\
  timestamp_shaped "." (_format_vtt_timestamp seconds) = true.
Proof.
  intros Hlo Hhi.
  split; [apply (format_timestamp_shaped ","%char) |
          apply (format_timestamp_shaped "."%char)]; assumption.
Qed.

Lemma timestamp_shape_example :
  timestamp_shaped "," (_format_srt_timestamp 3725.4) = true /\
  timestamp_shaped "." (_format_vtt_timestamp 3725.4) = true.
Proof.
  apply (timestamp_shape 3725.4); [discriminate | reflexivity].
Defined.

Lemma Qfloor_milliseconds (seconds : Q) :
  let ms := Qfloor (seconds * 1000) in
  Qfloor (inject_Z ms / 1000) = Qfloor seconds /\
  Qfloor ((inject_Z ms / 1000 - inject_Z (Qfloor seconds)) * 1000)
  = Qfloor ((seconds - inject_Z (Qfloor seconds)) * 1000).
Proof.
  intro ms.
  assert (Hw : Qfloor seconds = (ms / 1000)%Z).
  { unfold ms. rewrite <- (Qfloor_div (seconds * 1000) 1000) by lia.
    apply Qfloor_comp. change (inject_Z 1000) with 1000. field. }
  assert (H1 : Qfloor (inject_Z ms / 1000) = (ms / 1000)%Z).
  { change (1000 : Q) with (inject_Z 1000).
    rewrite Qfloor_div by lia. now rewrite Qfloor_Z. }
  split; [congruence |].
  set (w := Qfloor seconds) in *.
  assert (Ha : (inject_Z ms / 1000 - inject_Z w) * 1000
               == inject_Z ms - inject_Z (w * 1000)).
  { rewrite inject_Z_mult. change (inject_Z 1000) with 1000. field. }
  assert (Hb : (seconds - inject_Z w) * 1000
               == seconds * 1000 - inject_Z (w * 1000)).
  { rewrite inject_Z_mult. change (inject_Z 1000) with 1000. ring. }
  rewrite (Qfloor_comp _ _ Ha), (Qfloor_comp _ _ Hb), !Qfloor_sub_Z.
  now rewrite Qfloor_Z.
Qed.

(** On exact numbers a timestamp keeps the whole milliseconds of a time and
    drops the rest: the time and its milliseconds rounded down give the same
    timestamp, in SRT and in VTT. *)
Lemma format_timestamp_truncates (seconds : Q) :
  let truncated := inject_Z (Qfloor (seconds * 1000)) / 1000 in
  _format_srt_timestamp truncated = _format_srt_timestamp seconds /\
  _format_vtt_timestamp truncated = _format_vtt_timestamp seconds.
Proof.
  intro truncated. unfold _format_srt_timestamp, _format_vtt_timestamp.
  rewrite !format_timestamp_fields. cbv zeta.
  destruct (Qfloor_milliseconds seconds) as [Hw Hms]. cbv zeta in Hw, Hms.
  fold truncated in Hw, Hms. rewrite Hw, Hms. split; reflexivity.
Qed.

(** The milliseconds of a timestamp are [int((seconds % 1) * 1000)], and on
    binary64 the product is rounded before it is cut: the float nearest to
    0.009 denotes a number below 0.009, whose whole milliseconds are 8, and
    its timestamp reads 009, in SRT and in VTT.  So the code may give the
    millisecond above the one the time lies in; it is on exact numbers only
    that a timestamp depends on the whole milliseconds of the time alone. *)
Theorem timestamp_rounding :
  (exists (f : float) (q : Q),
     float_value f = Some q /\
     q < 0.009 /\ Qfloor (q * 1000) = 8%Z /\
     _format_srt_timestamp q = "00:00:00,008"%string /\
     Binary64._format_srt_timestamp f = Some "00:00:00,009"%string /\
     Binary64._format_vtt_timestamp f = Some "00:00:00.009"%string) /\
  (forall seconds : Q,
     let truncated := inject_Z (Qfloor (seconds * 1000)) / 1000 in
     _format_srt_timestamp truncated = _format_srt_timestamp seconds /\
     _format_vtt_timestamp truncated = _format_vtt_timestamp seconds).
Proof.
  split; [| exact format_timestamp_truncates].
  exists 0x1.26e978d4fdf3bp-7%float. eexists.
  split; [vm_compute; reflexivity |].
  repeat split; vm_compute; reflexivity.
Qed.

(** A time before 0 gets a timestamp that no player reads: the hours carry
    the sign and the other fields count up from the hour before. *)
Remark timestamp_negative :
  _format_srt_timestamp (-0.5) = "-1:59:59,500"%string.
Proof. vm_compute. reflexivity. Qed.

(** ** The gap analyzer on audio that is not silent *)

Section SoundGaps.
Context `{Pydub}.
Variable self : VideoProcessor.t.

(** For every gap whose audio is not below the silence threshold of -50
    dBFS, however short, [_analyze_audio_gap] calls the service once and
    returns a segment that spans the gap: with the text and the type that
    the service gave when its answer classifies the gap, and otherwise (the
    call raised, or no dict with ["type"] and ["text"] was extracted) with
    the text ["[Background sounds]"] and the type ["sound"]. *)
Theorem analyze_sound_gap (gap_audio : AudioSegment) (start_time end_time : Q)
  (n : nat) :
  dB_ltb (dBFS gap_audio) (-50) = false ->
  let result :=
    VideoProcessor._analyze_audio_gap self gap_audio start_time end_time n in
  let answer := VideoProcessor.client self n in
  exists segment,
    result = (Some segment, S n) /\
    start segment = start_time /\ end_ segment = end_time /\
    (forall tx ty, classified answer tx ty ->
                   text segment = tx /\ type segment = Some ty) /\
    ((forall tx ty, ~ classified answer tx ty) ->
     text segment = JStr "[Background sounds]" /\
     type segment = Some (JStr "sound")).
Proof.
  intros Hloud result answer. subst result answer.
  unfold VideoProcessor._analyze_audio_gap. rewrite Hloud. cbn [negb orb].
  unfold bindM, generate_content.
  destruct (VideoProcessor.classify_gap start_time end_time
              (VideoProcessor.client self n)) as [segment |] eqn:Hclass.
  - destruct (classify_gap_some _ _ _ _ Hclass) as [Hs [He [tx [ty [Hc [Htx Hty]]]]]].
    exists segment. split; [reflexivity |].
    split; [exact Hs | split; [exact He |]].
    split.
    + intros tx' ty' Hc'.
      rewrite (classify_gap_classified start_time end_time _ _ _ Hc') in Hclass.
      injection Hclass as <-. split; reflexivity.
    + intro Hnone. exfalso. exact (Hnone _ _ Hc).
  - eexists. split; [reflexivity |].
    split; [reflexivity | split; [reflexivity |]].
    split.
    + intros tx ty Hc.
      rewrite (classify_gap_classified start_time end_time _ _ _ Hc) in Hclass.
      discriminate.
    + intros _. split; reflexivity.
Qed.

End SoundGaps.

Lemma analyze_sound_gap_half_second :
  let self := {| VideoProcessor.chunk_size_seconds := 30;
                 VideoProcessor.client := failing_client |} in
  let gap_audio : AudioSegment := (500%Z, Finite (-20)) in
  VideoProcessor._analyze_audio_gap self gap_audio 10 10.5 0%nat
  = (Some {| text := JStr "[Background sounds]"; start := 10; end_ := 10.5;
             type := Some (JStr "sound") |}, 1%nat).
Proof.
  cbv zeta.
  destruct (@analyze_sound_gap uniform_audio
              {| VideoProcessor.chunk_size_seconds := 30;
                 VideoProcessor.client := failing_client |}
              (500%Z, Finite (-20)) 10 10.5 0%nat eq_refl)
    as [segment [Hrun _]].
  vm_compute in Hrun. injection Hrun as <-. vm_compute. reflexivity.
Defined.

(** ** The two SRT formatters side by side *)

Section TwoFormatters.
Context `{PyBuiltins}.

Lemma srt_loops_agree (segments : list Segment) :
  Forall (fun segment =>
            effect_type (VideoProcessor.type_or_speech segment) = false)
         segments ->
  forall (i : Z) (srt_content : list string),
    VideoProcessor.srt_loop i segments srt_content
    = Ok (CaptionGenerator.srt_loop i segments srt_content).
Proof.
  induction 1 as [| segment rest Hty _ IH]; intros i acc; [reflexivity |].
  cbn [VideoProcessor.srt_loop CaptionGenerator.srt_loop].
  rewrite (srt_text_plain _ _ Hty). simpl bind. apply IH.
Qed.

(** On a transcript that is in order of start already and has no segment of
    type music, sound or silence, the SRT formatter of [VideoProcessor]
    returns the very text that the one of [CaptionGenerator] returns: the
    two differ by the sort and by the styling only. *)
Theorem srt_formatters_agree (segments : list Segment) :
  StronglySorted by_start segments ->
  Forall (fun segment =>
            effect_type (VideoProcessor.type_or_speech segment) = false)
         segments ->
  VideoProcessor._format_as_srt segments
  = Ok (CaptionGenerator._format_as_srt segments).
Proof.
  intros Hsorted Hplain.
  unfold VideoProcessor._format_as_srt, VideoProcessor.emit_srt,
    CaptionGenerator._format_as_srt.
  rewrite (py_sorted_fixed start _ Hsorted).
  rewrite (srt_loops_agree _ Hplain). reflexivity.
Qed.

End TwoFormatters.

Lemma srt_formatters_agree_example :
  VideoProcessor._format_as_srt [speech "hello" 0 2; speech "world" 2 4]
  = Ok (CaptionGenerator._format_as_srt [speech "hello" 0 2; speech "world" 2 4]).
Proof.
  apply (@srt_formatters_agree plain_builtins).
  - repeat constructor; unfold by_start, key_le; simpl; lra.
  - repeat constructor.
Defined.

(** ** The input source: the video id of a link *)

Lemma append_assoc (a b c : string) : ((a ++ b) ++ c = a ++ (b ++ c))%string.
Proof. induction a as [| x a IH]; simpl; [reflexivity | now rewrite IH]. Qed.

Lemma append_nil_r (a : string) : (a ++ "" = a)%string.
Proof. induction a as [| x a IH]; simpl; [reflexivity | now rewrite IH]. Qed.

Lemma has_char_app (c : ascii) (a b : string) :
  has_char c (a ++ b) = has_char c a || has_char c b.
Proof.
  induction a as [| x a IH]; simpl; [reflexivity |].
  rewrite IH. now rewrite orb_assoc.
Qed.

Lemma split_aux_nonempty (sep s : string) :
  forall (skip : nat) (cur : string),
  exists x l, split_aux sep s skip cur = x :: l.
Proof.
  induction s as [| c s IH]; intros skip cur; cbn [split_aux]; [eauto |].
  destruct skip as [| k]; [| apply IH].
  destruct (String.prefix sep (String c s)); [eauto | apply IH].
Qed.

(** A separator that occurs in a string cuts it into two pieces at least. *)
Lemma split_aux_two (sep s : string) :
  String.prefix sep "" = false ->
  forall cur : string,
    contains s sep = true ->
    exists a b l, split_aux sep s 0 cur = a :: b :: l.
Proof.
  intro Hsep. induction s as [| c s IH]; intros cur Hin.
  - cbn [contains] in Hin. rewrite Hsep in Hin. discriminate.
  - cbn [contains] in Hin. cbn [split_aux].
    destruct (String.prefix sep (String c s)) eqn:Hp.
    + destruct (split_aux_nonempty sep s (String.length sep - 1) "")
        as [b [l ->]]. eauto.
    + cbn [orb] in Hin. apply IH. exact Hin.
Qed.

Lemma prefix_cons (a b : ascii) (s1 s2 : string) :
  String.prefix (String a s1) (String b s2)
  = if Ascii.eqb a b then String.prefix s1 s2 else false.
Proof.
  cbn [String.prefix].
  destruct (ascii_dec a b) as [-> | Hne].
  - now rewrite Ascii.eqb_refl.
  - apply Ascii.eqb_neq in Hne. now rewrite Hne.
Qed.

Lemma prefix_char_app (c : ascii) (a b : string) :
  has_char c a = false -> String.prefix (String c "") b = false ->
  String.prefix (String c "") (a ++ b) = false.
Proof.
  intros Ha Hb. destruct a as [| d a']; [exact Hb |].
  cbn [append]. rewrite prefix_cons.
  cbn [has_char] in Ha. apply orb_false_iff in Ha. destruct Ha as [Hd _].
  rewrite Ascii.eqb_sym, Hd. reflexivity.
Qed.

Lemma prefix_char_head (c t : ascii) (s : string) :
  String.prefix (String c "") (String t s) = true -> t = c.
Proof.
  rewrite prefix_cons. destruct (Ascii.eqb_spec c t) as [-> | _];
    [reflexivity | discriminate].
Qed.

(** The first piece of a cut at ["&"] holds no ["&"]. *)
Lemma split_amp_head (s : string) :
  forall cur : string,
    has_char "&" cur = false ->
    exists x l, split_aux "&" s 0 cur = x :: l /\ has_char "&" x = false.
Proof.
  induction s as [| c s IH]; intros cur Hcur; [simpl; eauto |].
  cbn [split_aux].
  destruct (String.prefix "&" (String c s)) eqn:Hp; [eauto |].
  apply IH. rewrite has_char_app, Hcur. cbn [has_char orb].
  rewrite orb_false_r.
  destruct (Ascii.eqb_spec c "&"%char) as [-> | Hne]; [| reflexivity].
  rewrite prefix_cons, prefix_empty in Hp. discriminate.
Qed.

(** The first piece of a cut at ["&"] of [id ++ tail], when [id] holds no
    ["&"] and [tail] is empty or starts with one. *)
Lemma split_amp_id (id tail : string) :
  has_char "&" id = false ->
  tail = ""%string \/ String.prefix "&" tail = true ->
  forall cur : string,
  exists l, split_aux "&" (id ++ tail) 0 cur = (cur ++ id)%string :: l.
Proof.
  intros Hid Htail. induction id as [| c id IH]; intro cur.
  - rewrite append_nil_r. cbn [append].
    destruct Htail as [-> | Hp]; [simpl; eauto |].
    destruct tail as [| t tail']; [discriminate |].
    cbn [split_aux]. rewrite Hp. eauto.
  - cbn [has_char] in Hid. apply orb_false_iff in Hid. destruct Hid as [Hc Hid].
    cbn [append split_aux].
    assert (Hp : String.prefix "&" (String c (id ++ tail)) = false).
    { rewrite prefix_cons, Ascii.eqb_sym, Hc. reflexivity. }
    rewrite Hp. destruct (IH Hid (cur ++ String c "")%string) as [l ->].
    exists l. f_equal. rewrite append_assoc. reflexivity.
Qed.

(** A cut at ["v="] of [id ++ tail] reads all of [id] into the piece at
    hand, when [id] holds no ["="] and [tail] does not start with one. *)
Lemma split_v_id (id tail : string) :
  has_char "=" id = false ->
  String.prefix "=" tail = false ->
  forall cur : string,
    split_aux "v=" (id ++ tail) 0 cur = split_aux "v=" tail 0 (cur ++ id).
Proof.
  intros Hid Htail. induction id as [| c id IH]; intro cur.
  - now rewrite append_nil_r.
  - cbn [has_char] in Hid. apply orb_false_iff in Hid. destruct Hid as [Hc Hid].
    cbn [append split_aux].
    assert (Hp : String.prefix "v=" (String c (id ++ tail)) = false).
    { rewrite prefix_cons, (prefix_char_app "=" id tail Hid Htail).
      now destruct (Ascii.eqb "v" c). }
    rewrite Hp, (IH Hid). now rewrite append_assoc.
Qed.

(** The piece at hand when a cut at ["v="] reaches a tail that is empty or
    starts with ["&"]: it ends there, or goes on with the ["&"]. *)
Lemma split_v_tail (tail : string) :
  tail = ""%string \/ String.prefix "&" tail = true ->
  forall cur : string,
  exists x l,
    split_aux "v=" tail 0 cur = (cur ++ x)%string :: l /\
    (x = ""%string \/ String.prefix "&" x = true).
Proof.
  intros [-> | Hp] cur.
  - exists ""%string, []. simpl. rewrite append_nil_r. auto.
  - destruct tail as [| t tail']; [discriminate |].
    apply prefix_char_head in Hp. subst t.
    assert (Hgen : forall s cur0,
              exists y l, split_aux "v=" s 0 cur0 = (cur0 ++ y)%string :: l).
    { induction s as [| c s IH]; intro cur0.
      - exists ""%string, []. simpl. now rewrite append_nil_r.
      - cbn [split_aux]. destruct (String.prefix "v=" (String c s)).
        + exists ""%string. rewrite append_nil_r. eauto.
        + destruct (IH (cur0 ++ String c "")%string) as [y [l ->]].
          exists (String c y), l. now rewrite append_assoc. }
    cbn [split_aux]. rewrite prefix_cons.
    change (Ascii.eqb "v" "&") with false. cbv iota.
    destruct (Hgen tail' (cur ++ "&")%string) as [y [l ->]].
    exists (String "&" y), l. rewrite append_assoc. split; [reflexivity |].
    right. rewrite prefix_cons, prefix_empty. reflexivity.
Qed.

(** The first cut at ["v="]: what stands before the first occurrence. *)
Lemma split_v_first (pre rest : string) :
  contains pre "v=" = false ->
  forall cur : string,
    split_aux "v=" (pre ++ "v=" ++ rest) 0 cur
    = (cur ++ pre)%string :: split_aux "v=" rest 0 "".
Proof.
  induction pre as [| c pre IH]; intros Hpre cur.
  - rewrite append_nil_r. cbn [append split_aux].
    rewrite !prefix_cons, prefix_empty. reflexivity.
  - cbn [contains] in Hpre. apply orb_false_iff in Hpre.
    destruct Hpre as [Hp Hpre].
    change (String c pre ++ "v=" ++ rest)%string
      with (String c (pre ++ "v=" ++ rest)).
    cbn [split_aux].
    assert (Hp' : String.prefix "v=" (String c (pre ++ "v=" ++ rest)) = false).
    { rewrite prefix_cons in Hp |- *.
      destruct (Ascii.eqb "v" c); [| reflexivity].
      destruct pre as [| d pre']; [reflexivity |].
      cbn [append]. rewrite prefix_cons in Hp |- *.
      rewrite prefix_empty in Hp |- *. exact Hp. }
    rewrite Hp', (IH Hpre). now rewrite append_assoc.
Qed.

Section VideoId.
Context `{Host}.

(** [_extract_youtube_id] returns an id for every link: the index [1] after
    the cut at ["v="] and the index [0] after the cut at ["&"] are in
    range.  The id of a link to youtube.com holds no ["&"]. *)
Theorem extract_youtube_id_total (url : string) :
  exists video_id,
    _extract_youtube_id url = Done video_id /\
    (in_tuple (netloc (urlparse url)) ["youtube.com"; "www.youtube.com"]%string
     = true ->
     has_char "&" video_id = false).
Proof.
  unfold _extract_youtube_id.
  destruct (netloc (urlparse url) =? "youtu.be")%string eqn:Hbe.
  - eexists. split; [reflexivity |].
    apply String.eqb_eq in Hbe. rewrite Hbe. discriminate.
  - destruct (in_tuple (netloc (urlparse url)) _) eqn:Hyt;
      [| eexists; split; [reflexivity | discriminate]].
    destruct (contains (query (urlparse url)) "v=") eqn:Hv;
      [| eexists; split; [reflexivity | reflexivity]].
    destruct (split_aux_two "v=" (query (urlparse url)) eq_refl "" Hv)
      as [a [b [l Hsplit]]].
    unfold split_on, py_item. rewrite Hsplit. cbn [nth_error bind_res].
    destruct (split_amp_head b "" eq_refl) as [x [l' [Hamp Hx]]].
    rewrite Hamp. cbn [nth_error]. eauto.
Qed.

(** For a link to youtube.com whose query reads [v=<id>], alone or before an
    ["&"], after a part that holds no ["v="], [_extract_youtube_id] returns
    [<id>] when the id holds no ["&"] and no ["="]. *)
Theorem extract_youtube_id_watch (url pre video_id tail : string) :
  in_tuple (netloc (urlparse url)) ["youtube.com"; "www.youtube.com"]%string
  = true ->
  query (urlparse url) = (pre ++ "v=" ++ video_id ++ tail)%string ->
  contains pre "v=" = false ->
  has_char "&" video_id = false -> has_char "=" video_id = false ->
  tail = ""%string \/ String.prefix "&" tail = true ->
  _extract_youtube_id url = Done video_id.
Proof.
  intros Hyt Hq Hpre Hamp Heq Htail.
  unfold _extract_youtube_id.
  destruct (netloc (urlparse url) =? "youtu.be")%string eqn:Hbe.
  { apply String.eqb_eq in Hbe. rewrite Hbe in Hyt. discriminate. }
  rewrite Hyt, Hq.
  assert (Htail' : String.prefix "=" tail = false).
  { destruct Htail as [-> | Hp]; [reflexivity |].
    destruct tail as [| t tail']; [reflexivity |].
    apply prefix_char_head in Hp. subst t. reflexivity. }
  assert (Hsplit : exists x l,
            split_on "v=" (pre ++ "v=" ++ video_id ++ tail)
            = pre :: (video_id ++ x)%string :: l /\
            (x = ""%string \/ String.prefix "&" x = true)).
  { unfold split_on. rewrite (split_v_first _ _ Hpre).
    rewrite (split_v_id _ _ Heq Htail').
    destruct (split_v_tail tail Htail ("" ++ video_id)%string)
      as [x [l [-> Hx]]].
    exists x, l. auto. }
  destruct Hsplit as [x [l [Hsplit Hx]]].
  assert (Hin : contains (pre ++ "v=" ++ video_id ++ tail) "v=" = true).
  { clear. induction pre as [| c pre IH].
    - cbn [append contains]. rewrite !prefix_cons, prefix_empty. reflexivity.
    - change (String c pre ++ "v=" ++ video_id ++ tail)%string
        with (String c (pre ++ "v=" ++ video_id ++ tail)).
      cbn [contains]. rewrite IH. apply orb_true_r. }
  rewrite Hin. unfold py_item. rewrite Hsplit. cbn [nth_error bind_res].
  unfold split_on.
  destruct (split_amp_id video_id x Hamp Hx "") as [l' ->].
  reflexivity.
Qed.

End VideoId.

Lemma extract_youtube_id_watch_example :
  _extract_youtube_id watch_url = Done "dQw4w9WgXcQ"%string.
Proof.
  apply (@extract_youtube_id_watch uniform_audio plain_host watch_url
           "" "dQw4w9WgXcQ" "&t=5");
    try reflexivity.
  right. reflexivity.
Defined.

(** A key that ends in [v] is taken for the id: the id of [rev=1&v=ID] is
    ["1"]. *)
Remark split_on_first_v :
  (rest <- py_item (split_on "v=" "rev=1&v=dQw4w9WgXcQ") 1 ;;
   py_item (split_on "&" rest) 0)%res
  = Done "1"%string.
Proof. vm_compute. reflexivity. Qed.

(** ** The input stage of [CaptionGenerator]: where the captions go *)

Lemma basename_no_slash (p : string) : has_char "/" (basename p) = false.
Proof.
  induction p as [| c p IH]; [reflexivity |].
  cbn [basename]. destruct (has_char "/" p) eqn:Hp; [exact IH |].
  destruct (Ascii.eqb c "/") eqn:Hc; [exact Hp |].
  cbn [has_char]. now rewrite Hc, Hp.
Qed.

Lemma before_last_dot_no_slash (s : string) :
  has_char "/" s = false -> has_char "/" (before_last_dot s) = false.
Proof.
  induction s as [| c s IH]; [reflexivity |].
  cbn [has_char before_last_dot]. intro Hs.
  apply orb_false_iff in Hs. destruct Hs as [Hc Hs].
  destruct (has_char "." s).
  - cbn [has_char]. now rewrite Hc, IH.
  - destruct (Ascii.eqb c "."); [reflexivity |].
    cbn [has_char]. now rewrite Hc, Hs.
Qed.

Lemma prefix_slash (s : string) :
  has_char "/" s = false -> String.prefix "/" s = false.
Proof.
  destruct s as [| c s]; [reflexivity |].
  cbn [has_char]. intro Hs. apply orb_false_iff in Hs. destruct Hs as [Hc _].
  now rewrite prefix_cons, Ascii.eqb_sym, Hc.
Qed.

Lemma os_path_join_output (b : string) :
  String.prefix "/" b = false ->
  os_path_join "output" b = ("output/" ++ b)%string.
Proof. intro Hb. unfold os_path_join. now rewrite Hb. Qed.

Lemma prefix_app (a x y : string) :
  String.prefix a x = true -> String.prefix a (x ++ y) = true.
Proof.
  revert x. induction a as [| c a IH]; intros x Hx; [apply prefix_empty |].
  destruct x as [| d x]; [discriminate |].
  cbn [append]. rewrite prefix_cons in Hx |- *.
  destruct (Ascii.eqb c d); [now apply IH | discriminate].
Qed.

Lemma ends_with_app (x suffix : string) : ends_with (x ++ suffix) suffix = true.
Proof.
  induction x as [| c x IH].
  - cbn [append]. destruct suffix; cbn [ends_with];
      rewrite String.eqb_refl; reflexivity.
  - cbn [append ends_with]. rewrite IH. apply orb_true_r.
Qed.

Lemma in_output_formats (s : string) :
  in_tuple s output_formats = true -> s = "srt"%string \/ s = "vtt"%string.
Proof.
  unfold in_tuple, output_formats. cbn [existsb]. rewrite orb_false_r.
  intro Hs. apply orb_true_iff in Hs.
  destruct Hs as [Hs | Hs]; apply String.eqb_eq in Hs; auto.
Qed.

(** The path that [process_input] settles on before it runs the tools. *)
Lemma output_path_settled (filename_base output_format : string)
  (output_path : option string) :
  has_char "/" filename_base = false \/
  String.prefix "youtube_" filename_base = true ->
  let settled :=
    match output_path with
    | None => os_path_join "output" (filename_base ++ "." ++ output_format)
    | Some p =>
        if negb (String.prefix "output/" p)
        then os_path_join "output" (basename p)
        else p
    end in
  String.prefix "output/" settled = true /\
  (forall p, output_path = Some p -> String.prefix "output/" p = true ->
             settled = p).
Proof.
  intros Hbase settled. subst settled.
  destruct output_path as [p |].
  - destruct (String.prefix "output/" p) eqn:Hp; cbn [negb].
    + split; [exact Hp | intros p' Hp' _; congruence].
    + rewrite os_path_join_output
        by (apply prefix_slash, basename_no_slash).
      split; [apply (prefix_app "output/" "output/"); reflexivity |].
      intros p' Hp' Hpre. injection Hp' as <-. congruence.
  - rewrite os_path_join_output.
    + split; [apply (prefix_app "output/" "output/"); reflexivity |].
      intros p Hp. discriminate.
    + destruct Hbase as [Hns | Hyt].
      * apply prefix_char_app; [exact Hns | reflexivity].
      * destruct filename_base as [| c rest]; [discriminate |].
        cbn [append]. rewrite prefix_cons in Hyt |- *.
        destruct (Ascii.eqb_spec "y" c) as [<- | _]; [reflexivity | discriminate].
Qed.

Section InputStage.
Context `{PyBuiltins} `{Host}.
Variable cg : CaptionGenerator.t.

(** [process_input] refuses a format that is neither srt nor vtt, in any
    case of the letters, with [ValueError] and before anything else.  When
    it gets through the input stage and the answers of the service hold
    plain times only (numbers of at most 10^9 seconds, no string, nothing
    that binary64 does not hold), the calls of the service are those of the
    chunking loop on the audio track, the formatting does not fail, the
    text is the one of the formatter of the format asked for, and the file
    lies under [output/] and ends with the period and the format as it was
    given; a path given under [output/] with that ending is kept as it is.
    The condition on the times marks the answers on which the timestamps
    are taken of finite floats; the embedding computes with exact numbers
    throughout. *)
Theorem process_input_output_file (input_source : string)
  (output_path : option string) (output_format : string) :
  (in_tuple (py_lower output_format) output_formats = false ->
   CaptionGenerator.process_input cg input_source output_path output_format
   = Thrown (Builtin ValueError)) /\
  (forall run,
     CaptionGenerator.process_input cg input_source output_path output_format
     = Done run ->
     (forall n, plain_times (CaptionGenerator.client cg n)) ->
     exists video_path audio chunks,
       _extract_audio video_path = Done audio /\
       CaptionGenerator._process_audio_chunks cg audio = Ok chunks /\
       forall n : nat,
       exists output_file caption_text,
         run n = (Done (output_file, caption_text), snd (chunks n)) /\
         ((py_lower output_format = "srt"%string /\
           caption_text = CaptionGenerator._format_as_srt (fst (chunks n))) \/
          (py_lower output_format = "vtt"%string /\
           caption_text = CaptionGenerator._format_as_vtt (fst (chunks n)))) /\
         String.prefix "output/" output_file = true /\
         ends_with output_file ("." ++ output_format) = true /\
         (forall p, output_path = Some p ->
                    String.prefix "output/" p = true ->
                    ends_with p ("." ++ output_format) = true ->
                    output_file = p)).
Proof.
  unfold CaptionGenerator.process_input.
  destruct (in_tuple (py_lower output_format) output_formats) eqn:Hfmt;
    cbn [negb]; (split; [try discriminate; reflexivity |]); [| discriminate].
  intro run.
  set (source :=
         if _is_youtube_url input_source
         then (video_path <- _download_youtube_video input_source ;;
               video_id <- _extract_youtube_id input_source ;;
               Done (video_path, ("youtube_" ++ video_id)%string))%res
         else if negb (path_exists input_source) then Thrown FileNotFoundError
              else Done (input_source, before_last_dot (basename input_source))).
  assert (Hsource : forall video_path filename_base,
            source = Done (video_path, filename_base) ->
            has_char "/" filename_base = false \/
            String.prefix "youtube_" filename_base = true).
  { intros video_path filename_base. unfold source.
    destruct (_is_youtube_url input_source).
    - destruct (_download_youtube_video input_source) as [v | e];
        [| discriminate].
      cbn [bind_res].
      destruct (_extract_youtube_id input_source) as [video_id | e];
        [| discriminate].
      cbn [bind_res]. intro Hs. injection Hs as _ <-. right.
      apply (prefix_app "youtube_" "youtube_"). reflexivity.
    - destruct (negb (path_exists input_source)); [discriminate |].
      intro Hs. injection Hs as _ <-. left.
      apply before_last_dot_no_slash, basename_no_slash. }
  destruct source as [[video_path filename_base] | e]; [| discriminate].
  specialize (Hsource _ _ eq_refl).
  cbn [bind_res].
  destruct (output_path_settled filename_base output_format output_path Hsource)
    as [Hpre Hkept].
  set (settled :=
         match output_path with
         | None => os_path_join "output" (filename_base ++ "." ++ output_format)
         | Some p =>
             if negb (String.prefix "output/" p)
             then os_path_join "output" (basename p)
             else p
         end) in *.
  destruct (_extract_audio video_path) as [audio | e] eqn:Haudio;
    [| discriminate].
  cbn [bind_res].
  destruct (CaptionGenerator._process_audio_chunks cg audio) as [chunks | e]
    eqn:Hchunks; [| discriminate].
  cbn [lift bind_res]. intros Hrun _. injection Hrun as <-.
  exists video_path, audio, chunks.
  split; [exact Haudio |]. split; [exact Hchunks |].
  intro n. unfold bindM, ret. destruct (chunks n) as [segments n'].
  cbn [fst snd].
  assert (Hfile : exists output_file,
            (if negb (ends_with settled ("." ++ output_format))
             then (settled ++ "." ++ output_format)%string else settled)
            = output_file /\
            String.prefix "output/" output_file = true /\
            ends_with output_file ("." ++ output_format) = true /\
            (forall p, output_path = Some p ->
                       String.prefix "output/" p = true ->
                       ends_with p ("." ++ output_format) = true ->
                       output_file = p)).
  { eexists. split; [reflexivity |].
    destruct (ends_with settled ("." ++ output_format)) eqn:Hends; cbn [negb].
    - split; [exact Hpre |]. split; [exact Hends |].
      intros p Hp Hpp _. now apply Hkept.
    - split; [now apply prefix_app |]. split; [apply ends_with_app |].
      intros p Hp Hpp Hpe. rewrite (Hkept p Hp Hpp) in Hends. congruence. }
  destruct Hfile as [output_file [Hname Hfile]].
  cbn [append] in Hname. rewrite Hname.
  unfold CaptionGenerator._format_captions.
  destruct (in_output_formats _ Hfmt) as [-> | ->]; cbn [String.eqb Ascii.eqb Bool.eqb lift bind_res].
  - eexists _, _. split; [reflexivity |]. split; [left; auto | exact Hfile].
  - eexists _, _. split; [reflexivity |]. split; [right; auto | exact Hfile].
Qed.

End InputStage.

Lemma process_input_output_file_example :
  let cg := {| CaptionGenerator.chunk_size_seconds := 30;
               CaptionGenerator.client := failing_client |} in
  exists run,
    CaptionGenerator.process_input cg "clips/talk.final.mp4" None "SRT"
    = Done run /\
    forall n : nat,
    exists output_file caption_text,
      fst (run n) = Done (output_file, caption_text) /\
      String.prefix "output/" output_file = true /\
      ends_with output_file ".SRT" = true.
Proof.
  cbv zeta.
  destruct (@process_input_output_file plain_builtins uniform_audio plain_host
              {| CaptionGenerator.chunk_size_seconds := 30;
                 CaptionGenerator.client := failing_client |}
              "clips/talk.final.mp4" None "SRT") as [_ Hdone].
  eexists. split; [reflexivity |].
  intro n.
  destruct (Hdone _ eq_refl (fun _ => I))
    as [video_path [audio [chunks [_ [_ Hn]]]]].
  destruct (Hn n) as [output_file [caption_text [Hrun [_ [Hpre [Hend _]]]]]].
  exists output_file, caption_text. rewrite Hrun. auto.
Defined.

(** The ending of the file keeps the letters of the format as they were
    given, and the name of the video its inner periods. *)
Remark process_input_keeps_case :
  let cg := {| CaptionGenerator.chunk_size_seconds := 30;
               CaptionGenerator.client := failing_client |} in
  exists run text,
    CaptionGenerator.process_input cg "clips/talk.final.mp4" None "SRT"
    = Done run /\
    run 0%nat = (Done ("output/talk.final.SRT"%string, text), 3%nat).
Proof.
  cbv zeta. eexists _, _. split; [reflexivity |]. vm_compute. reflexivity.
Qed.

(** ** The format asked for *)

Section Dispatch.
Context `{PyBuiltins}.

Lemma srt_loop_outcome (segments : list Segment) :
  forall (i : Z) (srt_content : list string),
    VideoProcessor.srt_loop i segments srt_content = Raise AttributeError \/
    exists out, VideoProcessor.srt_loop i segments srt_content = Ok out.
Proof.
  induction segments as [| segment rest IH]; intros i acc; [simpl; eauto |].
  cbn [VideoProcessor.srt_loop].
  destruct (segment_styling segment)
    as [[_ [Hsrt _]] | [_ [[out Hsrt] _]]]; rewrite Hsrt; simpl; [auto |].
  apply IH.
Qed.

Lemma vtt_loop_outcome (segments : list Segment) :
  forall (i : Z) (vtt_content : list string),
    VideoProcessor.vtt_loop i segments vtt_content = Raise AttributeError \/
    exists out, VideoProcessor.vtt_loop i segments vtt_content = Ok out.
Proof.
  induction segments as [| segment rest IH]; intros i acc; [simpl; eauto |].
  cbn [VideoProcessor.vtt_loop].
  destruct (segment_styling segment)
    as [[_ [_ Hvtt]] | [_ [_ [out Hvtt]]]]; rewrite Hvtt; simpl; [auto |].
  apply IH.
Qed.

Lemma py_lower_idempotent (s : string) : py_lower (py_lower s) = py_lower s.
Proof.
  induction s as [| c s IH]; [reflexivity |].
  cbn [py_lower]. rewrite IH. f_equal.
  destruct c as [b0 b1 b2 b3 b4 b5 b6 b7].
  destruct b0, b1, b2, b3, b4, b5, b6, b7; reflexivity.
Qed.

(** [_format_captions] raises [ValueError] on exactly the formats that the
    check at the head of [process_video] and of [process_input] refuses:
    those that are neither srt nor vtt once in lowercase.  A format that
    passes the check never fails for being unsupported later on, and the
    letters of the format may be in any case. *)
Theorem format_captions_dispatch (transcript_segments : list Segment)
  (format_type : string) :
  let supported := in_tuple (py_lower format_type) output_formats in
  (supported = false <->
   VideoProcessor._format_captions transcript_segments format_type
   = Raise ValueError) /\
  (supported = false <->
   CaptionGenerator._format_captions transcript_segments format_type
   = Raise ValueError) /\
  (supported = true ->
   exists caption_text,
     CaptionGenerator._format_captions transcript_segments format_type
     = Ok caption_text) /\
  VideoProcessor._format_captions transcript_segments (py_lower format_type)
  = VideoProcessor._format_captions transcript_segments format_type /\
  CaptionGenerator._format_captions transcript_segments (py_lower format_type)
  = CaptionGenerator._format_captions transcript_segments format_type.
Proof.
  intro supported. subst supported.
  unfold VideoProcessor._format_captions, CaptionGenerator._format_captions,
    in_tuple, output_formats.
  rewrite py_lower_idempotent. cbn [existsb]. rewrite orb_false_r.
  destruct (py_lower format_type =? "srt")%string eqn:Hsrt;
    [| destruct (py_lower format_type =? "vtt")%string eqn:Hvtt]; cbn [orb].
  - split; [| split; [| split; [| split]]];
      try reflexivity; try (split; discriminate); [| eauto].
    split; [discriminate |].
    unfold VideoProcessor._format_as_srt, VideoProcessor.emit_srt.
    destruct (srt_loop_outcome (py_sorted start transcript_segments) 1%Z [])
      as [-> | [out ->]]; discriminate.
  - split; [| split; [| split; [| split]]];
      try reflexivity; try (split; discriminate); [| eauto].
    split; [discriminate |].
    unfold VideoProcessor._format_as_vtt, VideoProcessor.emit_vtt.
    destruct (vtt_loop_outcome (py_sorted start transcript_segments) 1%Z
                ["WEBVTT"; ""]%string)
      as [-> | [out ->]]; discriminate.
  - split; [| split; [| split; [| split]]];
      try reflexivity; try (split; reflexivity). discriminate.
Qed.

End Dispatch.

(** ** The chunking loop of [VideoProcessor], for any answers *)


Section AnyAnswers.
Context `{PyBuiltins} `{Pydub}.
Variable vp : VideoProcessor.t.





End AnyAnswers.

